(** * A rotating, length-prefixed binary log: the model and its properties

    Shallow embedding of [simple_logger.py] and [utilities.py].

    - [Py]: the Python built-ins the two files call ([str.encode],
      [bytes.decode], [int.to_bytes], [int.from_bytes], [str.isdigit],
      [int], [str.split], [sorted]).
    - [PathLib]: [Path.suffix], [Path.stem], [Path.with_suffix] and the
      pattern matching behind [Path.glob].
    - [OS]: one directory of files, a fault oracle for system calls, the
      trace of calls, and the monad that threads them.
    - [Utilities], [LogState], [BinaryLogger]: the source, function by
      function.
    - [Task], [Threaded]: [write], [rollover] and [close] once more, cut
      into the steps that threads interleave, with the reentrant lock
      and a scheduler.
    - [Session], [Concurrency]: sequences of calls on one instance
      ([demo] among them), and what the statements about threads are
      written with. *)

From Stdlib Require Import ZArith NArith List String Ascii Bool Lia.
From Stdlib Require Import Permutation Sorted.
From Stdlib Require Import DecimalString DecimalN.
From Stdlib.Strings Require Byte.
Import ListNotations.

Set Implicit Arguments.

Local Open Scope Z_scope.

(* ================================================================== *)
(** ** Python built-ins *)
(* ================================================================== *)

Module Py.

(** A Python [bytes] object. *)
Definition bytes := list Byte.byte.

(** A Python [str] used as a payload: a sequence of code points.  Python
    lets a [str] hold any code point below [0x110000], lone surrogates
    ([0xD800 .. 0xDFFF]) included. *)
Definition str := list N.

Definition is_code_point (c : N) : Prop := (c < 0x110000)%N.

Definition is_surrogate (c : N) : bool :=
  ((0xD800 <=? c) && (c <=? 0xDFFF))%N.

(** A code point that UTF-8 can encode: any code point but a surrogate. *)
Definition is_scalar (c : N) : Prop :=
  is_code_point c /\ is_surrogate c = false.

(** [len(x)] as a Python integer. *)
Definition len {A} (l : list A) : Z := Z.of_nat (List.length l).

Definition byte_of_N (n : N) : Byte.byte :=
  match Byte.of_N n with
  | Some b => b
  | None => Byte.x00
  end.

(** The code points of an ASCII/Latin-1 literal, to write payloads down. *)
Fixpoint of_string (s : string) : str :=
  match s with
  | EmptyString => []
  | String a s' => N_of_ascii a :: of_string s'
  end.

(** *** [str.encode("utf-8", errors="replace")]

    One to four bytes per code point; a surrogate cannot be encoded and
    the [replace] handler puts [b'?'] in its place. *)
Definition encode_char (c : N) : bytes :=
  (if c <? 0x80 then
     [byte_of_N c]
   else if c <? 0x800 then
     [byte_of_N (0xC0 + c / 64); byte_of_N (0x80 + c mod 64)]
   else if c <? 0x10000 then
     if is_surrogate c then
       [byte_of_N 0x3F]
     else
       [byte_of_N (0xE0 + c / 4096);
        byte_of_N (0x80 + (c / 64) mod 64);
        byte_of_N (0x80 + c mod 64)]
   else
     [byte_of_N (0xF0 + c / 262144);
      byte_of_N (0x80 + (c / 4096) mod 64);
      byte_of_N (0x80 + (c / 64) mod 64);
      byte_of_N (0x80 + c mod 64)])%N.

Definition encode (s : str) : bytes := flat_map encode_char s.

(** *** [bytes.decode("utf-8", errors="replace")]

    CPython replaces every maximal ill-formed subpart by one [U+FFFD] and
    resumes at the first byte that did not fit. *)
Definition replacement : N := 0xFFFD%N.

Definition is_cont (b : N) : bool := ((0x80 <=? b) && (b <=? 0xBF))%N.

(** Range allowed for the byte that follows lead byte [b0]. *)
Definition second_ok (b0 b1 : N) : bool :=
  (if b0 =? 0xE0 then (0xA0 <=? b1) && (b1 <=? 0xBF)
   else if b0 =? 0xED then (0x80 <=? b1) && (b1 <=? 0x9F)
   else if b0 =? 0xF0 then (0x90 <=? b1) && (b1 <=? 0xBF)
   else if b0 =? 0xF4 then (0x80 <=? b1) && (b1 <=? 0x8F)
   else is_cont b1)%N.

Fixpoint decode (bs : bytes) : str :=
  match bs with
  | [] => []
  | x0 :: r0 =>
    let b0 := Byte.to_N x0 in
    (if b0 <? 0x80 then b0 :: decode r0
     else if (0xC2 <=? b0) && (b0 <=? 0xDF) then
       match r0 with
       | [] => [replacement]
       | x1 :: r1 =>
         let b1 := Byte.to_N x1 in
         if is_cont b1
         then ((b0 - 0xC0) * 64 + (b1 - 0x80)) :: decode r1
         else replacement :: decode r0
       end
     else if (0xE0 <=? b0) && (b0 <=? 0xEF) then
       match r0 with
       | [] => [replacement]
       | x1 :: r1 =>
         let b1 := Byte.to_N x1 in
         if second_ok b0 b1 then
           match r1 with
           | [] => [replacement]
           | x2 :: r2 =>
             let b2 := Byte.to_N x2 in
             if is_cont b2
             then ((b0 - 0xE0) * 4096 + (b1 - 0x80) * 64 + (b2 - 0x80))
                    :: decode r2
             else replacement :: decode r1
           end
         else replacement :: decode r0
       end
     else if (0xF0 <=? b0) && (b0 <=? 0xF4) then
       match r0 with
       | [] => [replacement]
       | x1 :: r1 =>
         let b1 := Byte.to_N x1 in
         if second_ok b0 b1 then
           match r1 with
           | [] => [replacement]
           | x2 :: r2 =>
             let b2 := Byte.to_N x2 in
             if is_cont b2 then
               match r2 with
               | [] => [replacement]
               | x3 :: r3 =>
                 let b3 := Byte.to_N x3 in
                 if is_cont b3
                 then ((b0 - 0xF0) * 262144 + (b1 - 0x80) * 4096
                       + (b2 - 0x80) * 64 + (b3 - 0x80)) :: decode r3
                 else replacement :: decode r2
               end
             else replacement :: decode r1
           end
         else replacement :: decode r0
       end
     else replacement :: decode r0)%N
  end.

(** *** [int.to_bytes(length, "big")] and [int.from_bytes(b, "big")] *)

(** The [width] low-order base-256 digits of [n], most significant first. *)
Fixpoint be_digits (width : nat) (n : Z) : bytes :=
  match width with
  | O => []
  | S w => be_digits w (n / 256) ++ [byte_of_N (Z.to_N (n mod 256))]
  end.

(** [None] is [OverflowError: int too big to convert]. *)
Definition to_bytes (n : Z) (width : nat) : option bytes :=
  if (0 <=? n) && (n <? 256 ^ Z.of_nat width)
  then Some (be_digits width n)
  else None.

Definition from_bytes (bs : bytes) : Z :=
  fold_left (fun acc b => acc * 256 + Z.of_N (Byte.to_N b)) bs 0.

(** *** Strings that name files

    File names are Python [str] values too; the model keeps to names whose
    code points lie below 256 and writes them as [string], one [ascii] per
    code point.  On that range [str.isdigit] accepts the ten decimal digits
    and the three superscript digits [U+00B2], [U+00B3], [U+00B9], while
    [int] reads decimal digits only. *)

Definition isdigit_char (c : ascii) : bool :=
  let n := N_of_ascii c in
  ((48 <=? n) && (n <=? 57) || (n =? 0xB2) || (n =? 0xB3) || (n =? 0xB9))%N.

Fixpoint all_chars (p : ascii -> bool) (s : string) : bool :=
  match s with
  | EmptyString => true
  | String c s' => p c && all_chars p s'
  end.

(** [s.isdigit()]: every character is a digit and there is at least one. *)
Definition isdigit (s : string) : bool :=
  match s with
  | EmptyString => false
  | _ => all_chars isdigit_char s
  end.

(** [int(s)] on the strings that reach it, those that pass [isdigit]:
    [None] is [ValueError: invalid literal for int() with base 10]. *)
Definition int (s : string) : option Z :=
  match s with
  | EmptyString => None
  | _ => option_map (fun d => Z.of_N (N.of_uint d)) (NilEmpty.uint_of_string s)
  end.

(** [f"{n}"] for an integer. *)
Definition format_int (n : Z) : string :=
  match n with
  | Zneg p => String "-" (NilEmpty.string_of_uint (N.to_uint (Npos p)))
  | _ => NilEmpty.string_of_uint (N.to_uint (Z.to_N n))
  end.

(** [s.rpartition('.')] when [s] has a dot: what precedes the last dot and
    what follows it. *)
Fixpoint rsplit_dot (s : string) : option (string * string) :=
  match s with
  | EmptyString => None
  | String c s' =>
    match rsplit_dot s' with
    | Some (before, after) => Some (String c before, after)
    | None => if Ascii.eqb c "." then Some (EmptyString, s') else None
    end
  end.

(** [s.split('.')[-1]] *)
Definition last_segment (s : string) : string :=
  match rsplit_dot s with
  | Some (_, after) => after
  | None => s
  end.

(** *** [sorted(xs, key=...)]

    Python's sort is stable; so is insertion from the right, and a stable
    sort has one possible result. *)
Section Sorted.
Context {A : Type} (key : A -> Z).

Fixpoint insert_by (x : A) (l : list A) : list A :=
  match l with
  | [] => [x]
  | y :: l' => if key x <=? key y then x :: l else y :: insert_by x l'
  end.

Definition sorted_by (l : list A) : list A := fold_right insert_by [] l.
End Sorted.

End Py.

(* ================================================================== *)
(** ** pathlib *)
(* ================================================================== *)

Module PathLib.

Local Open Scope string_scope.

(** A path is modelled by its final component: every file the logger
    touches is a sibling of the active file.  The component is not empty. *)

(** [PurePath.suffix]: from the last dot on, when that dot is neither the
    first nor the last character of the name. *)
Definition suffix (name : string) : string :=
  match Py.rsplit_dot name with
  | Some (EmptyString, _) => ""
  | Some (_, EmptyString) => ""
  | Some (_, after) => String "." after
  | None => ""
  end.

(** [PurePath.stem] *)
Definition stem (name : string) : string :=
  match Py.rsplit_dot name with
  | Some (EmptyString, _) => name
  | Some (_, EmptyString) => name
  | Some (before, _) => before
  | None => name
  end.

(** [PurePath.with_suffix(new)], for a [new] that starts with a dot and is
    longer than the dot, as both callers pass it. *)
Definition with_suffix (name new : string) : string := stem name ++ new.

(** The matching behind [Path.glob(pattern)] for one path component:
    [*] stands for any run of characters, [?] for any one character and
    every other character for itself.  Character classes are not modelled:
    the definition is the library's for the patterns in which no ['['] is
    followed by a [']']. *)
Fixpoint fnmatch (pat name : string) : bool :=
  match pat with
  | "" => match name with "" => true | _ => false end
  | String p pat' =>
    if Ascii.eqb p "*" then
      (fix star (n : string) : bool :=
         fnmatch pat' n
         || match n with
            | "" => false
            | String _ n' => star n'
            end) name
    else
      match name with
      | "" => false
      | String c name' =>
        (Ascii.eqb p "?" || Ascii.eqb p c) && fnmatch pat' name'
      end
  end.

End PathLib.

(* ================================================================== *)
(** ** The operating system: one directory, faults, a trace *)
(* ================================================================== *)

Module OS.

(** The exceptions the two source files raise or let through.  [IOError]
    is an alias of [OSError].  [LoopBudget] is not a Python exception: it
    is how the model of a [while True] loop would end if its budget of
    iterations ran out, and no handler catches it. *)
Inductive exn : Type :=
| OSError
| RuntimeError
| OverflowError
| ValueError
| LoopBudget.

Inductive result (A : Type) : Type :=
| Ok (a : A)
| Raise (e : exn).
Arguments Ok {A} a.
Arguments Raise {A} e.

(** What the program asks of its environment, in the order it asks. *)
Inductive event : Type :=
| EvAcquire
| EvRelease
| EvMkdir
| EvOpenAppend (name : string)
| EvOpenRead (name : string)
| EvWrite (name : string) (data : Py.bytes)
| EvFlush (name : string)
| EvTell (name : string)
| EvClose (name : string)
| EvExists (name : string)
| EvRename (src dst : string)
| EvGlob (pattern : string).

(** The directory of the active file, in listing order. *)
Definition dir := list (string * Py.bytes).

(** [faults] decides the fate of the system calls to come, one entry per
    call: [true] makes the call raise [OSError] and leave the directory as
    it is.  Past the end of the list every call succeeds.  No other
    process touches the directory. *)
Record World : Type := mkWorld {
  files  : dir;
  faults : list bool;
  trace  : list event
}.

(** *** Directory operations *)

Fixpoint lookup (name : string) (d : dir) : option Py.bytes :=
  match d with
  | [] => None
  | (n, c) :: d' => if String.eqb n name then Some c else lookup name d'
  end.

Definition exists_ (name : string) (d : dir) : bool :=
  match lookup name d with Some _ => true | None => false end.

(** Appending through a handle opened on [name]. *)
Fixpoint append (name : string) (data : Py.bytes) (d : dir) : dir :=
  match d with
  | [] => []
  | (n, c) :: d' =>
    if String.eqb n name then (n, c ++ data) :: d'
    else (n, c) :: append name data d'
  end.

Definition remove (name : string) (d : dir) : dir :=
  filter (fun e => negb (String.eqb (fst e) name)) d.

(** POSIX [rename]: an entry already at [dst] is replaced. *)
Definition rename (src dst : string) (d : dir) : dir :=
  map (fun e => if String.eqb (fst e) src then (dst, snd e) else e)
      (if String.eqb src dst then d else remove dst d).

(** [open(name, "ab+")]: creates the file when it is not there. *)
Definition create (name : string) (d : dir) : dir :=
  if exists_ name d then d else d ++ [(name, [])].

(** *** The monad: a state [S] of the program, the world, exceptions

    A raised exception keeps the state and the world as they were when it
    was raised: Python objects are mutated in place. *)
Definition M (S A : Type) : Type := S -> World -> result A * S * World.

Definition ret {S A} (a : A) : M S A := fun s w => (Ok a, s, w).

Definition raise {S A} (e : exn) : M S A := fun s w => (Raise e, s, w).

Definition bind {S A B} (m : M S A) (k : A -> M S B) : M S B :=
  fun s w =>
    match m s w with
    | (Ok a, s', w') => k a s' w'
    | (Raise e, s', w') => (Raise e, s', w')
    end.

(** [try: m  except (OSError, IOError): h] *)
Definition try_except_OSError {S A} (m : M S A) (h : M S A) : M S A :=
  fun s w =>
    match m s w with
    | (Raise OSError, s', w') => h s' w'
    | r => r
    end.

(** [try: m  finally: f], for the release of a lock. *)
Definition finally {S A} (m : M S A) (f : M S unit) : M S A :=
  fun s w =>
    match m s w with
    | (r, s', w') =>
      match f s' w' with
      | (Ok _, s'', w'') => (r, s'', w'')
      | (Raise e, s'', w'') => (Raise e, s'', w'')
      end
    end.

Definition get {S} : M S S := fun s w => (Ok s, s, w).
Definition put {S} (s : S) : M S unit := fun _ w => (Ok tt, s, w).
Definition modify {S} (f : S -> S) : M S unit := fun s w => (Ok tt, f s, w).

(** Running a method of a component [T] of the state. *)
Definition zoom {S T A} (proj : S -> T) (upd : T -> S -> S) (m : M T A)
  : M S A :=
  fun s w =>
    match m (proj s) w with
    | (r, t', w') => (r, upd t' s, w')
    end.

Definition log {S} (e : event) : M S unit :=
  fun s w => (Ok tt, s, mkWorld (files w) (faults w) (e :: trace w)).

Definition get_files {S} : M S dir := fun s w => (Ok (files w), s, w).

Definition set_files {S} (d : dir) : M S unit :=
  fun s w => (Ok tt, s, mkWorld d (faults w) (trace w)).

(** Takes the fate of the next system call off the oracle. *)
Definition fate {S} : M S unit :=
  fun s w =>
    match faults w with
    | true :: fs => (Raise OSError, s, mkWorld (files w) fs (trace w))
    | false :: fs => (Ok tt, s, mkWorld (files w) fs (trace w))
    | [] => (Ok tt, s, w)
    end.

Definition syscall {S} (e : event) : M S unit :=
  bind (log e) (fun _ => fate).

End OS.

Declare Scope io_scope.
Delimit Scope io_scope with io.
Notation "x <- m ;; k" := (OS.bind m (fun x => k))
  (at level 61, m at next level, right associativity) : io_scope.
Notation "m ;;; k" := (OS.bind m (fun _ => k))
  (at level 61, right associativity) : io_scope.

Local Open Scope io_scope.

Module Sys.
Import OS.

(** *** System calls, as the source makes them *)
Section Calls.
Context {S : Type}.

(** [Path.mkdir(parents=True, exist_ok=True)] on the parent directory *)
Definition mkdir_parents : M S unit := syscall EvMkdir.

(** [open(name, mode="ab+")] *)
Definition open_append (name : string) : M S unit :=
  syscall (EvOpenAppend name) ;;;
  d <- get_files ;;
  set_files (create name d).

(** [open(name, mode="rb")]: hands out the content, to be read from the
    start. *)
Definition open_read (name : string) : M S Py.bytes :=
  syscall (EvOpenRead name) ;;;
  d <- get_files ;;
  match lookup name d with
  | Some content => ret content
  | None => raise OSError
  end.

(** [file_handle.write(data)] in append mode.  A handle is modelled by
    the name it was opened on: with no other process around, the name
    denotes the handle's file for as long as the handle is open. *)
Definition fh_write (name : string) (data : Py.bytes) : M S unit :=
  syscall (EvWrite name data) ;;;
  d <- get_files ;;
  if exists_ name d then set_files (append name data d) else raise OSError.

Definition fh_flush (name : string) : M S unit := syscall (EvFlush name).

(** [file_handle.tell()] after an append: the size of the file. *)
Definition fh_tell (name : string) : M S Z :=
  syscall (EvTell name) ;;;
  d <- get_files ;;
  match lookup name d with
  | Some content => ret (Py.len content)
  | None => raise OSError
  end.

Definition fh_close (name : string) : M S unit := syscall (EvClose name).

Definition path_exists (name : string) : M S bool :=
  syscall (EvExists name) ;;;
  d <- get_files ;;
  ret (exists_ name d).

Definition path_rename (src dst : string) : M S unit :=
  syscall (EvRename src dst) ;;;
  d <- get_files ;;
  if exists_ src d then set_files (rename src dst d) else raise OSError.

(** [parent.glob(pattern)] when the scan of the directory goes through:
    the names of the directory that match, in listing order.  The
    [OSError] that pathlib lets through when the scan fails for another
    reason than a missing permission, and the [ValueError] it raises for
    a pattern with [**] inside a component, are not modelled. *)
Definition path_glob (pattern : string) : M S (list string) :=
  log (EvGlob pattern) ;;;
  d <- get_files ;;
  ret (filter (PathLib.fnmatch pattern) (map fst d)).

(** [with lock: body] *)
Definition with_lock {A} (body : M S A) : M S A :=
  log EvAcquire ;;; finally body (log EvRelease).
End Calls.

End Sys.

(* ================================================================== *)
(** ** utilities.py *)
(* ================================================================== *)

Module Utilities.
Import OS Sys.
Local Open Scope string_scope.

(** [p.stem.split('.')[-1]] *)
Definition seq_token (p : string) : string :=
  Py.last_segment (PathLib.stem p).

(** [sorted(existing_backups, key=lambda p: int(p.stem.split('.')[-1]))]:
    the keys are computed first, one per element, and the first [int] that
    fails raises. *)
Fixpoint with_keys (l : list string) : option (list (string * Z)) :=
  match l with
  | [] => Some []
  | p :: l' =>
    match Py.int (seq_token p) with
    | None => None
    | Some k => option_map (cons (p, k)) (with_keys l')
    end
  end.

Definition get_existing_backups {S} (file_path : string) (sort : bool)
  : M S (list string) :=
  let globbing_pattern :=
    PathLib.with_suffix file_path (".*" ++ PathLib.suffix file_path) in
  matches <- path_glob globbing_pattern ;;
  let existing_backups :=
    filter (fun backup => Py.isdigit (seq_token backup)) matches in
  if negb sort then ret existing_backups
  else
    match with_keys existing_backups with
    | None => raise ValueError
    | Some keyed => ret (map fst (Py.sorted_by snd keyed))
    end.

Definition get_last_rollover_seq {S} (file_path : string) : M S Z :=
  existing_backups <- get_existing_backups file_path true ;;
  match rev existing_backups with
  | [] => ret (-1)
  | last_backup :: _ =>
    match Py.int (seq_token last_backup) with
    | Some n => ret n
    | None => raise ValueError
    end
  end.

End Utilities.

(* ================================================================== *)
(** ** simple_logger.py: [LogState] *)
(* ================================================================== *)

Module LogState.
Import OS Sys.

(** The fields of a [LogState].  [mode] is always the default ["ab+"]
    ([BinaryLogger] passes none) and lives in [open_append]; [file_handle]
    is the handle on [file_path], open exactly when the last [open]
    succeeded and [close] has not been called since; [lock] shows as the
    [EvAcquire] and [EvRelease] events of the trace. *)
Record t : Type := mk {
  file_path : string;
  max_file_size : Z;
  is_closed : bool;
  next_rollover_seq : Z
}.

Definition set_is_closed (b : bool) (self : t) : t :=
  mk (file_path self) (max_file_size self) b (next_rollover_seq self).

Definition set_next_rollover_seq (n : Z) (self : t) : t :=
  mk (file_path self) (max_file_size self) (is_closed self) n.

(** [LogState.__init__]: an exception leaves no object behind. *)
Definition init {S} (file_path : string) (max_file_size : Z) : M S t :=
  last_seq <- Utilities.get_last_rollover_seq file_path ;;
  let next_rollover_seq := Z.max (last_seq + 1) 0 in
  mkdir_parents ;;;
  open_append file_path ;;;
  ret (mk file_path max_file_size false next_rollover_seq).

Definition close : M t unit :=
  with_lock (
    self <- get ;;
    if negb (is_closed self) then
      fh_close (file_path self) ;;;
      modify (set_is_closed true)
    else ret tt).

(** [self.file_path.with_suffix(f".{self.next_rollover_seq}{suffix}")] *)
Definition backup_path (file_path : string) (seq : Z) : string :=
  PathLib.with_suffix file_path
    ("." ++ Py.format_int seq ++ PathLib.suffix file_path)%string.

Definition rollover : M t unit :=
  with_lock (
    close ;;;
    try_except_OSError (
      self <- get ;;
      there <- path_exists (file_path self) ;;
      (if there then
         path_rename (file_path self)
                     (backup_path (file_path self) (next_rollover_seq self)) ;;;
         modify (fun self =>
                   set_next_rollover_seq (next_rollover_seq self + 1) self)
       else ret tt) ;;;
      open_append (file_path self) ;;;
      modify (set_is_closed false))
    ( modify (set_is_closed true) ;;;
      raise OSError)).

End LogState.

(* ================================================================== *)
(** ** simple_logger.py: [BinaryLogger] *)
(* ================================================================== *)

Module BinaryLogger.
Import OS Sys.

Record t : Type := mk {
  file_path : string;
  file_state : LogState.t;
  length_bytesize : nat
}.

Definition set_file_state (st : LogState.t) (self : t) : t :=
  mk (file_path self) st (length_bytesize self).

Definition init {S} (file_path : string) (max_file_size : Z) : M S t :=
  if max_file_size <=? 0 then raise ValueError
  else
    file_state <- LogState.init file_path max_file_size ;;
    ret (mk file_path file_state 4).

(** [close], which [__exit__] and [__del__] call too. *)
Definition close : M t unit :=
  zoom file_state set_file_state LogState.close.

Definition serialize (self : t) (payload : Py.str) : result Py.bytes :=
  let binary_payload := Py.encode payload in
  match Py.to_bytes (Py.len binary_payload) (length_bytesize self) with
  | None => Raise OverflowError
  | Some prefix => Ok (prefix ++ binary_payload)
  end.

(** [file_handle.read(n)] on a handle whose unread content is [handle]:
    what was read and what is left. *)
Fixpoint fh_read (n : Z) (handle : Py.bytes) : Py.bytes * Py.bytes :=
  match handle with
  | [] => ([], [])
  | b :: rest =>
    if n <=? 0 then ([], handle)
    else let (got, left) := fh_read (n - 1) rest in (b :: got, left)
  end.

(** The generator frame of [__deserialize] and [read]: what has been
    yielded so far. *)
Definition yield_ (payload : Py.str) : M (list Py.str) unit :=
  modify (fun yielded => yielded ++ [payload]).

(** The [while True] loop of [__deserialize], with a budget of
    iterations. *)
Fixpoint deserialize_loop (budget : nat) (self : t) (handle : Py.bytes)
  : M (list Py.str) unit :=
  match budget with
  | O => raise LoopBudget
  | Datatypes.S budget' =>
    let (length_bytes, handle1) :=
      fh_read (Z.of_nat (length_bytesize self)) handle in
    if Py.len length_bytes =? 0 then ret tt
    else if Py.len length_bytes <? Z.of_nat (length_bytesize self) then
      raise OSError
    else
      let length := Py.from_bytes length_bytes in
      let (payload_buffer, handle2) := fh_read length handle1 in
      if negb (Py.len payload_buffer =? length) then raise OSError
      else
        yield_ (Py.decode payload_buffer) ;;;
        deserialize_loop budget' self handle2
  end.

(** Every iteration that goes on has read at least one byte, so one more
    iteration than there are bytes is budget enough
    ([deserialize_within_budget]). *)
Definition deserialize (self : t) (handle : Py.bytes)
  : M (list Py.str) unit :=
  deserialize_loop (Datatypes.S (List.length handle)) self handle.

Definition lift_result {S A} (r : result A) : M S A :=
  match r with
  | Ok a => ret a
  | Raise e => raise e
  end.

Definition write (payload : Py.str) : M t unit :=
  self <- get ;;
  bytes_payload <- lift_result (serialize self payload) ;;
  zoom file_state set_file_state (
    with_lock (
      st <- get ;;
      if LogState.is_closed st then raise RuntimeError
      else
        try_except_OSError (
          fh_write (LogState.file_path st) bytes_payload ;;;
          fh_flush (LogState.file_path st) ;;;
          current_size <- fh_tell (LogState.file_path st) ;;
          if current_size >=? LogState.max_file_size st
          then LogState.rollover
          else ret tt)
        ( modify (LogState.set_is_closed true) ;;;
          raise OSError))).

(** The [for] loop of [read]. *)
Fixpoint read_loop (self : t) (paths : list string) : M (list Py.str) unit :=
  match paths with
  | [] => ret tt
  | backup_path :: rest =>
    try_except_OSError (
      file_handle <- open_read backup_path ;;
      deserialize self file_handle)
    (ret tt) ;;;
    read_loop self rest
  end.

(** [read] with its default [mode="rb"], iterated to its end: the state
    is the sequence of payloads yielded; the result is how the generator
    ended. *)
Definition read (self : t) (file_path : option string)
  : M (list Py.str) unit :=
  let path := match file_path with
              | None => BinaryLogger.file_path self
              | Some p => p
              end in
  existing_backups <- Utilities.get_existing_backups path true ;;
  read_loop self (existing_backups ++ [path]).

End BinaryLogger.

(* ================================================================== *)
(** ** Threads *)
(* ================================================================== *)

(** A computation cut into the steps a thread takes one at a time: each
    system call and each access to a field of the shared instance is one
    step, and taking or giving back the lock is a step of its own. *)
Module Task.
Import OS.

Inductive t (S A : Type) : Type :=
| Done (r : result A)
| Atom (X : Type) (act : M S X) (k : result X -> t S A)
| Acquire (k : t S A)
| Release (k : t S A).
Arguments Done {S A} r.
Arguments Atom {S A X} act k.
Arguments Acquire {S A} k.
Arguments Release {S A} k.

Definition ret {S A} (a : A) : t S A := Done (Ok a).

Definition raise {S A} (e : exn) : t S A := Done (Raise e).

Definition atom {S X} (act : M S X) : t S X := Atom act (fun r => Done r).

Fixpoint bind {S A B} (m : t S A) (f : A -> t S B) : t S B :=
  match m with
  | Done (Ok a) => f a
  | Done (Raise e) => Done (Raise e)
  | Atom act k => Atom act (fun r => bind (k r) f)
  | Acquire k => Acquire (bind k f)
  | Release k => Release (bind k f)
  end.

Fixpoint try_except_OSError {S A} (m h : t S A) : t S A :=
  match m with
  | Done (Raise OSError) => h
  | Done r => Done r
  | Atom act k => Atom act (fun r => try_except_OSError (k r) h)
  | Acquire k => Acquire (try_except_OSError k h)
  | Release k => Release (try_except_OSError k h)
  end.

Fixpoint finally {S A} (m : t S A) (f : t S unit) : t S A :=
  match m with
  | Done r => bind f (fun _ => Done r)
  | Atom act k => Atom act (fun r => finally (k r) f)
  | Acquire k => Acquire (finally k f)
  | Release k => Release (finally k f)
  end.

Fixpoint zoom {S T A} (proj : S -> T) (upd : T -> S -> S) (m : t T A)
  : t S A :=
  match m with
  | Done r => Done r
  | Atom act k => Atom (OS.zoom proj upd act) (fun r => zoom proj upd (k r))
  | Acquire k => Acquire (zoom proj upd k)
  | Release k => Release (zoom proj upd k)
  end.

(** [with lock: body] on a reentrant lock. *)
Definition with_lock {S A} (body : t S A) : t S A :=
  Acquire (finally body (Release (Done (Ok tt)))).

Definition lift_result {S A} (r : result A) : t S A := Done r.

(** All the steps in one go, by a thread that is alone. *)
Fixpoint run {S A} (m : t S A) : M S A :=
  match m with
  | Done r => fun s w => (r, s, w)
  | Atom act k =>
    fun s w => match act s w with (r, s', w') => run (k r) s' w' end
  | Acquire k => fun s w => run k s (snd (log EvAcquire s w))
  | Release k => fun s w => run k s (snd (log EvRelease s w))
  end.

End Task.

Declare Scope task_scope.
Delimit Scope task_scope with task.
Notation "x <- m ;; k" := (Task.bind m (fun x => k))
  (at level 61, m at next level, right associativity) : task_scope.
Notation "m ;;; k" := (Task.bind m (fun _ => k))
  (at level 61, right associativity) : task_scope.

(** [simple_logger.py] once more, step by step, and the threads of
    [test_concurrent_writes]: each runs
    [for payload in payloads: logger.write(payload)] on the one shared
    instance. *)
Module Threaded.
Import OS Sys.
Local Open Scope task_scope.

Definition close : Task.t LogState.t unit :=
  Task.with_lock (
    self <- Task.atom get ;;
    if negb (LogState.is_closed self) then
      Task.atom (fh_close (LogState.file_path self)) ;;;
      Task.atom (modify (LogState.set_is_closed true))
    else Task.ret tt).

Definition rollover : Task.t LogState.t unit :=
  Task.with_lock (
    close ;;;
    Task.try_except_OSError (
      self <- Task.atom get ;;
      there <- Task.atom (path_exists (LogState.file_path self)) ;;
      (if there then
         Task.atom (path_rename (LogState.file_path self)
                      (LogState.backup_path (LogState.file_path self)
                                            (LogState.next_rollover_seq self))) ;;;
         Task.atom (modify (fun self =>
                      LogState.set_next_rollover_seq
                        (LogState.next_rollover_seq self + 1) self))
       else Task.ret tt) ;;;
      Task.atom (open_append (LogState.file_path self)) ;;;
      Task.atom (modify (LogState.set_is_closed false)))
    ( Task.atom (modify (LogState.set_is_closed true)) ;;;
      Task.raise OSError)).

(** The part of [write] under the lock. *)
Definition write_locked (bytes_payload : Py.bytes)
  : Task.t BinaryLogger.t unit :=
  Task.zoom BinaryLogger.file_state BinaryLogger.set_file_state (
    Task.with_lock (
      st <- Task.atom get ;;
      if LogState.is_closed st then Task.raise RuntimeError
      else
        Task.try_except_OSError (
          Task.atom (fh_write (LogState.file_path st) bytes_payload) ;;;
          Task.atom (fh_flush (LogState.file_path st)) ;;;
          current_size <- Task.atom (fh_tell (LogState.file_path st)) ;;
          if current_size >=? LogState.max_file_size st
          then rollover
          else Task.ret tt)
        ( Task.atom (modify (LogState.set_is_closed true)) ;;;
          Task.raise OSError))).

(** [write] once [self] has been read. *)
Definition write_serialize (self : BinaryLogger.t) (payload : Py.str)
  : Task.t BinaryLogger.t unit :=
  bytes_payload <- Task.lift_result (BinaryLogger.serialize self payload) ;;
  write_locked bytes_payload.

Definition write (payload : Py.str) : Task.t BinaryLogger.t unit :=
  self <- Task.atom get ;;
  write_serialize self payload.

(** A thread: the call it is in, if any, and the payloads it has still to
    write. *)
Record thread : Type := mkThread {
  current : option (Task.t BinaryLogger.t unit);
  pending : list Py.str
}.

(** The threads, the holder of the lock with the number of times it took
    it, the shared instance and the world. *)
Record config : Type := mkConfig {
  threads : list thread;
  owner : option (nat * nat);
  shared : BinaryLogger.t;
  world : World
}.

Fixpoint set_nth {A} (i : nat) (x : A) (l : list A) : list A :=
  match l, i with
  | [], _ => []
  | _ :: l', O => x :: l'
  | y :: l', Datatypes.S i' => y :: set_nth i' x l'
  end.

Definition with_event (e : event) (w : World) : World :=
  mkWorld (files w) (faults w) (e :: trace w).

(** Thread [i] takes its next step, if it has one and is not kept
    waiting for the lock. *)
Definition step (i : nat) (c : config) : config :=
  match nth_error (threads c) i with
  | None => c
  | Some th =>
    let continue_with t :=
      set_nth i (mkThread (Some t) (pending th)) (threads c) in
    match current th with
    | None =>
      match pending th with
      | [] => c
      | payload :: rest =>
        mkConfig (set_nth i (mkThread (Some (write payload)) rest) (threads c))
                 (owner c) (shared c) (world c)
      end
    | Some (Task.Done (Ok _)) =>
      mkConfig (set_nth i (mkThread None (pending th)) (threads c))
               (owner c) (shared c) (world c)
    | Some (Task.Done (Raise _)) => c
    | Some (Task.Atom act k) =>
      match act (shared c) (world c) with
      | (r, s', w') => mkConfig (continue_with (k r)) (owner c) s' w'
      end
    | Some (Task.Acquire k) =>
      match owner c with
      | None =>
        mkConfig (continue_with k) (Some (i, 1%nat)) (shared c)
                 (with_event EvAcquire (world c))
      | Some (j, depth) =>
        if Nat.eqb j i then
          mkConfig (continue_with k) (Some (i, Datatypes.S depth)) (shared c)
                   (with_event EvAcquire (world c))
        else c
      end
    | Some (Task.Release k) =>
      match owner c with
      | Some (j, Datatypes.S depth) =>
        if Nat.eqb j i then
          mkConfig (continue_with k)
                   (match depth with
                    | O => None
                    | _ => Some (i, depth)
                    end)
                   (shared c) (with_event EvRelease (world c))
        else c
      | _ => c
      end
    end
  end.

(** The threads run as the scheduler picks them. *)
Definition exec (schedule : list nat) (c : config) : config :=
  fold_left (fun c i => step i c) schedule c.

Definition start (logger : BinaryLogger.t) (w : World)
           (payloads : list (list Py.str)) : config :=
  mkConfig (map (mkThread None) payloads) None logger w.

(** Every call of every thread has returned. *)
Definition finished (c : config) : bool :=
  forallb (fun th => match current th, pending th with
                     | None, [] => true
                     | _, _ => false
                     end) (threads c).

End Threaded.

(* ================================================================== *)
(** ** Vocabulary of the statements *)
(* ================================================================== *)

Module Quiet.
Import OS.

(** The events through which the directory can change. *)
Definition mutates (e : event) : bool :=
  match e with
  | EvMkdir | EvOpenAppend _ | EvWrite _ _ | EvRename _ _ => true
  | _ => false
  end.

(** Every run of [m] takes the world along the relation [R]. *)
Definition Steps {S A} (R : World -> World -> Prop) (m : M S A) : Prop :=
  forall s w r s' w', m s w = (r, s', w') -> R w w'.

(** The relations that can be followed through a program: preorders that
    do not look at the oracle nor at the events that leave the directory
    alone. *)
Class StepRel (R : World -> World -> Prop) : Prop := {
  step_refl : forall w, R w w;
  step_trans : forall w1 w2 w3, R w1 w2 -> R w2 w3 -> R w1 w3;
  step_event : forall w fs e,
      mutates e = false -> R w (mkWorld (files w) fs (e :: trace w));
  step_oracle : forall w fs, R w (mkWorld (files w) fs (trace w))
}.

(** From [w] to [w'] the files stayed as they were and the trace grew by
    events that do not change the directory. *)
Definition quiet (w w' : World) : Prop :=
  files w' = files w
  /\ exists new, trace w' = new ++ trace w
                 /\ Forall (fun e => mutates e = false) new.

End Quiet.

Module Session.
Import OS.

(** The public operations of a [BinaryLogger] instance. *)
Inductive call : Type :=
| CallWrite (payload : Py.str)
| CallRead (file_path : option string)
| CallClose
| CallEnter
| CallExit
| CallDel.

(** One call by a client.  [CallRead] iterates the generator to its end;
    [__exit__] and [__del__] are [close]. *)
Definition perform (c : call) : M BinaryLogger.t unit :=
  match c with
  | CallWrite payload => BinaryLogger.write payload
  | CallRead file_path =>
    fun self w =>
      let '(r, _, w') := BinaryLogger.read self file_path [] w in
      (r, self, w')
  | CallClose | CallExit | CallDel => BinaryLogger.close
  | CallEnter => ret tt
  end.

(** A client that goes on whatever a call raises. *)
Fixpoint perform_all (cs : list call) (self : BinaryLogger.t) (w : World)
  : BinaryLogger.t * World :=
  match cs with
  | [] => (self, w)
  | c :: cs' =>
    let '(_, self', w') := perform c self w in
    perform_all cs' self' w'
  end.

(** [for payload in payloads: logger.write(payload)] *)
Fixpoint write_all (payloads : list Py.str) : M BinaryLogger.t unit :=
  match payloads with
  | [] => ret tt
  | payload :: rest => BinaryLogger.write payload ;;; write_all rest
  end.

(** No dot in [s]. *)
Definition no_dot (s : string) : bool :=
  Py.all_chars (fun c => negb (Ascii.eqb c ".")) s.

(** No character of [s] means anything to [glob]. *)
Definition glob_plain (s : string) : bool :=
  Py.all_chars (fun c => negb (Ascii.eqb c "*" || Ascii.eqb c "?"
                               || Ascii.eqb c "[")) s.

(** In ascending order of [key]. *)
Definition key_le {A} (key : A -> Z) (a b : A) : Prop := key a <= key b.

Definition is_ascii_digit (c : ascii) : bool :=
  ((48 <=? N_of_ascii c) && (N_of_ascii c <=? 57))%N.

(** The pattern [get_existing_backups] hands to [glob]. *)
Definition backup_pattern (name : string) : string :=
  PathLib.with_suffix name (".*" ++ PathLib.suffix name)%string.

(** What [get_existing_backups] keeps of a directory, in listing order,
    and the key it sorts by. *)
Definition listing (file_path : string) (d : dir) : list string :=
  filter (fun backup => Py.isdigit (Utilities.seq_token backup))
         (filter (PathLib.fnmatch (backup_pattern file_path)) (map fst d)).

Definition backup_key (p : string) : Z :=
  match Py.int (Utilities.seq_token p) with
  | Some k => k
  | None => 0
  end.

(** Backups 10, 2 and 1 of [test.bin], listed in that order. *)
Definition unordered_world : World :=
  mkWorld [("test.10.bin"%string, []); ("test.2.bin"%string, []);
           ("test.bin"%string, []); ("test.1.bin"%string, [])] [] [].

(** The names of the first [k] backups of [name], oldest first. *)
Definition backup_names (name : string) (k : nat) : list string :=
  map (fun i => LogState.backup_path name (Z.of_nat i)) (seq 0 k).

(** The frame of a payload at the width of the constructor, and a file
    made of frames. *)
Definition frame (payload : Py.str) : Py.bytes :=
  Py.be_digits 4 (Py.len (Py.encode payload)) ++ Py.encode payload.

Definition frames (payloads : list Py.str) : Py.bytes :=
  flat_map frame payloads.

(** The payload fits the prefix. *)
Definition fits (payload : Py.str) : Prop :=
  Py.len (Py.encode payload) < 2 ^ 32.

(** The payloads that UTF-8 and the prefix carry unchanged. *)
Definition writable (payload : Py.str) : Prop :=
  Forall Py.is_scalar payload /\ fits payload.

(** What has been written through an instance on [name], as the
    directory holds it: one group of payloads per backup, oldest first,
    and the group of the active file. *)
Definition backup_entries (name : string) (chunks : list (list Py.str))
  : list (string * list Py.str) :=
  combine (backup_names name (List.length chunks)) chunks.

Record log_inv (name : string) (max : Z) (chunks : list (list Py.str))
       (cur : list Py.str) (logger : BinaryLogger.t) (w : World) : Prop := {
  inv_logger :
    logger = BinaryLogger.mk name
               (LogState.mk name max false (Z.of_nat (List.length chunks))) 4;
  inv_faults : faults w = [];
  inv_files :
    exists pre,
      files w = pre ++ [(name, frames cur)]
      /\ lookup name pre = None
      /\ filter (PathLib.fnmatch (backup_pattern name)) (map fst pre)
         = backup_names name (List.length chunks)
      /\ Forall (fun e => lookup (fst e) pre = Some (frames (snd e)))
                (backup_entries name chunks);
  inv_chunks : Forall (Forall writable) chunks;
  inv_cur : Forall writable cur
}.

(** A log opened on [name] in the world [w0], the payloads written in
    order, then [read] iterated to its end: how the generator ended and
    what it yielded. *)
Definition round_trip (name : string) (max : Z) (payloads : list Py.str)
           (w0 : World) : result unit * list Py.str :=
  match BinaryLogger.init name max tt w0 with
  | (Ok logger, _, w1) =>
    match write_all payloads logger w1 with
    | (Ok _, logger', w2) => fst (BinaryLogger.read logger' None [] w2)
    | (Raise e, _, _) => (Raise e, [])
    end
  | (Raise e, _, _) => (Raise e, [])
  end.

(** A file that is a concatenation of frames and nothing else. *)
Definition is_log_file (content : Py.bytes) : Prop :=
  exists payloads, Forall fits payloads /\ content = frames payloads.

(** The files of the log on [name] are sequences of frames: the active
    file is one, and every other file is one or is as it was in the
    directory [d0] in which the log was opened. *)
Definition own_frames (name : string) (d0 d : dir) : Prop :=
  forall f c,
    lookup f d = Some c ->
    is_log_file c \/ (f <> name /\ lookup f d0 = Some c).

(** Every run of [m] from a state of the log on [name] keeps the name
    and keeps [own_frames], however it ends. *)
Definition KeepsOwn {A} (name : string) (d0 : dir) (m : M LogState.t A)
  : Prop :=
  forall s w r s' w',
    LogState.file_path s = name ->
    own_frames name d0 (files w) ->
    m s w = (r, s', w') ->
    LogState.file_path s' = name /\ own_frames name d0 (files w').

(** Five payloads that take [BinaryLogger("test.bin", 20)] through two
    rollovers, in a directory that holds an unrelated file. *)
Definition five_payloads : list Py.str :=
  map Py.of_string ["hello"; "world"; ""; "abcdefghijklmnopqrstuvwxyz"; "x"]%string.

Definition busy_world : World :=
  mkWorld [("other.txt"%string, [Byte.x2a])] [] [].




(** A payload of 2^32 letters [a]. *)
Definition huge_payload : Py.str := repeat 97%N (Z.to_nat 4294967296).

Definition empty_world : World := mkWorld [] [] [].

(** The world after the lock was taken and given back with nothing done
    in between. *)
Definition locked_idle (w : World) : World :=
  mkWorld (files w) (faults w) (EvRelease :: EvAcquire :: trace w).

(** [BinaryLogger("test.bin", 1000)] in an empty directory, and the same
    after [close()]. *)
Definition sample_open : result BinaryLogger.t * unit * World :=
  BinaryLogger.init "test.bin" 1000 tt empty_world.

Definition sample_logger : BinaryLogger.t :=
  BinaryLogger.mk "test.bin" (LogState.mk "test.bin" 1000 false 0) 4.

Definition sample_world : World :=
  mkWorld [("test.bin"%string, [])] []
          [EvOpenAppend "test.bin"; EvMkdir; EvGlob "test.*.bin"].

(** The same directory when the next system call is to fail. *)
Definition faulty_world : World :=
  mkWorld [("test.bin"%string, [])] [true] [].

Definition sample_closed : BinaryLogger.t :=
  BinaryLogger.mk "test.bin" (LogState.mk "test.bin" 1000 true 0) 4.

(** A directory in which two backups are damaged: the first ends in the
    middle of a length prefix, the second announces five bytes of payload
    and holds two. *)
Definition frame_ok : Py.bytes :=
  [Byte.x00; Byte.x00; Byte.x00; Byte.x02; Byte.x6f; Byte.x6b].

Definition frame_next : Py.bytes :=
  [Byte.x00; Byte.x00; Byte.x00; Byte.x04;
   Byte.x6e; Byte.x65; Byte.x78; Byte.x74].

Definition short_prefix : Py.bytes := frame_ok ++ [Byte.x00; Byte.x00].

Definition short_payload : Py.bytes :=
  frame_ok ++ [Byte.x00; Byte.x00; Byte.x00; Byte.x05; Byte.x61; Byte.x62].

Definition damaged_world : World :=
  mkWorld [("test.0.bin"%string, short_prefix);
           ("test.1.bin"%string, short_payload);
           ("test.bin"%string, frame_next)] [] [].

(** The name [test.X.bin] with the one character [U+00B2], superscript
    two, for [X]. *)
Definition superscript_two_name : string :=
  ("test." ++ String (ascii_of_N 0xB2) ".bin")%string.

Definition superscript_world : World :=
  mkWorld [("test.0.bin"%string, []);
           (superscript_two_name, []);
           ("test.a.bin"%string, []);
           ("test.bin"%string, [])] [] [].

(** A log on a name without suffix, [BinaryLogger("log", 1)]: one write,
    [close], a second instance on the same name, one write. *)
Definition first_life : result unit * BinaryLogger.t * World :=
  match BinaryLogger.init "log" 1 tt empty_world with
  | (Ok logger, _, w) =>
    (BinaryLogger.write (Py.of_string "a") ;;; BinaryLogger.close) logger w
  | (Raise e, _, w) => (Raise e, sample_logger, w)
  end.

Definition second_life_open : result BinaryLogger.t * unit * World :=
  BinaryLogger.init "log" 1 tt (snd first_life).

Definition second_life : result unit * BinaryLogger.t * World :=
  match second_life_open with
  | (Ok logger, _, w) => BinaryLogger.write (Py.of_string "b") logger w
  | (Raise e, _, w) => (Raise e, sample_logger, w)
  end.

Definition sample_closed_world : World :=
  mkWorld [("test.bin"%string, [])] []
          [EvRelease; EvClose "test.bin"; EvAcquire;
           EvOpenAppend "test.bin"; EvMkdir; EvGlob "test.*.bin"].

(** A payload as it comes back from the log: [encode] has put ["?"] for
    each surrogate. *)
Definition lossy (payload : Py.str) : Py.str :=
  map (fun c => if Py.is_surrogate c then 63%N else c) payload.

(** While the log is open its active file is there and is shorter than
    the maximum. *)
Definition has_room (self : BinaryLogger.t) (w : World) : Prop :=
  let st := BinaryLogger.file_state self in
  LogState.is_closed st = false ->
  exists content,
    lookup (LogState.file_path st) (files w) = Some content
    /\ Py.len content < LogState.max_file_size st.

(** A directory left by an earlier run: backup 3 and an active file. *)
Definition earlier_world : World :=
  mkWorld [("test.3.bin"%string, frame_ok); ("test.bin"%string, frame_next)]
          [] [].

(** Two instances on one name, one after the other: the first writes
    and is closed, the second is opened with a maximum of its own,
    writes, and [read] is iterated to its end. *)
Definition two_lives (name : string) (max1 max2 : Z)
           (first second : list Py.str) (w0 : World)
  : result unit * list Py.str :=
  match BinaryLogger.init name max1 tt w0 with
  | (Ok logger, _, w1) =>
    match (write_all first ;;; BinaryLogger.close) logger w1 with
    | (Ok _, _, w2) =>
      match BinaryLogger.init name max2 tt w2 with
      | (Ok reader, _, w3) =>
        match write_all second reader w3 with
        | (Ok _, reader', w4) => fst (BinaryLogger.read reader' None [] w4)
        | (Raise e, _, _) => (Raise e, [])
        end
      | (Raise e, _, _) => (Raise e, [])
      end
    | (Raise e, _, _) => (Raise e, [])
    end
  | (Raise e, _, _) => (Raise e, [])
  end.

(** The backups a new log has after some writes, as
    [get_existing_backups(path, sort=True)] lists them, and the sequence
    number the instance has reached. *)
Definition backups_after (name : string) (max : Z) (payloads : list Py.str)
           (w0 : World) : option (list string * Z) :=
  match BinaryLogger.init name max tt w0 with
  | (Ok logger, _, w1) =>
    match write_all payloads logger w1 with
    | (Ok _, logger', w2) =>
      match fst (fst (Utilities.get_existing_backups name true tt w2)) with
      | Ok l =>
        Some (l, LogState.next_rollover_seq (BinaryLogger.file_state logger'))
      | Raise _ => None
      end
    | (Raise _, _, _) => None
    end
  | (Raise _, _, _) => None
  end.

(** [demo]: the events it logs, and the run itself.  The result is what
    [print] is handed after the heading, the pairs of [enumerate] over
    the generator; an exception ends the run where it is raised. *)
Definition demo_events : list Py.str :=
  List.concat
    (repeat (map Py.of_string ["User login: user123";
                               "Action performed: file_upload";
                               "Data processed: 1024 bytes";
                               "User logout: user123"]%string) 10).

Definition demo (w0 : World) : result (list (nat * Py.str)) * World :=
  match BinaryLogger.init "events.bin" 1000 tt w0 with
  | (Ok logger, _, w1) =>
    match write_all demo_events logger w1 with
    | (Ok _, logger', w2) =>
      match BinaryLogger.read logger' (Some "events.bin"%string) [] w2 with
      | (Ok _, yielded, w3) =>
        match BinaryLogger.close logger' w3 with
        | (Ok _, _, w4) =>
          (Ok (combine (seq 0 (List.length yielded)) yielded), w4)
        | (Raise e, _, w4) => (Raise e, w4)
        end
      | (Raise e, _, w3) => (Raise e, w3)
      end
    | (Raise e, _, w2) => (Raise e, w2)
    end
  | (Raise e, _, w1) => (Raise e, w1)
  end.

(** Three payloads: one with a two-byte character, one with a lone
    surrogate, one empty. *)
Definition mixed_payloads : list Py.str :=
  [[104; 233]%N; [0xD800; 120]%N; []].

End Session.

Module Concurrency.
Import OS Threaded Session.

(** A step that leaves the width of the prefix as it is. *)
Definition stable {X} (act : M BinaryLogger.t X) : Prop :=
  forall s w,
    BinaryLogger.length_bytesize (snd (fst (act s w)))
    = BinaryLogger.length_bytesize s.

(** The rest of a call that holds the lock [depth] times: it gives the
    lock back before it ends, and once the lock is free the call has
    ended. *)
Fixpoint locked {A} (depth : nat) (t : Task.t BinaryLogger.t A) : Prop :=
  match t with
  | Task.Done _ => False
  | Task.Atom act k => stable act /\ forall r, locked depth (k r)
  | Task.Acquire k => locked (S depth) k
  | Task.Release k =>
    match depth with
    | O => False
    | S O => exists r, k = Task.Done r
    | S d => locked d k
    end
  end.

(** [out] grew one payload at a time, each time by the next payload of
    one of the threads: [interleaved written out] when [written] holds,
    thread by thread, what went into [out]. *)
Inductive interleaved {A} : list (list A) -> list A -> Prop :=
| interleaved_nil (n : nat) : interleaved (repeat [] n) []
| interleaved_snoc (written : list (list A)) (out : list A)
                   (i : nat) (ps : list A) (p : A) :
    interleaved written out ->
    nth_error written i = Some ps ->
    interleaved (set_nth i (ps ++ [p]) written) (out ++ [p]).

(** A thread that has called [write p] and has not taken the lock yet:
    it is about to read [self], or it has serialized the payload and is
    waiting for the lock. *)
Definition entering (p : Py.str) (t : Task.t BinaryLogger.t unit) : Prop :=
  t = write p
  \/ exists k,
       t = Task.Acquire k /\ locked 1 k
       /\ forall s w, BinaryLogger.length_bytesize s = 4%nat ->
                      Task.run t s w = BinaryLogger.write p s w.

(** Thread [i] does not hold the lock. *)
Definition free_of (own : option (nat * nat)) (i : nat) : Prop :=
  forall d, own <> Some (i, d).

(** Where thread [i] is, when [ps] are the payloads it was given, [ws]
    those whose [write] has returned and [out] what all the threads have
    written so far: between two calls, in a call before the lock, or
    under the lock, where the rest of its call, run at once, leaves the
    log with one payload more. *)
Inductive thread_inv (name : string) (max : Z) (own : option (nat * nat))
          (s : BinaryLogger.t) (w : World) (out : list Py.str) (i : nat)
          (ps ws : list Py.str) (th : thread) : Prop :=
| thread_idle :
    current th = None -> free_of own i -> ps = ws ++ pending th ->
    thread_inv name max own s w out i ps ws th
| thread_returned :
    current th = Some (Task.Done (Ok tt)) -> free_of own i ->
    ps = ws ++ pending th ->
    thread_inv name max own s w out i ps ws th
| thread_entering (p : Py.str) (t : Task.t BinaryLogger.t unit) :
    current th = Some t -> entering p t -> free_of own i ->
    ps = ws ++ p :: pending th ->
    thread_inv name max own s w out i ps ws th
| thread_inside (p : Py.str) (t : Task.t BinaryLogger.t unit) (d : nat)
                (s' : BinaryLogger.t) (w' : World)
                (chunks : list (list Py.str)) (cur : list Py.str) :
    current th = Some t -> own = Some (i, d) -> locked d t ->
    Task.run t s w = (Ok tt, s', w') ->
    log_inv name max chunks cur s' w' ->
    List.concat chunks ++ cur = out ++ [p] ->
    ps = ws ++ p :: pending th ->
    thread_inv name max own s w out i ps ws th.

(** The threads at work on the payloads [pss]: [written] is what each
    has written, [out] what the log holds. *)
Record threads_inv (name : string) (max : Z) (pss written : list (list Py.str))
       (out : list Py.str) (c : config) : Prop := {
  ti_width : BinaryLogger.length_bytesize (shared c) = 4%nat;
  ti_threads : List.length (threads c) = List.length pss;
  ti_written : List.length written = List.length pss;
  ti_thread :
    forall i th,
      nth_error (threads c) i = Some th ->
      exists ps ws,
        nth_error pss i = Some ps /\ nth_error written i = Some ws
        /\ thread_inv name max (owner c) (shared c) (world c) out i ps ws th;
  ti_free :
    owner c = None ->
    exists chunks cur,
      log_inv name max chunks cur (shared c) (world c)
      /\ List.concat chunks ++ cur = out;
  ti_held :
    forall i d, owner c = Some (i, d) -> (i < List.length (threads c))%nat;
  ti_merged : interleaved written out
}.

(** The threads of [test_concurrent_writes] on a new instance, run as
    [schedule] picks them. *)
Definition run_threads (name : string) (max : Z)
           (payloads : list (list Py.str)) (schedule : list nat) (w0 : World)
  : result config :=
  match BinaryLogger.init name max tt w0 with
  | (Ok logger, _, w1) => Ok (exec schedule (start logger w1 payloads))
  | (Raise e, _, _) => Raise e
  end.

(** No call has ended in an exception. *)
Definition none_raised (c : config) : Prop :=
  Forall (fun th => forall e, current th <> Some (Task.Done (Raise e)))
         (threads c).

(** [list(logger.read())] once the threads are joined: how the generator
    ended and what it yielded. *)
Definition read_back (c : config) : result unit * list Py.str :=
  fst (BinaryLogger.read (shared c) None [] (world c)).

(** How far a thread is from having written all its payloads: four
    steps of progress for each payload it has not begun, and up to three
    for the call it is in. *)
Definition work (th : thread) : nat :=
  4 * List.length (pending th)
  + match current th with
    | None => 0
    | Some (Task.Done _) => 1
    | Some (Task.Acquire _) => 2
    | Some _ => 3
    end.

(** A thread that is in a call and does not hold the lock: its call has
    ended, or it has not read [self] yet, or it waits for the lock. *)
Definition waiting (t : Task.t BinaryLogger.t unit) : Prop :=
  (exists r, t = Task.Done r)
  \/ (exists p, t = write p)
  \/ (exists k, t = Task.Acquire k /\ locked 1 k).

(** The lock is held by a thread that is under it, and by no other. *)
Definition lock_inv (c : config) : Prop :=
  (forall i th,
      nth_error (threads c) i = Some th ->
      match current th with
      | None => free_of (owner c) i
      | Some t =>
        (free_of (owner c) i /\ waiting t)
        \/ (exists d, owner c = Some (i, d) /\ locked d t)
      end)
  /\ (forall i d, owner c = Some (i, d) -> (i < List.length (threads c))%nat).

(** A directory in which the second system call to come fails. *)
Definition second_call_fails : World :=
  mkWorld [("test.bin"%string, [])] [false; true] [].

(** Two threads of three payloads each, and a schedule that lets the
    second take two steps for each step of the first. *)
Definition two_threads : list (list Py.str) :=
  [ map Py.of_string ["a0"; "a1"; "a2"]%string;
    map Py.of_string ["b0"; "b1"; "b2"]%string ].

Fixpoint uneven (rounds : nat) : list nat :=
  match rounds with
  | O => []
  | S rounds' => 0%nat :: 1%nat :: 1%nat :: uneven rounds'
  end.

End Concurrency.

(* ================================================================== *)
(** ** Bytes, lengths and the length prefix *)
(* ================================================================== *)

Section PrefixFacts.
Import Py.

Lemma to_N_byte_of_N (n : N) : (n < 256)%N -> Byte.to_N (byte_of_N n) = n.
Proof.
  intros Hn. unfold byte_of_N.
  destruct (Byte.of_N n) as [b|] eqn:E.
  - now apply Byte.to_of_N.
  - apply Byte.of_N_None_iff in E. lia.
Qed.

Lemma to_N_lt_256 (b : Byte.byte) : (Byte.to_N b < 256)%N.
Proof. pose proof (Byte.to_N_bounded b). lia. Qed.

Lemma len_app {A} (l1 l2 : list A) : len (l1 ++ l2) = len l1 + len l2.
Proof. unfold len. rewrite length_app. lia. Qed.

Lemma len_cons {A} (x : A) (l : list A) : len (x :: l) = 1 + len l.
Proof. unfold len. cbn [List.length]. lia. Qed.

Lemma len_nonneg {A} (l : list A) : 0 <= len l.
Proof. unfold len. lia. Qed.

Lemma be_digits_length (width : nat) (n : Z) :
  List.length (be_digits width n) = width.
Proof.
  revert n. induction width as [|w IH]; intros n; simpl.
  - reflexivity.
  - rewrite length_app, IH. simpl. lia.
Qed.

Lemma len_be_digits (width : nat) (n : Z) :
  len (be_digits width n) = Z.of_nat width.
Proof. unfold len. now rewrite be_digits_length. Qed.

Lemma from_bytes_app (l1 l2 : bytes) :
  from_bytes (l1 ++ l2)
  = from_bytes l1 * 256 ^ len l2 + from_bytes l2.
Proof.
  unfold from_bytes.
  assert (G : forall l acc,
             fold_left (fun a b => a * 256 + Z.of_N (Byte.to_N b)) l acc
             = acc * 256 ^ len l
               + fold_left (fun a b => a * 256 + Z.of_N (Byte.to_N b)) l 0).
  { induction l as [|b l IH]; intros acc.
    - cbn [fold_left]. change (len (@nil Byte.byte)) with 0. lia.
    - cbn [fold_left]. rewrite IH. rewrite (IH (0 * 256 + Z.of_N (Byte.to_N b))).
      rewrite len_cons, Z.pow_add_r, Z.pow_1_r
        by (try apply len_nonneg; lia).
      lia. }
  rewrite fold_left_app, G. reflexivity.
Qed.

Lemma from_bytes_be_digits (width : nat) (n : Z) :
  0 <= n -> from_bytes (be_digits width n) = n mod 256 ^ Z.of_nat width.
Proof.
  revert n. induction width as [|w IH]; intros n Hn.
  - simpl. now rewrite Z.mod_1_r.
  - cbn [be_digits]. rewrite from_bytes_app, IH by (apply Z.div_pos; lia).
    assert (Hm : 0 <= n mod 256 < 256) by (apply Z.mod_pos_bound; lia).
    rewrite len_cons. change (len (@nil Byte.byte)) with 0.
    unfold from_bytes at 1. cbn [fold_left].
    rewrite to_N_byte_of_N by lia.
    rewrite Z2N.id by lia.
    rewrite Nat2Z.inj_succ, Z.pow_succ_r by lia.
    change (256 ^ (1 + 0)) with 256.
    rewrite Z.rem_mul_r by lia.
    lia.
Qed.

(** [to_bytes] succeeds exactly below [256 ^ width], and what it returns
    has [width] bytes and reads back as the number. *)
Lemma to_bytes_Some (n : Z) (width : nat) :
  0 <= n < 256 ^ Z.of_nat width ->
  to_bytes n width = Some (be_digits width n)
  /\ List.length (be_digits width n) = width
  /\ from_bytes (be_digits width n) = n.
Proof.
  intros Hn. unfold to_bytes.
  replace (0 <=? n) with true by (symmetry; apply Z.leb_le; lia).
  replace (n <? 256 ^ Z.of_nat width) with true
    by (symmetry; apply Z.ltb_lt; lia).
  simpl. repeat split.
  - apply be_digits_length.
  - rewrite from_bytes_be_digits by lia. apply Z.mod_small. lia.
Qed.

Lemma to_bytes_None (n : Z) (width : nat) :
  256 ^ Z.of_nat width <= n -> to_bytes n width = None.
Proof.
  intros Hn. unfold to_bytes.
  replace (n <? 256 ^ Z.of_nat width) with false
    by (symmetry; apply Z.ltb_ge; lia).
  now rewrite andb_false_r.
Qed.

Lemma pow_256_4 : 256 ^ Z.of_nat 4 = 2 ^ 32.
Proof. reflexivity. Qed.

(** The four bytes of the reference width, written out. *)
Lemma be_digits_4 (n : Z) :
  be_digits 4 n
  = [byte_of_N (Z.to_N ((n / 16777216) mod 256));
     byte_of_N (Z.to_N ((n / 65536) mod 256));
     byte_of_N (Z.to_N ((n / 256) mod 256));
     byte_of_N (Z.to_N (n mod 256))].
Proof.
  cbn [be_digits app].
  rewrite !Z.div_div by lia. reflexivity.
Qed.

End PrefixFacts.

(* ================================================================== *)
(** ** Following a relation on worlds through a program *)
(* ================================================================== *)

Section StepFacts.
Import OS Sys Quiet.
Context {R : World -> World -> Prop} `{HR : StepRel R}.

Lemma Steps_ret {S A} (a : A) : Steps R (@ret S A a).
Proof. intros s w r s' w' [= <- <- <-]. apply step_refl. Qed.

Lemma Steps_raise {S A} (e : exn) : Steps R (@raise S A e).
Proof. intros s w r s' w' [= <- <- <-]. apply step_refl. Qed.

Lemma Steps_get {S} : Steps R (@get S).
Proof. intros s w r s' w' [= <- <- <-]. apply step_refl. Qed.

Lemma Steps_modify {S} (f : S -> S) : Steps R (modify f).
Proof. intros s w r s' w' [= <- <- <-]. apply step_refl. Qed.

Lemma Steps_get_files {S} : Steps R (@get_files S).
Proof. intros s w r s' w' [= <- <- <-]. apply step_refl. Qed.

Lemma Steps_log {S} (e : event) : mutates e = false -> Steps R (@log S e).
Proof. intros He s w r s' w' [= <- <- <-]. now apply step_event. Qed.

Lemma Steps_fate {S} : Steps R (@fate S).
Proof.
  intros s w r s' w'. unfold fate.
  destruct (faults w) as [|[|] fs]; intros [= <- <- <-];
    (apply step_oracle || apply step_refl).
Qed.

Lemma Steps_bind {S A B} (m : M S A) (k : A -> M S B) :
  Steps R m -> (forall a, Steps R (k a)) -> Steps R (bind m k).
Proof.
  intros Hm Hk s w r s' w'. unfold bind.
  destruct (m s w) as [[[a|e] s1] w1] eqn:E; intros H.
  - eapply step_trans; [eapply Hm, E | eapply Hk, H].
  - injection H as <- <- <-. eapply Hm, E.
Qed.

Lemma Steps_syscall {S} (e : event) :
  mutates e = false -> Steps R (@syscall S e).
Proof.
  intros He. unfold syscall.
  apply Steps_bind; [now apply Steps_log | intros _; apply Steps_fate].
Qed.

Lemma Steps_try {S A} (m h : M S A) :
  Steps R m -> Steps R h -> Steps R (try_except_OSError m h).
Proof.
  intros Hm Hh s w r s' w'. unfold try_except_OSError.
  destruct (m s w) as [[[a|e] s1] w1] eqn:E; intros H.
  - injection H as <- <- <-. eapply Hm, E.
  - destruct e; try (injection H as <- <- <-; eapply Hm, E).
    eapply step_trans; [eapply Hm, E | eapply Hh, H].
Qed.

Lemma Steps_finally {S A} (m : M S A) (f : M S unit) :
  Steps R m -> Steps R f -> Steps R (finally m f).
Proof.
  intros Hm Hf s w r s' w'. unfold finally.
  destruct (m s w) as [[r1 s1] w1] eqn:E.
  destruct (f s1 w1) as [[[u|e] s2] w2] eqn:F; intros [= <- <- <-];
    (eapply step_trans; [eapply Hm, E | eapply Hf, F]).
Qed.

Lemma Steps_zoom {S T A} (proj : S -> T) (upd : T -> S -> S) (m : M T A) :
  Steps R m -> Steps R (zoom proj upd m).
Proof.
  intros Hm s w r s' w'. unfold zoom.
  destruct (m (proj s) w) as [[r1 t1] w1] eqn:E. intros [= <- <- <-].
  eapply Hm, E.
Qed.

Lemma Steps_with_lock {S A} (body : M S A) :
  Steps R body -> Steps R (with_lock body).
Proof.
  intros Hb. unfold with_lock.
  apply Steps_bind; [now apply Steps_log | intros _].
  apply Steps_finally; [exact Hb | now apply Steps_log].
Qed.

Lemma Steps_path_glob {S} (pattern : string) : Steps R (@path_glob S pattern).
Proof.
  unfold path_glob.
  apply Steps_bind; [now apply Steps_log | intros _].
  apply Steps_bind; [apply Steps_get_files | intros d]. apply Steps_ret.
Qed.

Lemma Steps_open_read {S} (name : string) : Steps R (@open_read S name).
Proof.
  unfold open_read.
  apply Steps_bind; [now apply Steps_syscall | intros _].
  apply Steps_bind; [apply Steps_get_files | intros d].
  destruct (lookup name d); [apply Steps_ret | apply Steps_raise].
Qed.

Lemma Steps_get_existing_backups {S} (file_path : string) (sort : bool) :
  Steps R (@Utilities.get_existing_backups S file_path sort).
Proof.
  unfold Utilities.get_existing_backups.
  apply Steps_bind; [apply Steps_path_glob | intros matches].
  destruct (negb sort); [apply Steps_ret|].
  destruct (Utilities.with_keys _); [apply Steps_ret | apply Steps_raise].
Qed.

Lemma Steps_get_last_rollover_seq {S} (file_path : string) :
  Steps R (@Utilities.get_last_rollover_seq S file_path).
Proof.
  unfold Utilities.get_last_rollover_seq.
  apply Steps_bind; [apply Steps_get_existing_backups | intros bs].
  destruct (rev bs); [apply Steps_ret|].
  destruct (Py.int _); [apply Steps_ret | apply Steps_raise].
Qed.

Lemma Steps_deserialize_loop (budget : nat) (self : BinaryLogger.t)
      (handle : Py.bytes) :
  Steps R (BinaryLogger.deserialize_loop budget self handle).
Proof.
  revert handle. induction budget as [|b IH]; intros handle;
    cbn [BinaryLogger.deserialize_loop].
  - apply Steps_raise.
  - destruct (BinaryLogger.fh_read _ handle) as [length_bytes handle1].
    destruct (Py.len length_bytes =? 0); [apply Steps_ret|].
    destruct (Py.len length_bytes <? _); [apply Steps_raise|].
    destruct (BinaryLogger.fh_read _ handle1) as [payload_buffer handle2].
    destruct (negb _); [apply Steps_raise|].
    apply Steps_bind; [apply Steps_modify | intros _]. apply IH.
Qed.

Lemma Steps_read_loop (self : BinaryLogger.t) (paths : list string) :
  Steps R (BinaryLogger.read_loop self paths).
Proof.
  induction paths as [|p paths IH]; cbn [BinaryLogger.read_loop].
  - apply Steps_ret.
  - apply Steps_bind; [|intros _; exact IH].
    apply Steps_try; [|apply Steps_ret].
    apply Steps_bind; [apply Steps_open_read | intros h].
    apply Steps_deserialize_loop.
Qed.

Lemma Steps_read (self : BinaryLogger.t) (file_path : option string) :
  Steps R (BinaryLogger.read self file_path).
Proof.
  unfold BinaryLogger.read.
  apply Steps_bind; [apply Steps_get_existing_backups | intros bs].
  apply Steps_read_loop.
Qed.

End StepFacts.

Section QuietFacts.
Import OS Sys Quiet.

Lemma quiet_refl (w : World) : quiet w w.
Proof. split; [reflexivity | exists []; auto]. Qed.

Lemma quiet_trans (w1 w2 w3 : World) : quiet w1 w2 -> quiet w2 w3 -> quiet w1 w3.
Proof.
  intros [F1 (n1 & T1 & A1)] [F2 (n2 & T2 & A2)]. split.
  - congruence.
  - exists (n2 ++ n1). rewrite T2, T1, app_assoc. split; [reflexivity|].
    apply Forall_app; auto.
Qed.

#[export] Instance quiet_StepRel : StepRel quiet.
Proof.
  split.
  - apply quiet_refl.
  - apply quiet_trans.
  - intros w fs e He. split; [reflexivity|]. exists [e].
    split; [reflexivity|]. constructor; auto.
  - intros w fs. split; [reflexivity|]. exists []. auto.
Qed.

End QuietFacts.

(* ================================================================== *)
(** ** [write] outside the critical section and on a closed log *)
(* ================================================================== *)

Section WriteGuards.
Import OS Sys Quiet Session.

Lemma encode_repeat_ascii (c : N) (n : nat) :
  (c < 0x80)%N ->
  Py.encode (repeat c n) = repeat (Py.byte_of_N c) n.
Proof.
  intros Hc. induction n as [|n IH]; [reflexivity|].
  cbn [repeat]. unfold Py.encode in *. cbn [flat_map]. rewrite IH.
  unfold Py.encode_char.
  replace (c <? 0x80)%N with true by (symmetry; now apply N.ltb_lt).
  reflexivity.
Qed.

Lemma huge_payload_len : Py.len (Py.encode huge_payload) = 2 ^ 32.
Proof.
  unfold huge_payload. rewrite encode_repeat_ascii by reflexivity.
  unfold Py.len. rewrite repeat_length. rewrite Z2Nat.id; [reflexivity|].
  discriminate.
Qed.

Lemma serialize_overflow (self : BinaryLogger.t) (payload : Py.str) :
  256 ^ Z.of_nat (BinaryLogger.length_bytesize self)
    <= Py.len (Py.encode payload) ->
  BinaryLogger.serialize self payload = Raise OverflowError.
Proof.
  intros H. unfold BinaryLogger.serialize. now rewrite to_bytes_None.
Qed.

Lemma serialize_fits (self : BinaryLogger.t) (payload : Py.str) :
  Py.len (Py.encode payload)
    < 256 ^ Z.of_nat (BinaryLogger.length_bytesize self) ->
  BinaryLogger.serialize self payload
  = Ok (Py.be_digits (BinaryLogger.length_bytesize self)
                     (Py.len (Py.encode payload))
        ++ Py.encode payload).
Proof.
  intros H. unfold BinaryLogger.serialize.
  destruct (@to_bytes_Some (Py.len (Py.encode payload))
                           (BinaryLogger.length_bytesize self)) as (E & _).
  { split; [apply len_nonneg | exact H]. }
  now rewrite E.
Qed.

(** A payload too long for the prefix: [write] raises before it takes the
    lock, and nothing has moved. *)
Lemma write_overflow (self : BinaryLogger.t) (payload : Py.str) (w : World) :
  BinaryLogger.serialize self payload = Raise OverflowError ->
  BinaryLogger.write payload self w = (Raise OverflowError, self, w).
Proof.
  intros H. unfold BinaryLogger.write, bind, get, BinaryLogger.lift_result.
  rewrite H. reflexivity.
Qed.

(** A closed log: [write] takes the lock, sees the flag and raises. *)
Lemma write_closed (self : BinaryLogger.t) (payload : Py.str) (w : World)
      (frame : Py.bytes) :
  BinaryLogger.serialize self payload = Ok frame ->
  LogState.is_closed (BinaryLogger.file_state self) = true ->
  BinaryLogger.write payload self w = (Raise RuntimeError, self, locked_idle w).
Proof.
  intros H Hc. unfold BinaryLogger.write, bind, get, BinaryLogger.lift_result.
  rewrite H. unfold zoom, with_lock, bind, finally, log, get, raise, ret.
  cbn. rewrite Hc. cbn. destruct self; reflexivity.
Qed.

Lemma close_closed (self : BinaryLogger.t) (w : World) :
  LogState.is_closed (BinaryLogger.file_state self) = true ->
  BinaryLogger.close self w = (Ok tt, self, locked_idle w).
Proof.
  intros Hc. unfold BinaryLogger.close, LogState.close, zoom, with_lock,
    bind, finally, log, get, ret.
  cbn. rewrite Hc. cbn. destruct self; reflexivity.
Qed.

Lemma locked_idle_quiet (w : World) : quiet w (locked_idle w).
Proof.
  split; [reflexivity|]. exists [EvRelease; EvAcquire].
  split; [reflexivity|]. repeat constructor.
Qed.

End WriteGuards.

Section ClosedLog.
Import OS Sys Quiet Session.

Lemma sample_open_eq : sample_open = (Ok sample_logger, tt, sample_world).
Proof. reflexivity. Qed.

Lemma sample_close_eq :
  BinaryLogger.close sample_logger sample_world
  = (Ok tt, sample_closed, sample_closed_world).
Proof. reflexivity. Qed.

Lemma serialize_raises_only_overflow (self : BinaryLogger.t)
      (payload : Py.str) (e : exn) :
  BinaryLogger.serialize self payload = Raise e -> e = OverflowError.
Proof.
  unfold BinaryLogger.serialize. destruct (Py.to_bytes _ _); congruence.
Qed.

(** The handler of both [try] blocks: once it has run, the flag is set. *)
Lemma handler_closes {A} (m : M LogState.t A) (s s' : LogState.t)
      (w w' : World) :
  try_except_OSError m
    (modify (LogState.set_is_closed true) ;;; raise OSError) s w
  = (Raise OSError, s', w') ->
  LogState.is_closed s' = true.
Proof.
  unfold try_except_OSError, bind, modify, raise.
  destruct (m s w) as [[[a|e] s1] w1]; [discriminate|].
  destruct e; try discriminate. intros [= <- <-]. reflexivity.
Qed.

Lemma write_failure_closes (payload : Py.str) (self self' : BinaryLogger.t)
      (w w' : World) :
  BinaryLogger.write payload self w = (Raise OSError, self', w') ->
  LogState.is_closed (BinaryLogger.file_state self') = true.
Proof.
  unfold BinaryLogger.write, bind at 1, get at 1.
  unfold bind at 1, BinaryLogger.lift_result.
  destruct (BinaryLogger.serialize self payload) as [frame|e] eqn:E.
  - unfold ret at 1. unfold zoom, with_lock, bind at 1, log at 1.
    unfold finally, log. unfold bind at 1, get at 1.
    destruct (LogState.is_closed (BinaryLogger.file_state self)) eqn:Hc.
    + unfold raise. discriminate.
    + match goal with
      | |- context [try_except_OSError ?m ?h ?s ?w] =>
        destruct (try_except_OSError m h s w) as [[r s1] w1] eqn:T
      end.
      intros [= -> <- <-]. cbn. eapply handler_closes, T.
  - apply serialize_raises_only_overflow in E. subst e.
    unfold raise. discriminate.
Qed.

Lemma close_returns_closed (self self' : BinaryLogger.t) (w w' : World) :
  BinaryLogger.close self w = (Ok tt, self', w') ->
  LogState.is_closed (BinaryLogger.file_state self') = true.
Proof.
  unfold BinaryLogger.close, LogState.close, zoom, with_lock, finally.
  unfold bind at 1, log at 1. unfold bind at 1, get at 1.
  destruct (LogState.is_closed (BinaryLogger.file_state self)) eqn:Hc.
  - cbn. intros [= <- <-]. exact Hc.
  - cbn [negb]. unfold fh_close, syscall, bind, log, fate, modify. cbn.
    destruct (faults w) as [|[|] fs]; cbn; intros [= <- <-]; reflexivity.
Qed.

(** On a closed instance every public call hands the instance back as it
    was and leaves the directory alone. *)
Lemma perform_closed (c : call) (self : BinaryLogger.t) (w : World) :
  LogState.is_closed (BinaryLogger.file_state self) = true ->
  snd (fst (perform c self w)) = self /\ quiet w (snd (perform c self w)).
Proof.
  intros Hc. destruct c as [payload|file_path| | | |]; cbn [perform].
  - destruct (BinaryLogger.serialize self payload) as [frame|e] eqn:E.
    + rewrite (@write_closed self payload w frame E Hc). cbn. split; [reflexivity|].
      apply locked_idle_quiet.
    + pose proof (@serialize_raises_only_overflow self payload e E). subst e.
      rewrite (@write_overflow self payload w E). cbn. split; [reflexivity|].
      apply quiet_refl.
  - destruct (BinaryLogger.read self file_path [] w) as [[r ys] w'] eqn:R.
    cbn. split; [reflexivity|]. eapply (Steps_read (R:=quiet)), R.
  - rewrite (@close_closed self w Hc). cbn. split; [reflexivity|].
    apply locked_idle_quiet.
  - cbn. split; [reflexivity | apply quiet_refl].
  - rewrite (@close_closed self w Hc). cbn. split; [reflexivity|].
    apply locked_idle_quiet.
  - rewrite (@close_closed self w Hc). cbn. split; [reflexivity|].
    apply locked_idle_quiet.
Qed.

Lemma perform_all_closed (cs : list call) (self : BinaryLogger.t) (w : World) :
  LogState.is_closed (BinaryLogger.file_state self) = true ->
  fst (perform_all cs self w) = self /\ quiet w (snd (perform_all cs self w)).
Proof.
  intros Hc. revert w. induction cs as [|c cs IH]; intros w.
  - cbn. split; [reflexivity | apply quiet_refl].
  - cbn [perform_all].
    destruct (@perform_closed c self w Hc) as [Hs Hq].
    destruct (perform c self w) as [[r self1] w1]. cbn in Hs, Hq. subst self1.
    destruct (IH w1) as [Hs' Hq']. split; [exact Hs'|].
    eapply quiet_trans; eassumption.
Qed.

(** C7.  Closed is terminal.  An instance becomes closed when [close]
    returns and when [write] fails with an I/O error, its rollover
    included; from then on, whatever public calls follow ([write], [read],
    [close], [__enter__], [__exit__], [__del__]), the instance is handed
    back unchanged, so still closed and with the same sequence number, the
    files are what they were, and the trace holds no [rename], no
    [open] for appending and no [write]: the reopening of [rollover] was
    not reached. *)
Theorem closed_is_terminal :
  (forall self w self' w',
      BinaryLogger.close self w = (Ok tt, self', w') ->
      LogState.is_closed (BinaryLogger.file_state self') = true)
  /\ (forall payload self w self' w',
         BinaryLogger.write payload self w = (Raise OSError, self', w') ->
         LogState.is_closed (BinaryLogger.file_state self') = true)
  /\ (forall cs self w,
         LogState.is_closed (BinaryLogger.file_state self) = true ->
         fst (perform_all cs self w) = self
         /\ quiet w (snd (perform_all cs self w))).
Proof.
  split; [|split].
  - intros self w self' w'. apply close_returns_closed.
  - intros payload self w self' w'. apply write_failure_closes.
  - intros cs self w. apply perform_all_closed.
Qed.

Lemma closed_is_terminal_witness :
  LogState.is_closed (BinaryLogger.file_state sample_closed) = true
  /\ (let r := BinaryLogger.write (Py.of_string "x") sample_logger
                                  faulty_world in
      fst (fst r) = Raise OSError
      /\ LogState.is_closed (BinaryLogger.file_state (snd (fst r))) = true)
  /\ fst (perform_all [CallWrite (Py.of_string "again"); CallEnter;
                       CallRead None; CallClose; CallWrite []; CallDel]
                      sample_closed sample_closed_world)
     = sample_closed.
Proof.
  destruct closed_is_terminal as (Hclose & Hfail & Hterminal).
  split; [|split].
  - exact (Hclose sample_logger sample_world sample_closed
                  sample_closed_world eq_refl).
  - intros r. split; [reflexivity|].
    exact (Hfail (Py.of_string "x") sample_logger faulty_world
                 (snd (fst r)) (snd r) eq_refl).
  - exact (proj1 (Hterminal
                    [CallWrite (Py.of_string "again"); CallEnter;
                     CallRead None; CallClose; CallWrite []; CallDel]
                    sample_closed sample_closed_world eq_refl)).
Defined.

(** C10.  With the four-byte prefix of the constructor, a payload whose
    encoding has 2^32 bytes or more makes [write] raise [OverflowError]
    out of the conversion of the length, with the instance and the world
    (files, oracle, trace: no lock taken, no byte written) exactly as
    before, so that the log is as open and as usable as it was; below 2^32
    the conversion succeeds, gives four bytes, and they read back as the
    length. *)
Theorem write_length_overflow (self : BinaryLogger.t) (payload : Py.str)
        (w : World) :
  BinaryLogger.length_bytesize self = 4%nat ->
  (2 ^ 32 <= Py.len (Py.encode payload) ->
   BinaryLogger.write payload self w = (Raise OverflowError, self, w))
  /\ (Py.len (Py.encode payload) < 2 ^ 32 ->
      exists prefix,
        Py.to_bytes (Py.len (Py.encode payload)) 4 = Some prefix
        /\ List.length prefix = 4%nat
        /\ Py.from_bytes prefix = Py.len (Py.encode payload)
        /\ BinaryLogger.serialize self payload
           = Ok (prefix ++ Py.encode payload)).
Proof.
  intros Hw. split; intros Hn.
  - apply write_overflow, serialize_overflow. rewrite Hw, pow_256_4. exact Hn.
  - exists (Py.be_digits 4 (Py.len (Py.encode payload))).
    destruct (@to_bytes_Some (Py.len (Py.encode payload)) 4) as (E & L & F).
    { rewrite pow_256_4. split; [apply len_nonneg | exact Hn]. }
    repeat split; auto.
    rewrite serialize_fits by (rewrite Hw, pow_256_4; exact Hn).
    now rewrite Hw.
Qed.

Lemma write_length_overflow_witness :
  (2 ^ 32 <= Py.len (Py.encode huge_payload)
   /\ BinaryLogger.write huge_payload sample_logger sample_world
      = (Raise OverflowError, sample_logger, sample_world))
  /\ (Py.len (Py.encode (Py.of_string "hi")) < 2 ^ 32
      /\ exists prefix,
           Py.to_bytes (Py.len (Py.encode (Py.of_string "hi"))) 4
           = Some prefix
           /\ List.length prefix = 4%nat
           /\ Py.from_bytes prefix = Py.len (Py.encode (Py.of_string "hi"))
           /\ BinaryLogger.serialize sample_logger (Py.of_string "hi")
              = Ok (prefix ++ Py.encode (Py.of_string "hi"))).
Proof.
  split.
  - assert (H : 2 ^ 32 <= Py.len (Py.encode huge_payload))
      by (rewrite huge_payload_len; apply Z.le_refl).
    split; [exact H|].
    exact (proj1 (@write_length_overflow sample_logger huge_payload
                    sample_world eq_refl) H).
  - assert (H : Py.len (Py.encode (Py.of_string "hi")) < 2 ^ 32)
      by reflexivity.
    split; [exact H|].
    exact (proj2 (@write_length_overflow sample_logger (Py.of_string "hi")
                    sample_world eq_refl) H).
Defined.

(** C8, as the code has it.  On a closed instance a [write] whose payload
    fits the prefix (fewer than 2^32 encoded bytes) raises the closed
    error, [RuntimeError], having taken and released the lock and nothing
    else: no system call, the files untouched; and [close] on a closed
    instance returns normally with the same effect on nothing. *)
Theorem write_after_close (self : BinaryLogger.t) (payload : Py.str)
        (w : World) :
  LogState.is_closed (BinaryLogger.file_state self) = true ->
  BinaryLogger.length_bytesize self = 4%nat ->
  Py.len (Py.encode payload) < 2 ^ 32 ->
  BinaryLogger.write payload self w = (Raise RuntimeError, self, locked_idle w)
  /\ BinaryLogger.close self w = (Ok tt, self, locked_idle w).
Proof.
  intros Hc Hw Hn. split.
  - eapply write_closed; [|exact Hc].
    apply serialize_fits. rewrite Hw, pow_256_4. exact Hn.
  - now apply close_closed.
Qed.

Lemma write_after_close_witness :
  BinaryLogger.write (Py.of_string "Should fail") sample_closed
                     sample_closed_world
  = (Raise RuntimeError, sample_closed, locked_idle sample_closed_world)
  /\ BinaryLogger.close sample_closed sample_closed_world
     = (Ok tt, sample_closed, locked_idle sample_closed_world).
Proof.
  apply write_after_close; reflexivity.
Defined.

(** C8 as stated fails: the instance of [sample_close_eq] is closed, and
    a [write] of 2^32 letters raises [OverflowError], not the closed
    error. *)
Lemma write_after_close_overflow :
  LogState.is_closed (BinaryLogger.file_state sample_closed) = true
  /\ fst (fst (BinaryLogger.write huge_payload sample_closed
                                  sample_closed_world))
     = Raise OverflowError
  /\ fst (fst (BinaryLogger.write huge_payload sample_closed
                                  sample_closed_world))
     <> Raise RuntimeError.
Proof.
  assert (E : BinaryLogger.write huge_payload sample_closed
                                 sample_closed_world
              = (Raise OverflowError, sample_closed, sample_closed_world)).
  { apply write_overflow, serialize_overflow.
    rewrite huge_payload_len. apply Z.le_refl. }
  rewrite E. cbn. repeat split. discriminate.
Qed.

End ClosedLog.

(* ================================================================== *)
(** ** The code at three inputs *)
(* ================================================================== *)

Section Evaluations.
Import OS Sys Session.

(** C2.  [__deserialize] does raise on a damaged file, with the frames
    before the damage already yielded; [read] catches that error in the
    handler meant for [open], yields the frames of the next file and ends
    normally.  The caller sees no error. *)
Theorem read_swallows_corruption :
  BinaryLogger.deserialize sample_logger short_prefix [] damaged_world
  = (Raise OSError, [Py.of_string "ok"], damaged_world)
  /\ BinaryLogger.deserialize sample_logger short_payload [] damaged_world
     = (Raise OSError, [Py.of_string "ok"], damaged_world)
  /\ fst (BinaryLogger.read sample_logger None [] damaged_world)
     = (Ok tt, [Py.of_string "ok"; Py.of_string "ok"; Py.of_string "next"]).
Proof. repeat split; reflexivity. Qed.

(** No run of [read] ends in [OSError], whatever the files hold. *)
Lemma read_loop_never_OSError (self : BinaryLogger.t) (paths : list string)
      (ys : list Py.str) (w : World) :
  fst (fst (BinaryLogger.read_loop self paths ys w)) <> Raise OSError.
Proof.
  revert ys w. induction paths as [|p paths IH]; intros ys w.
  - cbn. discriminate.
  - cbn [BinaryLogger.read_loop]. unfold bind at 1, try_except_OSError.
    match goal with
    | |- context [bind ?m ?k ys w] => destruct (bind m k ys w) as [[[u|e] ys1] w1]
    end.
    + apply IH.
    + destruct e; cbn; try discriminate. apply IH.
Qed.

Lemma read_never_OSError (self : BinaryLogger.t) (file_path : option string)
      (ys : list Py.str) (w : World) :
  fst (fst (BinaryLogger.read self file_path ys w)) <> Raise OSError.
Proof.
  unfold BinaryLogger.read, bind at 1.
  destruct (Utilities.get_existing_backups _ true ys w)
    as [[[bs|e] ys1] w1] eqn:E.
  - apply read_loop_never_OSError.
  - cbn. intros [= ->].
    unfold Utilities.get_existing_backups, bind, path_glob, log, get_files,
      ret, raise in E.
    cbn in E. destruct (Utilities.with_keys _); discriminate.
Qed.

(** C4.  On the name [log], which has no suffix, the first instance rolls
    over into [log.0]; the second instance finds no backup
    ([get_last_rollover_seq] answers -1), starts again at 0, and its
    rollover replaces [log.0], whose frame is lost. *)
Theorem reopened_log_reuses_backup_number :
  files (snd first_life)
  = [("log.0"%string, [Byte.x00; Byte.x00; Byte.x00; Byte.x01; Byte.x61]);
     ("log"%string, [])]
  /\ fst (fst (Utilities.get_last_rollover_seq "log" tt (snd first_life)))
     = Ok (-1)
  /\ option_map (fun logger =>
                   LogState.next_rollover_seq (BinaryLogger.file_state logger))
                (match fst (fst second_life_open) with
                 | Ok logger => Some logger
                 | Raise _ => None
                 end)
     = Some 0
  /\ fst (fst second_life) = Ok tt
  /\ files (snd second_life)
     = [("log.0"%string, [Byte.x00; Byte.x00; Byte.x00; Byte.x01; Byte.x62]);
        ("log"%string, [])].
Proof. repeat split; reflexivity. Qed.

(** C5.  A sibling whose token is the superscript digit [U+00B2] passes
    [isdigit], so the listing keeps it although [int] does not read it as
    a number; when sorting is requested the key function raises
    [ValueError] and there is no listing at all.  The letter token of
    [test.a.bin] is left out, as the claim says. *)
Theorem superscript_digit_breaks_listing :
  Py.isdigit (Utilities.seq_token superscript_two_name) = true
  /\ Py.int (Utilities.seq_token superscript_two_name) = None
  /\ fst (fst (Utilities.get_existing_backups "test.bin" false tt
                                              superscript_world))
     = Ok ["test.0.bin"%string; superscript_two_name]
  /\ fst (fst (Utilities.get_existing_backups "test.bin" true tt
                                              superscript_world))
     = Raise ValueError
  /\ fst (fst (Utilities.get_last_rollover_seq "test.bin" tt
                                               superscript_world))
     = Raise ValueError.
Proof. repeat split; reflexivity. Qed.

End Evaluations.

(* ================================================================== *)
(** ** The directory *)
(* ================================================================== *)

Section DirFacts.
Import OS.

Lemma lookup_app (n : string) (d1 d2 : dir) :
  lookup n (d1 ++ d2)
  = match lookup n d1 with Some c => Some c | None => lookup n d2 end.
Proof.
  induction d1 as [|[m c] d1 IH]; cbn; [reflexivity|].
  destruct (String.eqb m n); auto.
Qed.

Lemma lookup_In (n : string) (d : dir) (c : Py.bytes) :
  lookup n d = Some c -> In (n, c) d.
Proof.
  induction d as [|[m c'] d IH]; cbn; [discriminate|].
  destruct (String.eqb m n) eqn:E.
  - apply String.eqb_eq in E. intros [= ->]. left. now subst.
  - auto.
Qed.

Lemma lookup_None_names (n : string) (d : dir) :
  lookup n d = None <-> ~ In n (map fst d).
Proof.
  induction d as [|[m c] d IH]; cbn.
  - tauto.
  - destruct (String.eqb m n) eqn:E.
    + apply String.eqb_eq in E. split; [discriminate | intros H; tauto].
    + apply String.eqb_neq in E. rewrite IH. tauto.
Qed.

Lemma lookup_append_same (n : string) (data c : Py.bytes) (d : dir) :
  lookup n d = Some c -> lookup n (append n data d) = Some (c ++ data).
Proof.
  induction d as [|[m c'] d IH]; cbn; [discriminate|].
  destruct (String.eqb m n) eqn:E; cbn; rewrite E; [|auto].
  intros [= ->]. reflexivity.
Qed.

Lemma lookup_append_other (n n' : string) (data : Py.bytes) (d : dir) :
  n' <> n -> lookup n' (append n data d) = lookup n' d.
Proof.
  intros Hne. induction d as [|[m c'] d IH]; cbn; [reflexivity|].
  destruct (String.eqb m n) eqn:E; cbn.
  - apply String.eqb_eq in E. subst m.
    destruct (String.eqb n n') eqn:E'; [|reflexivity].
    apply String.eqb_eq in E'. congruence.
  - destruct (String.eqb m n'); auto.
Qed.

Lemma append_names (n : string) (data : Py.bytes) (d : dir) :
  map fst (append n data d) = map fst d.
Proof.
  induction d as [|[m c'] d IH]; cbn; [reflexivity|].
  destruct (String.eqb m n); cbn; congruence.
Qed.

Lemma append_absent (n : string) (data : Py.bytes) (d : dir) :
  lookup n d = None -> append n data d = d.
Proof.
  induction d as [|[m c'] d IH]; cbn; [reflexivity|].
  destruct (String.eqb m n); [discriminate|]. intros H. now rewrite IH.
Qed.

Lemma append_last (n : string) (data c : Py.bytes) (pre : dir) :
  lookup n pre = None ->
  append n data (pre ++ [(n, c)]) = pre ++ [(n, c ++ data)].
Proof.
  induction pre as [|[m c'] pre IH]; cbn.
  - now rewrite String.eqb_refl.
  - destruct (String.eqb m n); [discriminate|]. intros H. now rewrite IH.
Qed.

Lemma remove_absent (n : string) (d : dir) :
  lookup n d = None -> remove n d = d.
Proof.
  unfold remove. induction d as [|[m c'] d IH]; cbn; [reflexivity|].
  destruct (String.eqb m n); [discriminate|]. cbn. intros H. now rewrite IH.
Qed.

Lemma lookup_remove_same (n : string) (d : dir) : lookup n (remove n d) = None.
Proof.
  unfold remove. induction d as [|[m c'] d IH]; cbn; [reflexivity|].
  destruct (String.eqb m n) eqn:E; cbn; [exact IH|]. now rewrite E.
Qed.

Lemma lookup_remove_other (n n' : string) (d : dir) :
  n' <> n -> lookup n' (remove n d) = lookup n' d.
Proof.
  intros Hne. unfold remove.
  induction d as [|[m c'] d IH]; cbn; [reflexivity|].
  destruct (String.eqb m n) eqn:E; cbn.
  - apply String.eqb_eq in E. subst m.
    destruct (String.eqb n n') eqn:E'; [|exact IH].
    apply String.eqb_eq in E'. congruence.
  - destruct (String.eqb m n'); auto.
Qed.

(** Renaming entry by entry. *)
Lemma lookup_rename_map_dst (src dst : string) (d : dir) :
  lookup dst d = None ->
  lookup dst (map (fun e => if String.eqb (fst e) src
                            then (dst, snd e) else e) d)
  = lookup src d.
Proof.
  induction d as [|[m c'] d IH]; cbn; [reflexivity|].
  destruct (String.eqb m dst) eqn:Ed; [discriminate|].
  destruct (String.eqb m src) eqn:Es; cbn.
  - now rewrite String.eqb_refl.
  - rewrite Ed. exact IH.
Qed.

Lemma lookup_rename_map_other (src dst n : string) (d : dir) :
  n <> dst ->
  lookup n (map (fun e => if String.eqb (fst e) src
                          then (dst, snd e) else e) d)
  = if String.eqb src n then None else lookup n d.
Proof.
  intros Hne. induction d as [|[m c'] d IH]; cbn.
  - now destruct (String.eqb src n).
  - destruct (String.eqb m src) eqn:Es; cbn.
    + apply String.eqb_eq in Es. subst m.
      destruct (String.eqb dst n) eqn:Ed.
      * apply String.eqb_eq in Ed. congruence.
      * rewrite IH. now destruct (String.eqb src n).
    + destruct (String.eqb m n) eqn:En.
      * apply String.eqb_eq in En. subst m.
        rewrite String.eqb_sym in Es. now rewrite Es.
      * exact IH.
Qed.

Lemma lookup_rename_dst (src dst : string) (d : dir) :
  src <> dst -> lookup dst (rename src dst d) = lookup src d.
Proof.
  intros Hne. unfold rename.
  replace (String.eqb src dst) with false
    by (symmetry; now apply String.eqb_neq).
  rewrite lookup_rename_map_dst by apply lookup_remove_same.
  now apply lookup_remove_other.
Qed.

Lemma lookup_rename_src (src dst : string) (d : dir) :
  src <> dst -> lookup src (rename src dst d) = None.
Proof.
  intros Hne. unfold rename.
  replace (String.eqb src dst) with false
    by (symmetry; now apply String.eqb_neq).
  rewrite lookup_rename_map_other by exact Hne.
  now rewrite String.eqb_refl.
Qed.

Lemma lookup_rename_other (src dst n : string) (d : dir) :
  src <> dst -> n <> src -> n <> dst ->
  lookup n (rename src dst d) = lookup n d.
Proof.
  intros Hne Hs Hd. unfold rename.
  replace (String.eqb src dst) with false
    by (symmetry; now apply String.eqb_neq).
  rewrite lookup_rename_map_other by exact Hd.
  replace (String.eqb src n) with false
    by (symmetry; apply String.eqb_neq; congruence).
  now apply lookup_remove_other.
Qed.

Lemma rename_last (src dst : string) (c : Py.bytes) (pre : dir) :
  src <> dst -> lookup src pre = None -> lookup dst pre = None ->
  rename src dst (pre ++ [(src, c)]) = pre ++ [(dst, c)].
Proof.
  intros Hne Hs Hd. unfold rename.
  replace (String.eqb src dst) with false
    by (symmetry; now apply String.eqb_neq).
  rewrite remove_absent.
  2:{ rewrite lookup_app, Hd. cbn.
      replace (String.eqb src dst) with false
        by (symmetry; now apply String.eqb_neq).
      reflexivity. }
  rewrite map_app. cbn. rewrite String.eqb_refl. f_equal.
  clear Hd. induction pre as [|[m c'] pre IH]; cbn in *; [reflexivity|].
  destruct (String.eqb m src); [discriminate|]. now rewrite IH.
Qed.

Lemma lookup_create (name n : string) (d : dir) :
  lookup n (create name d)
  = match lookup n d with
    | Some c => Some c
    | None => if String.eqb name n then Some [] else None
    end.
Proof.
  unfold create, exists_.
  destruct (lookup name d) as [c|] eqn:E.
  - destruct (lookup n d) as [c'|] eqn:E'; [reflexivity|].
    destruct (String.eqb name n) eqn:En; [|reflexivity].
    apply String.eqb_eq in En. congruence.
  - rewrite lookup_app. destruct (lookup n d); [reflexivity|]. cbn.
    now destruct (String.eqb name n).
Qed.

Lemma create_absent (name : string) (d : dir) :
  lookup name d = None -> create name d = d ++ [(name, [])].
Proof. intros H. unfold create, exists_. now rewrite H. Qed.

Lemma exists_lookup (name : string) (d : dir) :
  exists_ name d = true <-> exists c, lookup name d = Some c.
Proof.
  unfold exists_. destruct (lookup name d) as [c|].
  - split; [eauto | reflexivity].
  - split; [discriminate | intros [c H]; discriminate].
Qed.

End DirFacts.

(* ================================================================== *)
(** ** What a call that returned has done *)
(* ================================================================== *)

Section Returned.
Import OS Sys.

Lemma bind_Ok {S A B} (m : M S A) (k : A -> M S B) s w b s' w' :
  bind m k s w = (Ok b, s', w') ->
  exists a s1 w1, m s w = (Ok a, s1, w1) /\ k a s1 w1 = (Ok b, s', w').
Proof.
  unfold bind. destruct (m s w) as [[[a|e] s1] w1]; [|discriminate].
  intros H. now exists a, s1, w1.
Qed.

Lemma try_Ok {S A} (m : M S A) (f : S -> S) (e : exn) s w a s' w' :
  try_except_OSError m (modify f ;;; raise e) s w = (Ok a, s', w') ->
  m s w = (Ok a, s', w').
Proof.
  unfold try_except_OSError, bind, modify, raise.
  destruct (m s w) as [[[a1|e1] s1] w1]; [auto|].
  destruct e1; discriminate.
Qed.

Lemma with_lock_inv {S A} (body : M S A) s w r s' w' :
  with_lock body s w = (r, s', w') ->
  exists w0 w1,
    files w0 = files w /\ faults w0 = faults w
    /\ body s w0 = (r, s', w1)
    /\ files w' = files w1 /\ faults w' = faults w1.
Proof.
  unfold with_lock, bind, finally, log.
  destruct (body s _) as [[r1 s1] w1] eqn:E. intros [= <- <- <-].
  eexists _, w1. split; [|split; [|split; [exact E|]]]; cbn; auto.
Qed.

Lemma zoom_inv {S T A} (proj : S -> T) (upd : T -> S -> S) (m : M T A)
      s w r s' w' :
  zoom proj upd m s w = (r, s', w') ->
  exists t', m (proj s) w = (r, t', w') /\ s' = upd t' s.
Proof.
  unfold zoom. destruct (m (proj s) w) as [[r1 t1] w1].
  intros [= <- <- <-]. now exists t1.
Qed.

Lemma syscall_Ok {S} (e : event) (s : S) w u s' w' :
  syscall e s w = (Ok u, s', w') ->
  s' = s /\ files w' = files w /\ faults w' = tl (faults w).
Proof.
  unfold syscall, bind, log, fate. cbn.
  destruct (faults w) as [|[|] fs]; intros [= <- <- <-]; cbn; auto.
Qed.

Lemma fh_write_Ok {S} (name : string) (data : Py.bytes) (s : S) w u s' w' :
  fh_write name data s w = (Ok u, s', w') ->
  s' = s /\ exists_ name (files w) = true
  /\ files w' = append name data (files w) /\ faults w' = tl (faults w).
Proof.
  unfold fh_write. intros H.
  apply bind_Ok in H as (u1 & s1 & w1 & H1 & H).
  apply syscall_Ok in H1 as (-> & F1 & O1).
  unfold bind, get_files, set_files in H. cbn in H. rewrite F1 in H.
  destruct (exists_ name (files w)); [|discriminate].
  injection H as <- <- <-. cbn. auto.
Qed.

Lemma fh_tell_Ok {S} (name : string) (s : S) w z s' w' :
  fh_tell name s w = (Ok z, s', w') ->
  s' = s /\ files w' = files w /\ faults w' = tl (faults w)
  /\ exists c, lookup name (files w) = Some c /\ z = Py.len c.
Proof.
  unfold fh_tell. intros H.
  apply bind_Ok in H as (u1 & s1 & w1 & H1 & H).
  apply syscall_Ok in H1 as (-> & F1 & O1).
  unfold bind, get_files in H. cbn in H. rewrite F1 in H.
  destruct (lookup name (files w)) as [c|]; [|discriminate].
  injection H as <- <- <-. eauto 6.
Qed.

Lemma path_exists_Ok {S} (name : string) (s : S) w b s' w' :
  path_exists name s w = (Ok b, s', w') ->
  s' = s /\ files w' = files w /\ faults w' = tl (faults w)
  /\ b = exists_ name (files w).
Proof.
  unfold path_exists. intros H.
  apply bind_Ok in H as (u1 & s1 & w1 & H1 & H).
  apply syscall_Ok in H1 as (-> & F1 & O1).
  unfold bind, get_files, ret in H. cbn in H. rewrite F1 in H.
  injection H as <- <- <-. auto.
Qed.

Lemma path_rename_Ok {S} (src dst : string) (s : S) w u s' w' :
  path_rename src dst s w = (Ok u, s', w') ->
  s' = s /\ exists_ src (files w) = true
  /\ files w' = rename src dst (files w) /\ faults w' = tl (faults w).
Proof.
  unfold path_rename. intros H.
  apply bind_Ok in H as (u1 & s1 & w1 & H1 & H).
  apply syscall_Ok in H1 as (-> & F1 & O1).
  unfold bind, get_files, set_files in H. cbn in H. rewrite F1 in H.
  destruct (exists_ src (files w)); [|discriminate].
  injection H as <- <- <-. cbn. auto.
Qed.

Lemma open_append_Ok {S} (name : string) (s : S) w u s' w' :
  open_append name s w = (Ok u, s', w') ->
  s' = s /\ files w' = create name (files w) /\ faults w' = tl (faults w).
Proof.
  unfold open_append. intros H.
  apply bind_Ok in H as (u1 & s1 & w1 & H1 & H).
  apply syscall_Ok in H1 as (-> & F1 & O1).
  unfold bind, get_files, set_files in H. cbn in H. rewrite F1 in H.
  injection H as <- <- <-. cbn. auto.
Qed.

(** [LogState.close] that returned: the flag is set, nothing else moved. *)
Lemma close_Ok (s : LogState.t) w u s' w' :
  LogState.close s w = (Ok u, s', w') ->
  s' = LogState.set_is_closed true s /\ files w' = files w.
Proof.
  unfold LogState.close. intros H.
  apply with_lock_inv in H as (w0 & w1 & F0 & O0 & H & F1 & O1).
  unfold bind at 1, get at 1 in H.
  destruct (LogState.is_closed s) eqn:Hc; cbn [negb] in H.
  - injection H as <- <- <-. split; [|congruence].
    destruct s; cbn in *; now subst.
  - apply bind_Ok in H as (u1 & s1 & w2 & H1 & H).
    apply syscall_Ok in H1 as (-> & F2 & O2).
    injection H as <- <- <-. split; [reflexivity | congruence].
Qed.

(** [LogState.rollover] that returned: the active file, when it is there,
    went to the backup name of the current sequence number, which moved up
    by one; an empty active file is open. *)
Lemma rollover_Ok (s : LogState.t) w u s' w' :
  LogState.rollover s w = (Ok u, s', w') ->
  let name := LogState.file_path s in
  let seq := LogState.next_rollover_seq s in
  (exists_ name (files w) = true
   /\ files w' = create name (rename name (LogState.backup_path name seq)
                                     (files w))
   /\ s' = LogState.mk name (LogState.max_file_size s) false (seq + 1))
  \/ (exists_ name (files w) = false
      /\ files w' = create name (files w)
      /\ s' = LogState.mk name (LogState.max_file_size s) false seq).
Proof.
  intros H name seq. unfold LogState.rollover in H.
  apply with_lock_inv in H as (w0 & w1 & F0 & O0 & H & F1 & O1).
  apply bind_Ok in H as (u1 & s1 & w2 & Hclose & H).
  apply close_Ok in Hclose as (-> & F2).
  apply try_Ok in H.
  apply bind_Ok in H as (self & s2 & w3 & Hget & H).
  injection Hget as <- <- <-.
  apply bind_Ok in H as (there & s3 & w4 & Hex & H).
  apply path_exists_Ok in Hex as (-> & F4 & O4 & ->).
  cbn [LogState.file_path LogState.set_is_closed] in H.
  apply bind_Ok in H as (u2 & s4 & w5 & Hmove & H).
  apply bind_Ok in H as (u3 & s5 & w6 & Hopen & H).
  apply open_append_Ok in Hopen as (-> & F6 & O6).
  injection H as <- <- <-.
  rewrite F2, F0 in *.
  destruct (exists_ (LogState.file_path s) (files w)) eqn:Hthere.
  - left. split; [exact Hthere|].
    apply bind_Ok in Hmove as (u4 & s6 & w7 & Hren & Hmod).
    apply path_rename_Ok in Hren as (-> & _ & F7 & O7).
    injection Hmod as <- <- <-.
    cbn [LogState.next_rollover_seq LogState.set_is_closed
         LogState.set_next_rollover_seq LogState.file_path
         LogState.max_file_size LogState.is_closed] in *.
    split; [|reflexivity].
    rewrite F1, F6, F7, F4. reflexivity.
  - right. split; [exact Hthere|].
    injection Hmove as <- <- <-. split; [|reflexivity].
    rewrite F1, F6, F4. reflexivity.
Qed.

(** [BinaryLogger.write] that returned: the log was open, the frame went
    to the end of the active file, and the file rolled over exactly when
    its size had reached the maximum. *)
Lemma write_Ok (payload : Py.str) (self : BinaryLogger.t) w u self' w' :
  BinaryLogger.write payload self w = (Ok u, self', w') ->
  let st := BinaryLogger.file_state self in
  let name := LogState.file_path st in
  let seq := LogState.next_rollover_seq st in
  exists frame old,
    BinaryLogger.serialize self payload = Ok frame
    /\ LogState.is_closed st = false
    /\ lookup name (files w) = Some old
    /\ ((Py.len (old ++ frame) < LogState.max_file_size st
         /\ files w' = append name frame (files w)
         /\ self' = self)
        \/ (LogState.max_file_size st <= Py.len (old ++ frame)
            /\ files w'
               = create name
                   (rename name (LogState.backup_path name seq)
                           (append name frame (files w)))
            /\ self' = BinaryLogger.set_file_state
                         (LogState.mk name (LogState.max_file_size st)
                                      false (seq + 1)) self)).
Proof.
  intros H st name seq. unfold BinaryLogger.write in H.
  apply bind_Ok in H as (self0 & s1 & w1 & Hget & H).
  injection Hget as <- <- <-.
  apply bind_Ok in H as (frame & s2 & w2 & Hser & H).
  unfold BinaryLogger.lift_result in Hser.
  destruct (BinaryLogger.serialize self payload) as [frame0|e] eqn:Eser;
    [|discriminate].
  injection Hser as <- <- <-.
  apply zoom_inv in H as (st' & H & ->).
  apply with_lock_inv in H as (w0 & w3 & F0 & O0 & H & F3 & O3).
  unfold bind at 1, get at 1 in H. fold st in H.
  destruct (LogState.is_closed st) eqn:Hc; [discriminate|].
  apply try_Ok in H.
  apply bind_Ok in H as (u1 & s3 & w4 & Hwrite & H).
  apply fh_write_Ok in Hwrite as (-> & Hex & F4 & O4).
  apply bind_Ok in H as (u2 & s4 & w5 & Hflush & H).
  apply syscall_Ok in Hflush as (-> & F5 & O5).
  apply bind_Ok in H as (size & s5 & w6 & Htell & H).
  apply fh_tell_Ok in Htell as (-> & F6 & O6 & c & Hc6 & ->).
  fold name in Hex, F4, Hc6, H.
  rewrite F0 in *.
  apply exists_lookup in Hex as (old & Hold).
  rewrite F5, F4 in Hc6.
  rewrite (@lookup_append_same name frame0 old (files w) Hold) in Hc6.
  injection Hc6 as <-.
  exists frame0, old. repeat split; auto.
  destruct (Py.len (old ++ frame0) >=? LogState.max_file_size st) eqn:Hsize.
  - right. apply Z.geb_le in Hsize. split; [exact Hsize|].
    apply rollover_Ok in H. fold name seq in H.
    destruct H as [(_ & Fw & ->) | (Hno & _)].
    + split; [|reflexivity]. rewrite F3, Fw, F6, F5, F4. reflexivity.
    + rewrite F6, F5, F4 in Hno.
      assert (Hyes : exists_ name (append name frame0 (files w)) = true).
      { apply exists_lookup. eexists. apply lookup_append_same, Hold. }
      congruence.
  - left.
    assert (Hlt : Py.len (old ++ frame0) < LogState.max_file_size st).
    { destruct (Z.leb_spec (LogState.max_file_size st)
                           (Py.len (old ++ frame0))) as [Hle|Hlt]; [|exact Hlt].
      apply Z.geb_le in Hle. congruence. }
    split; [exact Hlt|].
    injection H as <- <- <-. split.
    + rewrite F3, F6, F5, F4. reflexivity.
    + unfold st. destruct self; reflexivity.
Qed.

End Returned.

(* ================================================================== *)
(** ** Names: suffix, stem, backup names *)
(* ================================================================== *)

Section NameFacts.
Import Session.
Local Open Scope string_scope.

Lemma str_app_assoc (a b c : string) : (a ++ b) ++ c = a ++ (b ++ c).
Proof. induction a as [|x a IH]; cbn; [reflexivity | now rewrite IH]. Qed.

Lemma str_app_nil_r (a : string) : a ++ "" = a.
Proof. induction a as [|x a IH]; cbn; [reflexivity | now rewrite IH]. Qed.

Lemma str_length_app (a b : string) :
  String.length (a ++ b) = (String.length a + String.length b)%nat.
Proof. induction a as [|x a IH]; cbn; [reflexivity | now rewrite IH]. Qed.

Lemma str_app_inv_head (a b c : string) : a ++ b = a ++ c -> b = c.
Proof. induction a as [|x a IH]; cbn; [auto | intros [= H]; auto]. Qed.

Lemma all_chars_app (p : ascii -> bool) (a b : string) :
  Py.all_chars p (a ++ b) = Py.all_chars p a && Py.all_chars p b.
Proof.
  induction a as [|x a IH]; cbn; [reflexivity|].
  now rewrite IH, andb_assoc.
Qed.

Lemma all_chars_weaken (p q : ascii -> bool) (a : string) :
  (forall c, p c = true -> q c = true) ->
  Py.all_chars p a = true -> Py.all_chars q a = true.
Proof.
  intros Hpq. induction a as [|x a IH]; cbn; [reflexivity|].
  intros H. apply andb_true_iff in H as [Hx Ha].
  now rewrite (Hpq _ Hx), IH.
Qed.

Lemma rsplit_dot_no_dot (s : string) :
  no_dot s = true -> Py.rsplit_dot s = None.
Proof.
  unfold no_dot. induction s as [|c s IH]; cbn; [reflexivity|].
  intros H. apply andb_true_iff in H as [Hc Hs]. rewrite IH by exact Hs.
  now destruct (Ascii.eqb c ".").
Qed.

Lemma rsplit_dot_app (a b : string) :
  no_dot b = true -> Py.rsplit_dot (a ++ String "." b) = Some (a, b).
Proof.
  intros Hb. induction a as [|c a IH]; cbn.
  - now rewrite rsplit_dot_no_dot.
  - now rewrite IH.
Qed.

Lemma rsplit_dot_Some (s x y : string) :
  Py.rsplit_dot s = Some (x, y) -> s = x ++ String "." y /\ no_dot y = true.
Proof.
  revert x. induction s as [|c s IH]; intros x; cbn; [discriminate|].
  destruct (Py.rsplit_dot s) as [[b a]|] eqn:E.
  - intros [= <- <-]. destruct (IH b eq_refl) as [-> Hy]. now split.
  - destruct (Ascii.eqb c ".") eqn:Ec; [|discriminate].
    apply Ascii.eqb_eq in Ec. subst c. intros [= <- <-]. split; [reflexivity|].
    clear IH. revert E. unfold no_dot.
    induction s as [|c s IH]; cbn; [reflexivity|].
    destruct (Py.rsplit_dot s) as [[b a]|]; [discriminate|].
    destruct (Ascii.eqb c "."); [discriminate|]. intros _. now apply IH.
Qed.

Lemma stem_suffix (name : string) :
  PathLib.stem name ++ PathLib.suffix name = name.
Proof.
  unfold PathLib.stem, PathLib.suffix.
  destruct (Py.rsplit_dot name) as [[x y]|] eqn:E.
  - apply rsplit_dot_Some in E as [-> _].
    destruct x as [|c x]; [apply str_app_nil_r|].
    destruct y as [|d y]; [apply str_app_nil_r | reflexivity].
  - apply str_app_nil_r.
Qed.

(** A name with a suffix: the suffix is a dot and an extension without
    dot, and the stem is not empty. *)
Lemma suffix_shape (name : string) :
  PathLib.suffix name <> "" ->
  exists ext, PathLib.suffix name = String "." ext
              /\ no_dot ext = true /\ ext <> "" /\ PathLib.stem name <> "".
Proof.
  unfold PathLib.suffix, PathLib.stem.
  destruct (Py.rsplit_dot name) as [[x y]|] eqn:E; [|congruence].
  apply rsplit_dot_Some in E as [-> Hy].
  destruct x as [|c x]; [congruence|].
  destruct y as [|d y]; [congruence|].
  intros _. exists (String d y). repeat split; congruence.
Qed.

Lemma backup_path_eq (name : string) (seq : Z) :
  LogState.backup_path name seq
  = PathLib.stem name ++ String "." (Py.format_int seq ++ PathLib.suffix name).
Proof. reflexivity. Qed.

(** A backup name is never the active name. *)
Lemma backup_path_neq (name : string) (seq : Z) :
  LogState.backup_path name seq <> name.
Proof.
  rewrite backup_path_eq. intros H.
  rewrite <- (stem_suffix name) in H at 3.
  apply str_app_inv_head in H.
  apply (f_equal String.length) in H. cbn in H.
  rewrite str_length_app in H. lia.
Qed.

End NameFacts.

(* ================================================================== *)
(** ** The rollover threshold *)
(* ================================================================== *)

Section Threshold.
Import OS Sys Session.


End Threshold.

(* ================================================================== *)
(** ** UTF-8: decoding what was encoded *)
(* ================================================================== *)

Section Utf8.
Import Py.

Local Ltac Zify.zify_post_hook ::= Z.to_euclidean_division_equations.

Lemma is_surrogate_false (c : N) :
  is_surrogate c = false <-> (c < 0xD800 \/ 0xDFFF < c)%N.
Proof.
  unfold is_surrogate. rewrite andb_false_iff, N.leb_gt, N.leb_gt. tauto.
Qed.

Lemma is_cont_true (b : N) : (0x80 <= b <= 0xBF)%N -> is_cont b = true.
Proof.
  intros [H1 H2]. unfold is_cont.
  apply andb_true_iff. split; now apply N.leb_le.
Qed.

(** The decoder on one well-formed sequence of each length. *)
Lemma decode_1 (x0 : Byte.byte) (r : bytes) :
  (Byte.to_N x0 < 0x80)%N -> decode (x0 :: r) = Byte.to_N x0 :: decode r.
Proof.
  intros H. cbn [decode].
  replace (Byte.to_N x0 <? 0x80)%N with true
    by (symmetry; now apply N.ltb_lt).
  reflexivity.
Qed.

Lemma decode_2 (x0 x1 : Byte.byte) (r : bytes) :
  (0xC2 <= Byte.to_N x0 <= 0xDF)%N ->
  is_cont (Byte.to_N x1) = true ->
  decode (x0 :: x1 :: r)
  = ((Byte.to_N x0 - 0xC0) * 64 + (Byte.to_N x1 - 0x80))%N :: decode r.
Proof.
  intros [H1 H2] Hc. cbn [decode].
  replace (Byte.to_N x0 <? 0x80)%N with false
    by (symmetry; apply N.ltb_ge; lia).
  replace (0xC2 <=? Byte.to_N x0)%N with true
    by (symmetry; now apply N.leb_le).
  replace (Byte.to_N x0 <=? 0xDF)%N with true
    by (symmetry; now apply N.leb_le).
  cbn [andb]. now rewrite Hc.
Qed.

Lemma decode_3 (x0 x1 x2 : Byte.byte) (r : bytes) :
  (0xE0 <= Byte.to_N x0 <= 0xEF)%N ->
  second_ok (Byte.to_N x0) (Byte.to_N x1) = true ->
  is_cont (Byte.to_N x2) = true ->
  decode (x0 :: x1 :: x2 :: r)
  = ((Byte.to_N x0 - 0xE0) * 4096 + (Byte.to_N x1 - 0x80) * 64
     + (Byte.to_N x2 - 0x80))%N :: decode r.
Proof.
  intros [H1 H2] Hs Hc. cbn [decode].
  replace (Byte.to_N x0 <? 0x80)%N with false
    by (symmetry; apply N.ltb_ge; lia).
  replace (0xC2 <=? Byte.to_N x0)%N with true
    by (symmetry; apply N.leb_le; lia).
  replace (Byte.to_N x0 <=? 0xDF)%N with false
    by (symmetry; apply N.leb_gt; lia).
  replace (0xE0 <=? Byte.to_N x0)%N with true
    by (symmetry; now apply N.leb_le).
  replace (Byte.to_N x0 <=? 0xEF)%N with true
    by (symmetry; now apply N.leb_le).
  cbn [andb]. now rewrite Hs, Hc.
Qed.

Lemma decode_4 (x0 x1 x2 x3 : Byte.byte) (r : bytes) :
  (0xF0 <= Byte.to_N x0 <= 0xF4)%N ->
  second_ok (Byte.to_N x0) (Byte.to_N x1) = true ->
  is_cont (Byte.to_N x2) = true ->
  is_cont (Byte.to_N x3) = true ->
  decode (x0 :: x1 :: x2 :: x3 :: r)
  = ((Byte.to_N x0 - 0xF0) * 262144 + (Byte.to_N x1 - 0x80) * 4096
     + (Byte.to_N x2 - 0x80) * 64 + (Byte.to_N x3 - 0x80))%N :: decode r.
Proof.
  intros [H1 H2] Hs Hc2 Hc3. cbn [decode].
  replace (Byte.to_N x0 <? 0x80)%N with false
    by (symmetry; apply N.ltb_ge; lia).
  replace (0xC2 <=? Byte.to_N x0)%N with true
    by (symmetry; apply N.leb_le; lia).
  replace (Byte.to_N x0 <=? 0xDF)%N with false
    by (symmetry; apply N.leb_gt; lia).
  replace (0xE0 <=? Byte.to_N x0)%N with true
    by (symmetry; apply N.leb_le; lia).
  replace (Byte.to_N x0 <=? 0xEF)%N with false
    by (symmetry; apply N.leb_gt; lia).
  replace (0xF0 <=? Byte.to_N x0)%N with true
    by (symmetry; now apply N.leb_le).
  replace (Byte.to_N x0 <=? 0xF4)%N with true
    by (symmetry; now apply N.leb_le).
  cbn [andb]. now rewrite Hs, Hc2, Hc3.
Qed.

(** The second byte of a three-byte sequence falls in the range its lead
    byte asks for: past the overlong forms after [0xE0], short of the
    surrogates after [0xED]. *)
Lemma second_ok_3 (c : N) :
  (0x800 <= c < 0x10000)%N -> (c < 0xD800 \/ 0xDFFF < c)%N ->
  second_ok (0xE0 + c / 4096) (0x80 + (c / 64) mod 64) = true.
Proof.
  intros Hc Hs. unfold second_ok.
  destruct (N.eqb_spec (0xE0 + c / 4096) 0xE0) as [E|E].
  { apply andb_true_iff. split; apply N.leb_le; lia. }
  destruct (N.eqb_spec (0xE0 + c / 4096) 0xED) as [E1|E1].
  { apply andb_true_iff. split; apply N.leb_le; lia. }
  destruct (N.eqb_spec (0xE0 + c / 4096) 0xF0) as [E2|E2]; [lia|].
  destruct (N.eqb_spec (0xE0 + c / 4096) 0xF4) as [E3|E3]; [lia|].
  apply is_cont_true. lia.
Qed.

Lemma second_ok_4 (c : N) :
  (0x10000 <= c < 0x110000)%N ->
  second_ok (0xF0 + c / 262144) (0x80 + (c / 4096) mod 64) = true.
Proof.
  intros Hc. unfold second_ok.
  destruct (N.eqb_spec (0xF0 + c / 262144) 0xE0) as [E|E]; [lia|].
  destruct (N.eqb_spec (0xF0 + c / 262144) 0xED) as [E1|E1]; [lia|].
  destruct (N.eqb_spec (0xF0 + c / 262144) 0xF0) as [E2|E2].
  { apply andb_true_iff. split; apply N.leb_le; lia. }
  destruct (N.eqb_spec (0xF0 + c / 262144) 0xF4) as [E3|E3].
  { apply andb_true_iff. split; apply N.leb_le; lia. }
  apply is_cont_true. lia.
Qed.

Lemma decode_encode_char (c : N) (rest : bytes) :
  is_scalar c -> decode (encode_char c ++ rest) = c :: decode rest.
Proof.
  intros [Hcp Hs]. unfold is_code_point in Hcp.
  unfold encode_char.
  destruct (N.ltb_spec c 0x80) as [H1|H1].
  { cbn [app]. rewrite decode_1; rewrite to_N_byte_of_N by lia;
      [reflexivity | exact H1]. }
  destruct (N.ltb_spec c 0x800) as [H2|H2].
  { cbn [app]. rewrite decode_2; rewrite ?to_N_byte_of_N by lia.
    - f_equal. lia.
    - lia.
    - apply is_cont_true. lia. }
  destruct (N.ltb_spec c 0x10000) as [H3|H3].
  { rewrite Hs. apply is_surrogate_false in Hs.
    cbn [app]. rewrite decode_3; rewrite ?to_N_byte_of_N by lia.
    - f_equal. lia.
    - lia.
    - now apply second_ok_3.
    - apply is_cont_true. lia. }
  cbn [app]. rewrite decode_4; rewrite ?to_N_byte_of_N by lia.
  - f_equal. lia.
  - lia.
  - now apply second_ok_4.
  - apply is_cont_true. lia.
  - apply is_cont_true. lia.
Qed.

Lemma decode_encode (s : str) : Forall is_scalar s -> decode (encode s) = s.
Proof.
  induction 1 as [|c s Hc Hs IH]; [reflexivity|].
  unfold encode in *. cbn [flat_map].
  now rewrite decode_encode_char, IH.
Qed.

End Utf8.

(* ================================================================== *)
(** ** Reading frames back *)
(* ================================================================== *)

Section Deserialize.
Import OS Sys Session.

Lemma fh_read_app (a b : Py.bytes) :
  BinaryLogger.fh_read (Py.len a) (a ++ b) = (a, b).
Proof.
  induction a as [|x a IH].
  - cbn. destruct b; reflexivity.
  - cbn [app BinaryLogger.fh_read]. rewrite len_cons.
    replace (1 + Py.len a <=? 0) with false
      by (symmetry; apply Z.leb_gt; pose proof (len_nonneg a); lia).
    replace (1 + Py.len a - 1) with (Py.len a) by lia.
    now rewrite IH.
Qed.

Lemma fh_read_exact (n : Z) (a b : Py.bytes) :
  Py.len a = n -> BinaryLogger.fh_read n (a ++ b) = (a, b).
Proof. intros <-. apply fh_read_app. Qed.

Lemma fh_read_length (n : Z) (h : Py.bytes) :
  (List.length (fst (BinaryLogger.fh_read n h))
   + List.length (snd (BinaryLogger.fh_read n h)) = List.length h)%nat.
Proof.
  revert n. induction h as [|x h IH]; intros n; cbn; [reflexivity|].
  destruct (n <=? 0); cbn; [reflexivity|].
  specialize (IH (n - 1)).
  destruct (BinaryLogger.fh_read (n - 1) h) as [got left]. cbn in *. lia.
Qed.

(** The loop never uses up the budget [deserialize] gives it. *)
Lemma deserialize_loop_budget (budget : nat) (self : BinaryLogger.t)
      (handle : Py.bytes) (ys : list Py.str) (w : World) :
  (List.length handle < budget)%nat ->
  fst (fst (BinaryLogger.deserialize_loop budget self handle ys w))
  <> Raise LoopBudget.
Proof.
  revert handle ys. induction budget as [|b IH]; intros handle ys Hb; [lia|].
  cbn [BinaryLogger.deserialize_loop].
  pose proof (fh_read_length (Z.of_nat (BinaryLogger.length_bytesize self))
                             handle) as L1.
  destruct (BinaryLogger.fh_read _ handle) as [length_bytes handle1].
  cbn [fst snd] in L1.
  destruct (Py.len length_bytes =? 0) eqn:E0; [cbn; discriminate|].
  destruct (Py.len length_bytes <? _); [cbn; discriminate|].
  pose proof (fh_read_length (Py.from_bytes length_bytes) handle1) as L2.
  destruct (BinaryLogger.fh_read _ handle1) as [payload_buffer handle2].
  cbn [fst snd] in L2.
  destruct (negb _); [cbn; discriminate|].
  unfold bind, BinaryLogger.yield_, modify.
  apply IH. apply Z.eqb_neq in E0. unfold Py.len in E0. lia.
Qed.

Lemma deserialize_within_budget (self : BinaryLogger.t) (handle : Py.bytes)
      (ys : list Py.str) (w : World) :
  fst (fst (BinaryLogger.deserialize self handle ys w)) <> Raise LoopBudget.
Proof. apply deserialize_loop_budget. lia. Qed.

Lemma frame_length (payload : Py.str) :
  (4 <= List.length (frame payload))%nat.
Proof. unfold frame. rewrite length_app, be_digits_length. lia. Qed.

Lemma frames_length (payloads : list Py.str) :
  (List.length payloads <= List.length (frames payloads))%nat.
Proof.
  induction payloads as [|p ps IH]; [cbn; lia|].
  change (frames (p :: ps)) with (frame p ++ frames ps).
  rewrite length_app. pose proof (frame_length p). cbn [List.length]. lia.
Qed.

Lemma frames_app (ps qs : list Py.str) :
  frames (ps ++ qs) = frames ps ++ frames qs.
Proof. unfold frames. apply flat_map_app. Qed.

Lemma serialize_frame (self : BinaryLogger.t) (payload : Py.str) :
  BinaryLogger.length_bytesize self = 4%nat -> fits payload ->
  BinaryLogger.serialize self payload = Ok (frame payload).
Proof.
  intros Hw Hfit. rewrite serialize_fits by (rewrite Hw, pow_256_4; exact Hfit).
  now rewrite Hw.
Qed.

(** Frames of writable payloads read back as the payloads. *)
Lemma deserialize_loop_frames (self : BinaryLogger.t)
      (payloads : list Py.str) :
  BinaryLogger.length_bytesize self = 4%nat ->
  Forall writable payloads ->
  forall (budget : nat) (ys : list Py.str) (w : World),
    (List.length payloads < budget)%nat ->
    BinaryLogger.deserialize_loop budget self (frames payloads) ys w
    = (Ok tt, ys ++ payloads, w).
Proof.
  intros Hw Hps. induction Hps as [|p ps [Hsc Hfit] Hps IH];
    intros budget ys w Hb.
  - destruct budget as [|b]; [cbn in Hb; lia|]. cbn.
    now rewrite app_nil_r.
  - destruct budget as [|b]; [cbn in Hb; lia|].
    cbn [BinaryLogger.deserialize_loop]. rewrite Hw.
    change (frames (p :: ps)) with (frame p ++ frames ps).
    unfold frame at 1. rewrite <- app_assoc.
    destruct (@to_bytes_Some (Py.len (Py.encode p)) 4) as (_ & L & F).
    { rewrite pow_256_4. split; [apply len_nonneg | exact Hfit]. }
    rewrite (@fh_read_exact (Z.of_nat 4)
               (Py.be_digits 4 (Py.len (Py.encode p)))
               (Py.encode p ++ frames ps) (len_be_digits 4 _)).
    rewrite len_be_digits.
    change (Z.of_nat 4 =? 0) with false.
    change (Z.of_nat 4 <? Z.of_nat 4) with false. cbv iota.
    rewrite F, fh_read_app, Z.eqb_refl. cbn [negb].
    unfold bind, BinaryLogger.yield_, modify.
    rewrite decode_encode by exact Hsc.
    rewrite IH by (cbn in Hb; lia).
    now rewrite <- app_assoc.
Qed.

Lemma deserialize_frames (self : BinaryLogger.t) (payloads : list Py.str)
      (ys : list Py.str) (w : World) :
  BinaryLogger.length_bytesize self = 4%nat ->
  Forall writable payloads ->
  BinaryLogger.deserialize self (frames payloads) ys w
  = (Ok tt, ys ++ payloads, w).
Proof.
  intros Hw Hps. unfold BinaryLogger.deserialize.
  apply deserialize_loop_frames; auto.
  pose proof (frames_length payloads). lia.
Qed.

End Deserialize.

(* ================================================================== *)
(** ** Runs without faults *)
(* ================================================================== *)

Section FaultFree.
Import OS Sys Session.

Lemma syscall_run {S} (e : event) (s : S) (d : dir) (tr : list event) :
  syscall e s (mkWorld d [] tr) = (Ok tt, s, mkWorld d [] (e :: tr)).
Proof. reflexivity. Qed.

(** With no fault to come, a [write] on an open log whose active file is
    there returns, and no fault has appeared. *)
Lemma write_progress (payload : Py.str) (self : BinaryLogger.t) (w : World)
      (frame old : Py.bytes) :
  let st := BinaryLogger.file_state self in
  faults w = [] ->
  BinaryLogger.serialize self payload = Ok frame ->
  LogState.is_closed st = false ->
  lookup (LogState.file_path st) (files w) = Some old ->
  exists self' w',
    BinaryLogger.write payload self w = (Ok tt, self', w')
    /\ faults w' = [].
Proof.
  intros st Hf Hser Hopen Hold.
  destruct w as [d fs tr]. cbn in Hf, Hold. subst fs.
  destruct self as [fp [name max closed seq] width].
  cbn in st, Hopen, Hold. subst closed.
  assert (Hex : exists_ name d = true) by (apply exists_lookup; eauto).
  assert (Hold' := @lookup_append_same name frame old d Hold).
  assert (Hex' : exists_ name (append name frame d) = true)
    by (apply exists_lookup; eauto).
  unfold BinaryLogger.write, bind at 1, get at 1.
  unfold bind at 1, BinaryLogger.lift_result. rewrite Hser. unfold ret at 1.
  unfold zoom, with_lock, finally, bind at 1, log at 1. cbn [files faults trace].
  unfold bind at 1, get at 1. cbn [BinaryLogger.file_state LogState.is_closed].
  unfold try_except_OSError, fh_write, fh_flush, fh_tell.
  cbn [LogState.file_path LogState.max_file_size].
  unfold bind at 1. unfold bind at 1. rewrite syscall_run.
  unfold bind at 1, get_files at 1. cbn [files]. rewrite Hex.
  unfold set_files at 1. cbn [files faults trace].
  unfold bind at 1. rewrite syscall_run.
  unfold bind at 1. unfold bind at 1. rewrite syscall_run.
  unfold bind at 1, get_files at 1. cbn [files]. rewrite Hold'.
  unfold ret at 1.
  destruct (Py.len (old ++ frame) >=? max).
  - unfold LogState.rollover, with_lock, finally, bind at 1, log at 1.
    cbn [files faults trace].
    unfold bind at 1, LogState.close at 1, with_lock, finally.
    unfold bind at 1, log at 1. cbn [files faults trace].
    unfold bind at 1, get at 1. cbn [LogState.is_closed negb].
    unfold bind at 1, fh_close. rewrite syscall_run.
    unfold modify at 1, log at 1. cbn [files faults trace].
    unfold try_except_OSError, bind at 1, get at 1.
    unfold bind at 1, path_exists, bind at 1. rewrite syscall_run.
    unfold bind at 1, get_files at 1, ret at 1. cbn [files].
    cbn [LogState.set_is_closed LogState.file_path
         LogState.max_file_size LogState.next_rollover_seq].
    rewrite Hex'.
    unfold bind at 1. unfold bind at 1.
    unfold path_rename, bind at 1. rewrite syscall_run.
    unfold bind at 1, get_files at 1. cbn [files]. rewrite Hex'.
    unfold set_files at 1, modify at 1. cbn [files faults trace].
    unfold bind at 1, open_append, bind at 1. rewrite syscall_run.
    unfold bind at 1, get_files at 1, set_files at 1, modify at 1, log.
    cbn [files faults trace]. eexists _, _. split; reflexivity.
  - unfold log. cbn [files faults trace]. eexists _, _. split; reflexivity.
Qed.

End FaultFree.

(* ================================================================== *)
(** ** Backup names under [glob], [isdigit] and [int] *)
(* ================================================================== *)

Section BackupNames.
Import Session.
Local Open Scope string_scope.

Lemma string_of_uint_digits (d : Decimal.uint) :
  Py.all_chars is_ascii_digit (NilEmpty.string_of_uint d) = true.
Proof. induction d; cbn; auto. Qed.

Lemma string_of_to_uint_nonempty (n : N) :
  NilEmpty.string_of_uint (N.to_uint n) <> "".
Proof.
  intros H.
  pose proof (NilEmpty.usu (N.to_uint n)) as U. rewrite H in U. cbn in U.
  injection U as U.
  pose proof (DecimalN.Unsigned.of_to n) as O. rewrite <- U in O. cbn in O.
  subst n. discriminate.
Qed.

Lemma format_int_nonneg (seq : Z) :
  0 <= seq ->
  Py.format_int seq = NilEmpty.string_of_uint (N.to_uint (Z.to_N seq)).
Proof. destruct seq; [reflexivity | reflexivity | lia]. Qed.

Lemma int_format_int (seq : Z) :
  0 <= seq -> Py.int (Py.format_int seq) = Some seq.
Proof.
  intros H. rewrite format_int_nonneg by exact H. unfold Py.int.
  pose proof (string_of_to_uint_nonempty (Z.to_N seq)) as Hne.
  destruct (NilEmpty.string_of_uint (N.to_uint (Z.to_N seq))) eqn:E;
    [congruence|].
  rewrite <- E, NilEmpty.usu. cbn.
  rewrite DecimalN.Unsigned.of_to. f_equal. lia.
Qed.

Lemma isdigit_format_int (seq : Z) :
  0 <= seq -> Py.isdigit (Py.format_int seq) = true.
Proof.
  intros H. rewrite format_int_nonneg by exact H. unfold Py.isdigit.
  pose proof (string_of_to_uint_nonempty (Z.to_N seq)) as Hne.
  destruct (NilEmpty.string_of_uint (N.to_uint (Z.to_N seq))) eqn:E;
    [congruence|].
  rewrite <- E.
  apply all_chars_weaken with (p := is_ascii_digit);
    [|apply string_of_uint_digits].
  intros c Hc. unfold Py.isdigit_char. unfold is_ascii_digit in Hc.
  now rewrite Hc.
Qed.

Lemma no_dot_format_int (seq : Z) :
  0 <= seq -> no_dot (Py.format_int seq) = true.
Proof.
  intros H. rewrite format_int_nonneg by exact H. unfold no_dot.
  apply all_chars_weaken with (p := is_ascii_digit);
    [|apply string_of_uint_digits].
  intros c Hc. destruct (Ascii.eqb_spec c "."); [|reflexivity].
  subst c. discriminate.
Qed.

(** With a suffix on the active name, the token of a backup name is its
    sequence number. *)
Lemma seq_token_backup_path (name : string) (seq : Z) :
  PathLib.suffix name <> "" -> 0 <= seq ->
  Utilities.seq_token (LogState.backup_path name seq) = Py.format_int seq.
Proof.
  intros Hsuf Hseq.
  destruct (@suffix_shape name Hsuf) as (ext & Es & Hext & Hne & Hstem).
  rewrite backup_path_eq, Es.
  unfold Utilities.seq_token.
  remember (PathLib.stem name) as st eqn:Est.
  assert (Hre : st ++ String "." (Py.format_int seq ++ String "." ext)
                = (st ++ String "." (Py.format_int seq)) ++ String "." ext)
    by (rewrite str_app_assoc; reflexivity).
  rewrite Hre. unfold PathLib.stem. rewrite rsplit_dot_app by exact Hext.
  destruct st as [|c stem0]; [congruence|].
  cbn [append]. destruct ext as [|e ext0]; [congruence|].
  unfold Py.last_segment.
  change (String c (stem0 ++ String "." (Py.format_int seq)))
    with (String c stem0 ++ String "." (Py.format_int seq)).
  now rewrite rsplit_dot_app by (now apply no_dot_format_int).
Qed.

Lemma backup_path_inj (name : string) (i j : Z) :
  PathLib.suffix name <> "" -> 0 <= i -> 0 <= j ->
  LogState.backup_path name i = LogState.backup_path name j -> i = j.
Proof.
  intros Hsuf Hi Hj H.
  apply (f_equal Utilities.seq_token) in H.
  rewrite !seq_token_backup_path in H by assumption.
  apply (f_equal Py.int) in H. rewrite !int_format_int in H by assumption.
  congruence.
Qed.

(** *** The pattern of the backups *)

Lemma fnmatch_star_unfold (p s : string) :
  PathLib.fnmatch (String "*" p) s
  = PathLib.fnmatch p s
    || match s with
       | "" => false
       | String _ s' => PathLib.fnmatch (String "*" p) s'
       end.
Proof. destruct s; reflexivity. Qed.

Lemma fnmatch_literal (c : ascii) (p s : string) :
  Ascii.eqb c "*" = false ->
  PathLib.fnmatch (String c p) s
  = match s with
    | "" => false
    | String d s' => (Ascii.eqb c "?" || Ascii.eqb c d) && PathLib.fnmatch p s'
    end.
Proof. intros H. cbn [PathLib.fnmatch]. now rewrite H. Qed.

Lemma fnmatch_plain_prefix (x p s : string) :
  glob_plain x = true ->
  PathLib.fnmatch (x ++ p) (x ++ s) = PathLib.fnmatch p s.
Proof.
  unfold glob_plain. induction x as [|c x IH]; [reflexivity|].
  cbn [Py.all_chars append].
  intros H. apply andb_true_iff in H as [Hc Hx].
  apply negb_true_iff in Hc.
  apply orb_false_iff in Hc as [Hc _]. apply orb_false_iff in Hc as [Hc _].
  rewrite fnmatch_literal by exact Hc.
  rewrite Ascii.eqb_refl, orb_true_r. cbn [andb]. now apply IH.
Qed.

Lemma fnmatch_plain_refl (x : string) :
  glob_plain x = true -> PathLib.fnmatch x x = true.
Proof.
  intros H. rewrite <- (str_app_nil_r x).
  now rewrite fnmatch_plain_prefix.
Qed.

Lemma fnmatch_star (p t s : string) :
  PathLib.fnmatch p s = true ->
  PathLib.fnmatch (String "*" p) (t ++ s) = true.
Proof.
  intros H. induction t as [|c t IH]; cbn [append];
    rewrite fnmatch_star_unfold.
  - now rewrite H.
  - rewrite IH. apply orb_true_r.
Qed.

Lemma fnmatch_star_dot (q s : string) :
  no_dot s = true ->
  PathLib.fnmatch (String "*" (String "." q)) s = false.
Proof.
  unfold no_dot. induction s as [|c s IH]; [reflexivity|].
  cbn [Py.all_chars]. intros H. apply andb_true_iff in H as [Hc Hs].
  apply negb_true_iff in Hc. rewrite Ascii.eqb_sym in Hc.
  rewrite fnmatch_star_unfold, IH by exact Hs.
  rewrite fnmatch_literal by reflexivity.
  rewrite Hc. reflexivity.
Qed.

Lemma glob_plain_parts (name : string) :
  glob_plain name = true ->
  glob_plain (PathLib.stem name) = true
  /\ glob_plain (PathLib.suffix name) = true.
Proof.
  intros H. rewrite <- (stem_suffix name) in H. unfold glob_plain in *.
  rewrite all_chars_app in H. now apply andb_true_iff in H.
Qed.

Lemma backup_pattern_eq (name : string) :
  backup_pattern name
  = PathLib.stem name ++ String "." (String "*" (PathLib.suffix name)).
Proof. reflexivity. Qed.

(** The pattern finds every backup name. *)
Lemma fnmatch_backup_path (name : string) (seq : Z) :
  glob_plain name = true ->
  PathLib.fnmatch (backup_pattern name) (LogState.backup_path name seq)
  = true.
Proof.
  intros Hp. destruct (@glob_plain_parts name Hp) as [Hst Hsu].
  rewrite backup_pattern_eq, backup_path_eq.
  rewrite fnmatch_plain_prefix by exact Hst.
  rewrite fnmatch_literal by reflexivity.
  rewrite Ascii.eqb_refl, orb_true_r. cbn [andb].
  apply fnmatch_star. now apply fnmatch_plain_refl.
Qed.

(** The pattern does not find the active file. *)
Lemma fnmatch_active (name : string) :
  glob_plain name = true -> PathLib.suffix name <> "" ->
  PathLib.fnmatch (backup_pattern name) name = false.
Proof.
  intros Hp Hsuf. destruct (@glob_plain_parts name Hp) as [Hst Hsu].
  destruct (@suffix_shape name Hsuf) as (ext & Es & Hext & Hne & Hstem).
  rewrite backup_pattern_eq.
  rewrite <- (stem_suffix name) at 3.
  rewrite fnmatch_plain_prefix by exact Hst.
  rewrite Es. rewrite fnmatch_literal by reflexivity.
  rewrite Ascii.eqb_refl, orb_true_r. cbn [andb].
  now apply fnmatch_star_dot.
Qed.

End BackupNames.

(* ================================================================== *)
(** ** [sorted] *)
(* ================================================================== *)

Section Sorting.
Import Session.
Context {A : Type} (key : A -> Z).

Lemma insert_by_perm (x : A) (l : list A) :
  Permutation (Py.insert_by key x l) (x :: l).
Proof.
  induction l as [|y l IH]; cbn; [reflexivity|].
  destruct (key x <=? key y); [reflexivity|].
  rewrite IH. apply perm_swap.
Qed.

Lemma sorted_by_perm (l : list A) : Permutation (Py.sorted_by key l) l.
Proof.
  induction l as [|x l IH]; cbn; [reflexivity|].
  rewrite insert_by_perm. now constructor.
Qed.

Lemma insert_by_sorted (x : A) (l : list A) :
  Sorted (key_le key) l -> Sorted (key_le key) (Py.insert_by key x l).
Proof.
  induction 1 as [|y l Hl IH Hy]; cbn; [repeat constructor|].
  destruct (Z.leb_spec (key x) (key y)) as [Hxy|Hxy].
  - constructor; [now constructor | now constructor].
  - constructor; [exact IH|].
    destruct l as [|z l]; cbn.
    + constructor. unfold key_le. lia.
    + destruct (key x <=? key z); constructor; unfold key_le.
      * lia.
      * now inversion Hy.
Qed.

Lemma sorted_by_sorted (l : list A) : Sorted (key_le key) (Py.sorted_by key l).
Proof.
  induction l as [|x l IH]; cbn; [constructor | now apply insert_by_sorted].
Qed.

(** Sorting what is in order changes nothing. *)
Lemma sorted_by_id (l : list A) : Sorted (key_le key) l -> Py.sorted_by key l = l.
Proof.
  induction 1 as [|x l Hl IH Hx]; [reflexivity|].
  change (Py.sorted_by key (x :: l))
    with (Py.insert_by key x (Py.sorted_by key l)).
  rewrite IH. destruct Hx as [|y l' Hxy]; cbn; [reflexivity|].
  unfold key_le in Hxy.
  replace (key x <=? key y) with true by (symmetry; now apply Z.leb_le).
  reflexivity.
Qed.

End Sorting.

(* ================================================================== *)
(** ** A log from its first write on *)
(* ================================================================== *)

Lemma combine_snoc {A B} (l : list A) (l' : list B) (a : A) (b : B) :
  List.length l = List.length l' ->
  combine (l ++ [a]) (l' ++ [b]) = combine l l' ++ [(a, b)].
Proof.
  revert l'. induction l as [|x l IH]; intros [|y l'] H; cbn in *;
    try discriminate; [reflexivity|].
  f_equal. apply IH. now injection H.
Qed.

Section FreshLog.
Import OS Sys Session.

Variable name : string.
Variable max : Z.
Hypothesis name_suffix : PathLib.suffix name <> ""%string.
Hypothesis name_plain : glob_plain name = true.

Lemma backup_names_S (k : nat) :
  backup_names name (S k)
  = backup_names name k ++ [LogState.backup_path name (Z.of_nat k)].
Proof.
  unfold backup_names. rewrite seq_S, map_app. reflexivity.
Qed.

Lemma backup_names_length (k : nat) :
  List.length (backup_names name k) = k.
Proof. unfold backup_names. now rewrite length_map, length_seq. Qed.

Lemma backup_entries_snoc (chunks : list (list Py.str)) (c : list Py.str) :
  backup_entries name (chunks ++ [c])
  = backup_entries name chunks
    ++ [(LogState.backup_path name (Z.of_nat (List.length chunks)), c)].
Proof.
  unfold backup_entries. rewrite length_app. cbn [List.length].
  rewrite Nat.add_1_r, backup_names_S.
  now rewrite combine_snoc by (now rewrite backup_names_length).
Qed.

Lemma next_backup_absent (k : nat) (pre : dir) :
  filter (PathLib.fnmatch (backup_pattern name)) (map fst pre)
  = backup_names name k ->
  lookup (LogState.backup_path name (Z.of_nat k)) pre = None.
Proof.
  intros Hglob. apply lookup_None_names. intros Hin.
  assert (Hm : In (LogState.backup_path name (Z.of_nat k))
                  (backup_names name k)).
  { rewrite <- Hglob. apply filter_In. split; [exact Hin|].
    now apply fnmatch_backup_path. }
  unfold backup_names in Hm. apply in_map_iff in Hm as (i & Hi & Hin').
  apply in_seq in Hin'.
  apply backup_path_inj in Hi; [lia | exact name_suffix | lia | lia].
Qed.

(** The constructor where no log was before. *)
Lemma init_fresh (w0 : World) :
  0 < max ->
  faults w0 = [] ->
  lookup name (files w0) = None ->
  filter (PathLib.fnmatch (backup_pattern name)) (map fst (files w0)) = [] ->
  exists logger w1,
    BinaryLogger.init name max tt w0 = (Ok logger, tt, w1)
    /\ log_inv name max [] [] logger w1.
Proof.
  intros Hmax Hf Habs Hglob. destruct w0 as [d fs tr]. cbn in Hf, Habs, Hglob.
  subst fs.
  unfold BinaryLogger.init.
  replace (max <=? 0) with false by (symmetry; apply Z.leb_gt; lia).
  unfold bind at 1, LogState.init, bind at 1.
  unfold Utilities.get_last_rollover_seq, bind at 1.
  unfold Utilities.get_existing_backups, bind at 1.
  unfold path_glob, bind at 1, log at 1. cbn [files faults trace].
  unfold bind at 1, get_files at 1, ret at 1. cbn [files].
  fold (backup_pattern name). rewrite Hglob.
  cbn [filter negb Utilities.with_keys Py.sorted_by fold_right map rev app].
  unfold ret at 1. unfold ret at 1.
  change (@rev string []) with (@nil string). cbv beta iota.
  unfold bind at 1, mkdir_parents. rewrite syscall_run.
  unfold bind at 1, open_append, bind at 1. rewrite syscall_run.
  unfold bind at 1, get_files at 1, set_files at 1. cbn [files faults trace].
  unfold ret. rewrite create_absent by exact Habs.
  eexists _, _. split; [reflexivity|].
  split; cbn [List.length files faults].
  - reflexivity.
  - reflexivity.
  - exists d. split; [reflexivity|]. split; [exact Habs|].
    split; [exact Hglob | constructor].
  - constructor.
  - constructor.
Qed.

(** One more payload. *)
Lemma write_inv (chunks : list (list Py.str)) (cur : list Py.str)
      (logger : BinaryLogger.t) (w : World) (p : Py.str) :
  log_inv name max chunks cur logger w ->
  writable p ->
  exists chunks' cur' logger' w',
    BinaryLogger.write p logger w = (Ok tt, logger', w')
    /\ log_inv name max chunks' cur' logger' w'
    /\ List.concat chunks' ++ cur' = (List.concat chunks ++ cur) ++ [p].
Proof.
  intros [Hlg Hf (pre & Hfiles & Hname & Hglob & Hent) Hch Hcur] Hp.
  set (k := List.length chunks) in *.
  assert (Hser : BinaryLogger.serialize logger p = Ok (frame p)).
  { apply serialize_frame; [now subst logger | apply Hp]. }
  assert (Hold : lookup name (files w) = Some (frames cur)).
  { rewrite Hfiles, lookup_app, Hname. cbn. now rewrite String.eqb_refl. }
  destruct (@write_progress p logger w (frame p) (frames cur))
    as (logger' & w' & Hw & Hf'); auto.
  { now subst logger. }
  { now subst logger. }
  pose proof (write_Ok _ _ _ Hw) as Hinv.
  destruct Hinv as (frame' & old' & Hser' & _ & Hold' & Hcases).
  assert (frame' = frame p) by congruence. subst frame'.
  replace (LogState.file_path (BinaryLogger.file_state logger)) with name
    in * by (now subst logger).
  assert (old' = frames cur) by congruence. subst old'.
  assert (Hcat : frames cur ++ frame p = frames (cur ++ [p])).
  { rewrite frames_app. cbn. now rewrite app_nil_r. }
  assert (Hcur' : Forall writable (cur ++ [p])).
  { apply Forall_app. split; [exact Hcur | now constructor]. }
  rewrite Hfiles, append_last, Hcat in Hcases by exact Hname.
  destruct Hcases as [(_ & Hfiles' & ->) | (_ & Hfiles' & ->)].
  - exists chunks, (cur ++ [p]), logger, w'. split; [exact Hw|]. split.
    + split; auto. exists pre. auto.
    + now rewrite app_assoc.
  - replace (LogState.next_rollover_seq (BinaryLogger.file_state logger))
      with (Z.of_nat k) in * by (now subst logger).
    replace (LogState.max_file_size (BinaryLogger.file_state logger))
      with max in * by (now subst logger).
    set (bk := LogState.backup_path name (Z.of_nat k)) in *.
    assert (Hbk : lookup bk pre = None) by (now apply next_backup_absent).
    assert (Hne : name <> bk).
    { intros E. symmetry in E. now apply backup_path_neq in E. }
    rewrite rename_last in Hfiles' by auto.
    rewrite create_absent in Hfiles'.
    2:{ rewrite lookup_app, Hname. cbn.
        replace (String.eqb bk name) with false; [reflexivity|].
        symmetry. apply String.eqb_neq. congruence. }
    exists (chunks ++ [cur ++ [p]]), [],
      (BinaryLogger.set_file_state
         (LogState.mk name max false (Z.of_nat k + 1)) logger), w'.
    split; [exact Hw|]. split.
    + split.
      * subst logger. unfold BinaryLogger.set_file_state.
        cbn [BinaryLogger.file_path BinaryLogger.length_bytesize].
        rewrite length_app. cbn [List.length]. fold k.
        do 2 f_equal. lia.
      * exact Hf'.
      * exists (pre ++ [(bk, frames (cur ++ [p]))]). repeat split.
        -- exact Hfiles'.
        -- rewrite lookup_app, Hname. cbn.
           replace (String.eqb bk name) with false; [reflexivity|].
           symmetry. apply String.eqb_neq. congruence.
        -- rewrite map_app, filter_app, Hglob. cbn [map filter fst].
           unfold bk. rewrite fnmatch_backup_path by exact name_plain.
           rewrite length_app. cbn [List.length]. fold k.
           rewrite Nat.add_1_r. symmetry. apply backup_names_S.
        -- rewrite backup_entries_snoc. apply Forall_app. split.
           ++ eapply Forall_impl; [|exact Hent].
              intros [n qs] Hn. cbn in *. rewrite lookup_app, Hn. reflexivity.
           ++ constructor; [|constructor]. cbn [fst snd]. fold k bk.
              rewrite lookup_app, Hbk. cbn. now rewrite String.eqb_refl.
      * apply Forall_app. split; [exact Hch | now constructor].
      * constructor.
    + rewrite List.concat_app. cbn. now rewrite !app_nil_r, app_assoc.
Qed.

Lemma write_all_inv (ps : list Py.str) :
  Forall writable ps ->
  forall chunks cur logger w,
    log_inv name max chunks cur logger w ->
    exists chunks' cur' logger' w',
      write_all ps logger w = (Ok tt, logger', w')
      /\ log_inv name max chunks' cur' logger' w'
      /\ List.concat chunks' ++ cur' = (List.concat chunks ++ cur) ++ ps.
Proof.
  induction 1 as [|p ps Hp Hps IH]; intros chunks cur logger w Hinv.
  - exists chunks, cur, logger, w. split; [reflexivity|].
    split; [exact Hinv | now rewrite app_nil_r].
  - destruct (write_inv Hinv Hp) as (c1 & u1 & l1 & w1 & Hw & Hinv1 & E1).
    destruct (IH _ _ _ _ Hinv1) as (c2 & u2 & l2 & w2 & Hws & Hinv2 & E2).
    exists c2, u2, l2, w2. split; [|split; [exact Hinv2|]].
    + cbn [write_all]. unfold bind. now rewrite Hw.
    + rewrite E2, E1, <- app_assoc. reflexivity.
Qed.

Lemma with_keys_backups (l : list nat) :
  Utilities.with_keys
    (map (fun i => LogState.backup_path name (Z.of_nat i)) l)
  = Some (map (fun i => (LogState.backup_path name (Z.of_nat i), Z.of_nat i))
              l).
Proof.
  induction l as [|i l IH]; [reflexivity|].
  cbn [map Utilities.with_keys].
  rewrite seq_token_backup_path, int_format_int, IH by (auto; lia).
  reflexivity.
Qed.

Lemma keyed_backups_sorted (a k : nat) :
  Sorted (key_le snd)
         (map (fun i => (LogState.backup_path name (Z.of_nat i), Z.of_nat i))
              (seq a k)).
Proof.
  revert a. induction k as [|k IH]; intros a; cbn; [constructor|].
  constructor; [apply IH|].
  destruct k; cbn; constructor. unfold key_le. cbn. lia.
Qed.

Lemma backups_all_digits (k : nat) :
  filter (fun backup => Py.isdigit (Utilities.seq_token backup))
         (backup_names name k)
  = backup_names name k.
Proof.
  unfold backup_names. induction (seq 0 k) as [|i l IH]; [reflexivity|].
  cbn [map filter].
  rewrite seq_token_backup_path, isdigit_format_int by (auto; lia).
  now rewrite IH.
Qed.

(** What [get_existing_backups] finds in the directory of the invariant:
    the backups, oldest first. *)
Lemma get_existing_backups_inv {S} (chunks : list (list Py.str))
      (cur : list Py.str) (logger : BinaryLogger.t) (w : World) (s : S) :
  log_inv name max chunks cur logger w ->
  exists w',
    Utilities.get_existing_backups name true s w
    = (Ok (backup_names name (List.length chunks)), s, w')
    /\ files w' = files w /\ faults w' = [].
Proof.
  intros [Hlg Hf (pre & Hfiles & Hname & Hglob & Hent) Hch Hcur].
  unfold Utilities.get_existing_backups, bind at 1, path_glob.
  unfold bind at 1, log at 1. unfold bind at 1, get_files at 1, ret at 1.
  cbn [files faults trace]. fold (backup_pattern name).
  rewrite Hfiles, map_app, filter_app, Hglob. cbn [map filter fst].
  rewrite fnmatch_active by assumption. rewrite app_nil_r.
  rewrite backups_all_digits. cbn [negb].
  unfold backup_names at 1. rewrite with_keys_backups.
  rewrite sorted_by_id by apply keyed_backups_sorted.
  rewrite map_map. cbn [fst]. fold (backup_names name (List.length chunks)).
  unfold ret. eexists. split; [reflexivity|]. cbn. auto.
Qed.

Lemma read_loop_run (logger : BinaryLogger.t)
      (entries : list (string * list Py.str)) :
  BinaryLogger.length_bytesize logger = 4%nat ->
  forall (ys : list Py.str) (w : World),
    faults w = [] ->
    Forall (fun e => lookup (fst e) (files w) = Some (frames (snd e))
                     /\ Forall writable (snd e)) entries ->
    exists w',
      BinaryLogger.read_loop logger (map fst entries) ys w
      = (Ok tt, ys ++ List.concat (map snd entries), w')
      /\ files w' = files w /\ faults w' = [].
Proof.
  intros Hw. induction entries as [|[n qs] entries IH]; intros ys w Hf Hall.
  - exists w. cbn. now rewrite app_nil_r.
  - inversion Hall as [|e l [Hn Hqs] Hrest]; subst. cbn [fst snd] in Hn, Hqs.
    destruct w as [d fs tr]. cbn in Hf, Hn. subst fs.
    cbn [map fst BinaryLogger.read_loop].
    unfold bind at 1, try_except_OSError, bind at 1, open_read.
    unfold bind at 1. rewrite syscall_run.
    unfold bind at 1, get_files at 1. cbn [files]. rewrite Hn.
    unfold ret at 1. rewrite deserialize_frames by assumption.
    destruct (IH (ys ++ qs) (mkWorld d [] (EvOpenRead n :: tr)) eq_refl Hrest)
      as (w' & Hrun & Hfiles & Hfaults).
    exists w'. rewrite Hrun. cbn [map snd List.concat].
    rewrite <- app_assoc. auto.
Qed.

Lemma backup_entries_names (chunks : list (list Py.str)) :
  map fst (backup_entries name chunks)
  = backup_names name (List.length chunks).
Proof.
  unfold backup_entries.
  assert (G : forall (A B : Type) (l : list A) (l' : list B),
             List.length l = List.length l' -> map fst (combine l l') = l).
  { intros A B l. induction l as [|x l IH]; intros [|y l'] H; cbn in *;
      try discriminate; [reflexivity|]. f_equal. apply IH. now injection H. }
  apply G. apply backup_names_length.
Qed.

Lemma backup_entries_chunks (chunks : list (list Py.str)) :
  map snd (backup_entries name chunks) = chunks.
Proof.
  unfold backup_entries.
  assert (G : forall (A B : Type) (l : list A) (l' : list B),
             List.length l = List.length l' -> map snd (combine l l') = l').
  { intros A B l. induction l as [|x l IH]; intros [|y l'] H; cbn in *;
      try discriminate; [reflexivity|]. f_equal. apply IH. now injection H. }
  apply G. apply backup_names_length.
Qed.

(** [read] on the directory of the invariant yields what was written. *)
Lemma read_inv (chunks : list (list Py.str)) (cur : list Py.str)
      (logger : BinaryLogger.t) (w : World) :
  log_inv name max chunks cur logger w ->
  exists w',
    BinaryLogger.read logger None [] w
    = (Ok tt, List.concat chunks ++ cur, w').
Proof.
  intros Hinv.
  destruct (get_existing_backups_inv (@nil Py.str) Hinv)
    as (w1 & Hgeb & Hfiles1 & Hfaults1).
  destruct Hinv as [Hlg Hf (pre & Hfiles & Hname & Hglob & Hent) Hch Hcur].
  unfold BinaryLogger.read, bind at 1.
  replace (BinaryLogger.file_path logger) with name by (now subst logger).
  rewrite Hgeb.
  destruct (@read_loop_run logger (backup_entries name chunks ++ [(name, cur)]))
    with (ys := @nil Py.str) (w := w1) as (w' & Hrun & _).
  - now subst logger.
  - exact Hfaults1.
  - rewrite Hfiles1, Hfiles. apply Forall_app. split.
    + rewrite Forall_forall in *. intros e He. split.
      * rewrite lookup_app, (Hent e He). reflexivity.
      * assert (In (snd e) chunks).
        { rewrite <- (backup_entries_chunks chunks). now apply in_map. }
        auto.
    + constructor; [|constructor]. cbn [fst snd]. split; [|exact Hcur].
      rewrite lookup_app, Hname. cbn. now rewrite String.eqb_refl.
  - rewrite map_app, backup_entries_names in Hrun. cbn [map fst] in Hrun.
    rewrite Hrun, map_app, backup_entries_chunks, List.concat_app.
    cbn. rewrite app_nil_r. eauto.
Qed.

(** C1, as the code has it.  On an active name that has a suffix and no
    character special to [glob], in a directory that holds neither the
    active file nor a name the backup pattern matches, and with no I/O
    fault: for every sequence of payloads without surrogate code points
    and each encoded in fewer than 2^32 bytes, the constructor returns,
    every [write] returns, and [read] yields exactly the sequence, in
    order, across the backups and the active file, and ends normally. *)
Theorem write_read_round_trip (payloads : list Py.str) (w0 : World) :
  0 < max ->
  faults w0 = [] ->
  lookup name (files w0) = None ->
  filter (PathLib.fnmatch (backup_pattern name)) (map fst (files w0)) = [] ->
  Forall writable payloads ->
  round_trip name max payloads w0 = (Ok tt, payloads).
Proof.
  intros Hmax Hf Habs Hglob Hps. unfold round_trip.
  destruct (init_fresh w0 Hmax Hf Habs Hglob) as (logger & w1 & Hinit & Hinv).
  rewrite Hinit.
  destruct (write_all_inv Hps Hinv) as (chunks & cur & logger' & w2 & Hw & Hinv' & E).
  rewrite Hw.
  destruct (read_inv Hinv') as (w3 & Hr).
  rewrite Hr. cbn [fst]. now rewrite E.
Qed.

End FreshLog.

(* ================================================================== *)
(** ** The round trip and the threshold at concrete inputs *)
(* ================================================================== *)

Section Instances.
Import OS Sys Session.

Lemma of_string_scalar (s : string) :
  Py.all_chars (fun c => (N_of_ascii c <? 0xD800)%N) s = true ->
  Forall Py.is_scalar (Py.of_string s).
Proof.
  induction s as [|c s IH]; cbn; [constructor|].
  intros H. apply andb_true_iff in H as [Hc Hs].
  constructor; [|now apply IH].
  apply N.ltb_lt in Hc. split.
  - unfold Py.is_code_point. lia.
  - unfold Py.is_surrogate. apply andb_false_iff. left. apply N.leb_gt. lia.
Qed.

Lemma five_payloads_writable : Forall writable five_payloads.
Proof.
  unfold five_payloads. cbn [map].
  repeat constructor; try (apply of_string_scalar; reflexivity);
    reflexivity.
Qed.

Lemma write_read_round_trip_witness :
  round_trip "test.bin" 20 five_payloads busy_world = (Ok tt, five_payloads).
Proof.
  apply write_read_round_trip.
  - discriminate.
  - reflexivity.
  - reflexivity.
  - reflexivity.
  - reflexivity.
  - reflexivity.
  - exact five_payloads_writable.
Defined.

(** C1 as stated fails: a payload that is one lone surrogate, [U+D800],
    is a Python string; it is written as [b'?'] and read back as ["?"]. *)
Lemma round_trip_lone_surrogate :
  round_trip "test.bin" 1000 [[0xD800%N]] empty_world
  = (Ok tt, [Py.of_string "?"])
  /\ round_trip "test.bin" 1000 [[0xD800%N]] empty_world
     <> (Ok tt, [[0xD800%N]]).
Proof.
  assert (E : round_trip "test.bin" 1000 [[0xD800%N]] empty_world
              = (Ok tt, [Py.of_string "?"])) by (vm_compute; reflexivity).
  rewrite E. split; [reflexivity | discriminate].
Qed.



End Instances.

(* ================================================================== *)
(** ** Files made of frames *)
(* ================================================================== *)

Section FramesFacts.
Import OS Sys Quiet Session.

Lemma is_log_file_nil : is_log_file [].
Proof. exists []. split; [constructor | reflexivity]. Qed.

Lemma is_log_file_app (content : Py.bytes) (p : Py.str) :
  is_log_file content -> fits p -> is_log_file (content ++ frame p).
Proof.
  intros (ps & Hps & ->) Hp. exists (ps ++ [p]). split.
  - apply Forall_app. split; [exact Hps | now constructor].
  - rewrite frames_app. cbn. now rewrite app_nil_r.
Qed.

Lemma serialize_Ok_frame (self : BinaryLogger.t) (p : Py.str)
      (data : Py.bytes) :
  BinaryLogger.length_bytesize self = 4%nat ->
  BinaryLogger.serialize self p = Ok data ->
  fits p /\ data = frame p.
Proof.
  intros Hw. unfold BinaryLogger.serialize, Py.to_bytes. rewrite Hw.
  destruct (0 <=? Py.len (Py.encode p)); cbn [andb]; [|discriminate].
  destruct (Z.ltb_spec (Py.len (Py.encode p)) (256 ^ Z.of_nat 4))
    as [Hlt|Hge]; [|discriminate].
  intros [= <-]. split; [exact Hlt | reflexivity].
Qed.

End FramesFacts.

(* ================================================================== *)
(** ** The listing of backups where [int] reads every token *)
(* ================================================================== *)

Section Listing.
Import OS Sys Session.

Lemma listing_In (file_path f : string) (d : dir) :
  In f (listing file_path d)
  <-> In f (map fst d)
      /\ PathLib.fnmatch (backup_pattern file_path) f = true
      /\ Py.isdigit (Utilities.seq_token f) = true.
Proof. unfold listing. rewrite !filter_In. tauto. Qed.

Lemma get_existing_backups_unsorted {S} (file_path : string) (s : S)
      (w : World) :
  fst (Utilities.get_existing_backups file_path false s w)
  = (Ok (listing file_path (files w)), s).
Proof. reflexivity. Qed.

Lemma with_keys_Some (l : list string) (keyed : list (string * Z)) :
  Utilities.with_keys l = Some keyed ->
  keyed = map (fun p => (p, backup_key p)) l.
Proof.
  revert keyed. induction l as [|p l IH]; intros keyed; cbn.
  - now intros [= <-].
  - unfold backup_key. destruct (Py.int (Utilities.seq_token p)) as [k|];
      [|discriminate].
    destruct (Utilities.with_keys l) as [keyed'|]; [|discriminate].
    intros [= <-]. now rewrite (IH keyed' eq_refl).
Qed.

(** A sorted listing is the unsorted one rearranged in ascending order
    of the numbers [int] reads. *)
Lemma get_existing_backups_sorted {S} (file_path : string) (s s' : S)
      (w w' : World) (l : list string) :
  Utilities.get_existing_backups file_path true s w = (Ok l, s', w') ->
  Permutation l (listing file_path (files w))
  /\ Sorted (key_le backup_key) l.
Proof.
  unfold Utilities.get_existing_backups, path_glob, bind, log, get_files,
    ret, raise.
  cbn [negb files]. fold (backup_pattern file_path).
  fold (listing file_path (files w)).
  destruct (Utilities.with_keys (listing file_path (files w)))
    as [keyed|] eqn:K; [|discriminate].
  intros [= <- <- <-]. apply with_keys_Some in K. subst keyed.
  set (dec := map (fun p => (p, backup_key p)) (listing file_path (files w))).
  assert (Hall : forall e, In e (Py.sorted_by snd dec) ->
                           snd e = backup_key (fst e)).
  { intros e He.
    apply (Permutation_in _ (sorted_by_perm snd dec)) in He.
    unfold dec in He. apply in_map_iff in He as (q & <- & _). reflexivity. }
  split.
  - rewrite (sorted_by_perm snd dec). unfold dec. rewrite map_map. cbn.
    now rewrite map_id.
  - pose proof (sorted_by_sorted snd dec) as Hs.
    induction Hs as [|e l' Hl' IH Hhd]; cbn; [constructor|].
    constructor.
    + apply IH. intros e' He'. apply Hall. now right.
    + destruct Hhd as [|e' l'' Hle]; cbn; constructor.
      unfold key_le in *.
      rewrite <- (Hall e) by now left.
      rewrite <- (Hall e') by (right; now left). exact Hle.
Qed.

(** 2 sorts before 10. *)
Lemma get_existing_backups_numeric :
  fst (fst (Utilities.get_existing_backups "test.bin" true tt unordered_world))
  = Ok ["test.1.bin"; "test.2.bin"; "test.10.bin"]%string.
Proof. reflexivity. Qed.

Lemma sorted_last_max {A} (key : A -> Z) (l : list A) (x : A) :
  Sorted (key_le key) l ->
  forall l', rev l = x :: l' -> forall y, In y l -> key y <= key x.
Proof.
  intros Hs. apply Sorted_StronglySorted in Hs.
  2:{ intros a b c. unfold key_le. lia. }
  induction Hs as [|a l Hl IH Ha]; intros l' Hrev y Hy; [contradiction|].
  cbn in Hrev. destruct Hy as [<- | Hy].
  - destruct (rev l) as [|z r] eqn:E.
    + cbn in Hrev. injection Hrev as <- _. lia.
    + cbn in Hrev. injection Hrev as <- _.
      rewrite Forall_forall in Ha. apply Ha.
      apply in_rev. rewrite E. now left.
  - destruct (rev l) as [|z r] eqn:E.
    + apply in_rev in Hy. rewrite E in Hy. contradiction.
    + cbn in Hrev. injection Hrev as <- _. eapply IH; eauto.
Qed.

(** [get_last_rollover_seq], when it returns: -1 for an empty listing,
    and otherwise the largest number among the listed backups. *)
Lemma get_last_rollover_seq_max {S} (file_path : string) (s s' : S)
      (w w' : World) (n : Z) :
  Utilities.get_last_rollover_seq file_path s w = (Ok n, s', w') ->
  (listing file_path (files w) = [] /\ n = -1)
  \/ (exists p, In p (listing file_path (files w)) /\ n = backup_key p
                /\ forall q, In q (listing file_path (files w)) ->
                             backup_key q <= n).
Proof.
  unfold Utilities.get_last_rollover_seq. intros H.
  apply bind_Ok in H as (l & s1 & w1 & Hl & H).
  apply get_existing_backups_sorted in Hl as [Hperm Hsorted].
  destruct (rev l) as [|x r] eqn:E.
  - left. injection H as <- _ _. split; [|reflexivity].
    assert (l = []) by (now rewrite <- (rev_involutive l), E). subst l.
    now apply Permutation_nil in Hperm.
  - right. exists x.
    assert (Hx : In x l) by (apply in_rev; rewrite E; now left).
    unfold backup_key at 1.
    destruct (Py.int (Utilities.seq_token x)) as [k|] eqn:K; [|discriminate].
    injection H as <- _ _.
    split; [now apply (Permutation_in _ Hperm)|]. split; [reflexivity|].
    intros q Hq. apply (Permutation_in _ (Permutation_sym Hperm)) in Hq.
    pose proof (sorted_last_max Hsorted E q Hq) as Hle.
    unfold backup_key in Hle at 2. now rewrite K in Hle.
Qed.

(** The constructor, when it returns, sets the next sequence number past
    every listed backup, and never below 0. *)
Lemma init_next_rollover_seq {S} (file_path : string) (max : Z) (s s' : S)
      (w w' : World) (logger : BinaryLogger.t) :
  BinaryLogger.init file_path max s w = (Ok logger, s', w') ->
  let next := LogState.next_rollover_seq (BinaryLogger.file_state logger) in
  0 <= next
  /\ (listing file_path (files w) = [] -> next = 0)
  /\ forall q, In q (listing file_path (files w)) -> backup_key q < next.
Proof.
  intros H next. unfold BinaryLogger.init in H.
  destruct (max <=? 0); [discriminate|].
  apply bind_Ok in H as (st & s1 & w1 & Hst & H).
  injection H as <- _ _. unfold LogState.init in Hst.
  apply bind_Ok in Hst as (last_seq & s2 & w2 & Hlast & Hst).
  apply bind_Ok in Hst as (u1 & s3 & w3 & _ & Hst).
  apply bind_Ok in Hst as (u2 & s4 & w4 & _ & Hst).
  injection Hst as <- _ _. subst next. cbn.
  apply get_last_rollover_seq_max in Hlast
    as [[Hnil ->] | (p & Hp & -> & Hmax)].
  - split; [lia|]. split; [reflexivity|]. rewrite Hnil. contradiction.
  - split; [lia|]. split.
    + intros Hnil. rewrite Hnil in Hp. contradiction.
    + intros q Hq. specialize (Hmax q Hq). lia.
Qed.

End Listing.

(* ================================================================== *)
(** ** The steps of a thread, taken in one go *)
(* ================================================================== *)

Section RunFacts.
Import OS Sys.

Lemma bind_ext {S A B} (m m' : M S A) (k k' : A -> M S B) s w :
  (forall s w, m s w = m' s w) ->
  (forall a s w, k a s w = k' a s w) ->
  bind m k s w = bind m' k' s w.
Proof.
  intros Hm Hk. unfold bind. rewrite Hm.
  destruct (m' s w) as [[[a|e] s1] w1]; [apply Hk | reflexivity].
Qed.

Lemma try_ext {S A} (m m' h h' : M S A) s w :
  (forall s w, m s w = m' s w) ->
  (forall s w, h s w = h' s w) ->
  try_except_OSError m h s w = try_except_OSError m' h' s w.
Proof.
  intros Hm Hh. unfold try_except_OSError. rewrite Hm.
  destruct (m' s w) as [[[a|e] s1] w1]; [reflexivity|].
  destruct e; auto.
Qed.

Lemma with_lock_ext {S A} (m m' : M S A) s w :
  (forall s w, m s w = m' s w) -> with_lock m s w = with_lock m' s w.
Proof.
  intros Hm. unfold with_lock, bind, finally, log. now rewrite Hm.
Qed.

Lemma zoom_ext {S T A} (proj : S -> T) (upd : T -> S -> S) (m m' : M T A)
      s w :
  (forall t w, m t w = m' t w) -> zoom proj upd m s w = zoom proj upd m' s w.
Proof. intros Hm. unfold zoom. now rewrite Hm. Qed.

Lemma run_atom {S X} (act : M S X) s w : Task.run (Task.atom act) s w = act s w.
Proof. cbn. now destruct (act s w) as [[r s'] w']. Qed.

Lemma run_bind {S A B} (m : Task.t S A) (f : A -> Task.t S B) s w :
  Task.run (Task.bind m f) s w
  = bind (Task.run m) (fun a => Task.run (f a)) s w.
Proof.
  revert s w. induction m as [[a|e]|X act k IH|k IH|k IH]; intros s w; cbn.
  - reflexivity.
  - reflexivity.
  - unfold bind at 1. destruct (act s w) as [[r s'] w']. rewrite IH.
    reflexivity.
  - rewrite IH. reflexivity.
  - rewrite IH. reflexivity.
Qed.

Lemma run_try {S A} (m h : Task.t S A) s w :
  Task.run (Task.try_except_OSError m h) s w
  = try_except_OSError (Task.run m) (Task.run h) s w.
Proof.
  revert s w. induction m as [[a|e]|X act k IH|k IH|k IH]; intros s w; cbn.
  - reflexivity.
  - destruct e; reflexivity.
  - unfold try_except_OSError at 1. destruct (act s w) as [[r s'] w'].
    rewrite IH. reflexivity.
  - rewrite IH. reflexivity.
  - rewrite IH. reflexivity.
Qed.

Lemma run_finally_release {S A} (m : Task.t S A) s w :
  Task.run (Task.finally m (Task.Release (Task.Done (Ok tt)))) s w
  = finally (Task.run m) (log EvRelease) s w.
Proof.
  revert s w. induction m as [r|X act k IH|k IH|k IH]; intros s w; cbn.
  - reflexivity.
  - unfold finally at 1. destruct (act s w) as [[r s'] w']. rewrite IH.
    reflexivity.
  - rewrite IH. reflexivity.
  - rewrite IH. reflexivity.
Qed.

Lemma run_with_lock {S A} (body : Task.t S A) s w :
  Task.run (Task.with_lock body) s w = with_lock (Task.run body) s w.
Proof.
  unfold Task.with_lock, with_lock. cbn [Task.run].
  rewrite run_finally_release. reflexivity.
Qed.

Lemma run_zoom_file_state {A} (m : Task.t LogState.t A) s w :
  Task.run (Task.zoom BinaryLogger.file_state BinaryLogger.set_file_state m)
           s w
  = zoom BinaryLogger.file_state BinaryLogger.set_file_state (Task.run m) s w.
Proof.
  revert s w. induction m as [r|X act k IH|k IH|k IH]; intros s w; cbn.
  - unfold zoom. cbn. destruct s; reflexivity.
  - unfold zoom at 1 2. destruct (act _ w) as [[r t1] w1]. rewrite IH.
    unfold zoom. cbn. destruct (Task.run (k r) t1 w1) as [[r2 t2] w2].
    reflexivity.
  - rewrite IH. reflexivity.
  - rewrite IH. reflexivity.
Qed.

(** Each method, run step by step by a thread alone, is the method. *)
Lemma run_close s w : Task.run Threaded.close s w = LogState.close s w.
Proof.
  unfold Threaded.close, LogState.close. rewrite run_with_lock.
  apply with_lock_ext. clear. intros s w. rewrite run_bind.
  apply bind_ext; [intros; apply run_atom | clear; intros self s w].
  destruct (negb _); [|reflexivity].
  rewrite run_bind. apply bind_ext; intros; apply run_atom.
Qed.

Lemma run_rollover s w : Task.run Threaded.rollover s w = LogState.rollover s w.
Proof.
  unfold Threaded.rollover, LogState.rollover. rewrite run_with_lock.
  apply with_lock_ext. clear. intros s w. rewrite run_bind.
  apply bind_ext; [intros; apply run_close | clear; intros _ s w].
  rewrite run_try. apply try_ext; clear; intros s w.
  - rewrite run_bind.
    apply bind_ext; [intros; apply run_atom | clear; intros self s w].
    rewrite run_bind.
    apply bind_ext; [intros; apply run_atom | clear; intros there s w].
    rewrite run_bind. apply bind_ext; clear - self; intros.
    + destruct there; [|reflexivity].
      rewrite run_bind. apply bind_ext; intros; apply run_atom.
    + rewrite run_bind. apply bind_ext; intros; apply run_atom.
  - rewrite run_bind. apply bind_ext; intros; [apply run_atom | reflexivity].
Qed.

Lemma run_write_serialize (self : BinaryLogger.t) (payload : Py.str) s w :
  BinaryLogger.length_bytesize self = BinaryLogger.length_bytesize s ->
  Task.run (Threaded.write_serialize self payload) s w
  = BinaryLogger.write payload s w.
Proof.
  intros Hw. unfold Threaded.write_serialize, BinaryLogger.write.
  unfold bind at 1, get at 1. unfold bind at 1.
  assert (E : BinaryLogger.serialize self payload
              = BinaryLogger.serialize s payload).
  { unfold BinaryLogger.serialize. now rewrite Hw. }
  rewrite E. unfold Task.lift_result, BinaryLogger.lift_result.
  destruct (BinaryLogger.serialize s payload) as [data|e]; [|reflexivity].
  cbn [Task.bind]. unfold ret at 1. unfold Threaded.write_locked.
  rewrite run_zoom_file_state. apply zoom_ext. clear. intros s w.
  rewrite run_with_lock. apply with_lock_ext. clear. intros s w.
  rewrite run_bind.
  apply bind_ext; [intros; apply run_atom | clear; intros st s w].
  destruct (LogState.is_closed st); [reflexivity|].
  rewrite run_try. apply try_ext; clear; intros s w.
  - rewrite run_bind. apply bind_ext; [intros; apply run_atom | clear - st].
    intros _ s w. rewrite run_bind.
    apply bind_ext; [intros; apply run_atom | clear - st]. intros _ s w.
    rewrite run_bind.
    apply bind_ext; [intros; apply run_atom | clear - st]. intros size s w.
    destruct (size >=? _); [apply run_rollover | reflexivity].
  - rewrite run_bind. apply bind_ext; intros; [apply run_atom | reflexivity].
Qed.

End RunFacts.

(* ================================================================== *)
(** ** The lock *)
(* ================================================================== *)

Section LockDiscipline.
Import OS Sys Threaded Concurrency.

Lemma stable_zoom {X} (act : M LogState.t X) :
  stable (zoom BinaryLogger.file_state BinaryLogger.set_file_state act).
Proof.
  intros s w. unfold zoom.
  destruct (act (BinaryLogger.file_state s) w) as [[r t'] w']. reflexivity.
Qed.

(** Under the lock [write] gives the lock back on every path, whatever
    the system calls answer, and is over once it has. *)
Lemma write_locked_locked (data : Py.bytes) :
  exists k, write_locked data = Task.Acquire k /\ locked 1 k.
Proof.
  eexists. split; [reflexivity|].
  cbn [locked Task.zoom Task.finally Task.bind Task.atom].
  split; [apply stable_zoom|]. intros [st|e]; [|cbn; eauto].
  destruct (LogState.is_closed st); [cbn; eauto|].
  cbn [locked Task.zoom Task.finally Task.bind Task.atom
       Task.try_except_OSError].
  split; [apply stable_zoom|]. intros r1.
  assert (Hhandler :
    forall e : exn,
      @locked unit 1
        (Task.zoom BinaryLogger.file_state BinaryLogger.set_file_state
           (Task.finally
              (Task.try_except_OSError (Task.Done (Raise e))
                 (Task.bind (Task.atom (modify (LogState.set_is_closed true)))
                            (fun _ => Task.raise OSError)))
              (Task.Release (Task.Done (Ok tt)))))).
  { intros e. destruct e; cbn; eauto.
    split; [apply stable_zoom|]. intros [u|e]; cbn; eauto. }
  destruct r1 as [u1|e1]; [|apply Hhandler].
  cbn [locked Task.zoom Task.finally Task.bind Task.atom
       Task.try_except_OSError].
  split; [apply stable_zoom|]. intros [u2|e2]; [|apply Hhandler].
  cbn [locked Task.zoom Task.finally Task.bind Task.atom
       Task.try_except_OSError].
  split; [apply stable_zoom|]. intros [size|e3]; [|apply Hhandler].
  cbn [Task.bind].
  destruct (size >=? LogState.max_file_size st); [|cbn; eauto].
  (* the rollover *)
  unfold rollover, Task.with_lock, close.
  cbn [locked Task.zoom Task.finally Task.bind Task.atom
       Task.try_except_OSError Task.with_lock].
  split; [apply stable_zoom|].
  assert (Hout :
    forall e : exn,
      @locked unit 2
        (Task.zoom BinaryLogger.file_state BinaryLogger.set_file_state
           (Task.finally
              (Task.try_except_OSError
                 (Task.finally (Task.Done (Raise e))
                               (Task.Release (Task.Done (Ok tt))))
                 (Task.bind (Task.atom (modify (LogState.set_is_closed true)))
                            (fun _ => Task.raise OSError)))
              (Task.Release (Task.Done (Ok tt)))))).
  { intros e. cbn. destruct e; cbn; eauto.
    split; [apply stable_zoom|]. intros [u|e]; cbn; eauto. }
  assert (Hin :
    forall e : exn,
      @locked unit 2
        (Task.zoom BinaryLogger.file_state BinaryLogger.set_file_state
           (Task.finally
              (Task.try_except_OSError
                 (Task.finally
                    (Task.try_except_OSError (Task.Done (Raise e))
                       (Task.bind
                          (Task.atom (modify (LogState.set_is_closed true)))
                          (fun _ => Task.raise OSError)))
                    (Task.Release (Task.Done (Ok tt))))
                 (Task.bind (Task.atom (modify (LogState.set_is_closed true)))
                            (fun _ => Task.raise OSError)))
              (Task.Release (Task.Done (Ok tt)))))).
  { intros e. destruct e; cbn; eauto;
      (split; [apply stable_zoom|]); intros [u|e]; cbn; eauto;
      (split; [apply stable_zoom|]); intros [u'|e']; cbn; eauto. }
  intros [self|e]; [|cbn; destruct e; cbn; eauto;
                     (split; [apply stable_zoom|]); intros [u|e]; cbn; eauto].
  destruct (negb (LogState.is_closed self)).
  - cbn [locked Task.zoom Task.finally Task.bind Task.atom
         Task.try_except_OSError].
    split; [apply stable_zoom|].
    intros [u|e]; [|cbn; destruct e; cbn; eauto;
                    (split; [apply stable_zoom|]); intros [u|e]; cbn; eauto].
    cbn [locked Task.zoom Task.finally Task.bind Task.atom
         Task.try_except_OSError].
    split; [apply stable_zoom|].
    intros [u'|e]; [|cbn; destruct e; cbn; eauto;
                     (split; [apply stable_zoom|]); intros [u0|e]; cbn; eauto].
    cbn [locked Task.zoom Task.finally Task.bind Task.atom Task.ret
         Task.try_except_OSError].
    split; [apply stable_zoom|]. intros [self'|e]; [|apply Hin].
    cbn [locked Task.zoom Task.finally Task.bind Task.atom Task.ret
         Task.try_except_OSError].
    split; [apply stable_zoom|]. intros [there|e]; [|apply Hin].
    destruct there;
      cbn [locked Task.zoom Task.finally Task.bind Task.atom Task.ret
           Task.try_except_OSError].
    + split; [apply stable_zoom|]. intros [u1'|e]; [|apply Hin].
      cbn [locked Task.zoom Task.finally Task.bind Task.atom Task.ret
           Task.try_except_OSError].
      split; [apply stable_zoom|]. intros [u2'|e]; [|apply Hin].
      cbn [locked Task.zoom Task.finally Task.bind Task.atom Task.ret
           Task.try_except_OSError].
      split; [apply stable_zoom|]. intros [u3'|e]; [|apply Hin].
      cbn [locked Task.zoom Task.finally Task.bind Task.atom Task.ret
           Task.try_except_OSError].
      split; [apply stable_zoom|]. intros [u4'|e]; [|apply Hin].
      cbn. eauto.
    + split; [apply stable_zoom|]. intros [u3'|e]; [|apply Hin].
      cbn [locked Task.zoom Task.finally Task.bind Task.atom Task.ret
           Task.try_except_OSError].
      split; [apply stable_zoom|]. intros [u4'|e]; [|apply Hin].
      cbn. eauto.
  - cbn [locked Task.zoom Task.finally Task.bind Task.atom Task.ret
         Task.try_except_OSError].
    split; [apply stable_zoom|]. intros [self'|e]; [|apply Hin].
    cbn [locked Task.zoom Task.finally Task.bind Task.atom Task.ret
         Task.try_except_OSError].
    split; [apply stable_zoom|]. intros [there|e]; [|apply Hin].
    destruct there;
      cbn [locked Task.zoom Task.finally Task.bind Task.atom Task.ret
           Task.try_except_OSError].
    + split; [apply stable_zoom|]. intros [u1'|e]; [|apply Hin].
      cbn [locked Task.zoom Task.finally Task.bind Task.atom Task.ret
           Task.try_except_OSError].
      split; [apply stable_zoom|]. intros [u2'|e]; [|apply Hin].
      cbn [locked Task.zoom Task.finally Task.bind Task.atom Task.ret
           Task.try_except_OSError].
      split; [apply stable_zoom|]. intros [u3'|e]; [|apply Hin].
      cbn [locked Task.zoom Task.finally Task.bind Task.atom Task.ret
           Task.try_except_OSError].
      split; [apply stable_zoom|]. intros [u4'|e]; [|apply Hin].
      cbn. eauto.
    + split; [apply stable_zoom|]. intros [u3'|e]; [|apply Hin].
      cbn [locked Task.zoom Task.finally Task.bind Task.atom Task.ret
           Task.try_except_OSError].
      split; [apply stable_zoom|]. intros [u4'|e]; [|apply Hin].
      cbn. eauto.
Qed.

End LockDiscipline.

(* ================================================================== *)
(** ** Threads writing to one instance *)
(* ================================================================== *)

Section ConcurrentWrites.
Import OS Sys Session Threaded Concurrency.

Variable name : string.
Variable max : Z.
Hypothesis name_suffix : PathLib.suffix name <> ""%string.
Hypothesis name_plain : glob_plain name = true.
Variable pss : list (list Py.str).
Hypothesis pss_writable : Forall (Forall writable) pss.

Lemma set_nth_length {A} (i : nat) (x : A) (l : list A) :
  List.length (set_nth i x l) = List.length l.
Proof.
  revert i. induction l as [|y l IH]; intros [|i]; cbn; auto.
Qed.

Lemma nth_error_set_nth_eq {A} (i : nat) (x y : A) (l : list A) :
  nth_error l i = Some y -> nth_error (set_nth i x l) i = Some x.
Proof.
  revert i. induction l as [|z l IH]; intros [|i]; cbn; try discriminate; auto.
Qed.

Lemma nth_error_set_nth_neq {A} (i j : nat) (x : A) (l : list A) :
  i <> j -> nth_error (set_nth i x l) j = nth_error l j.
Proof.
  revert i j. induction l as [|z l IH]; intros [|i] [|j] H; cbn; auto.
  - congruence.
Qed.

Lemma set_nth_same {A} (i : nat) (x : A) (l : list A) :
  nth_error l i = Some x -> set_nth i x l = l.
Proof.
  revert i. induction l as [|z l IH]; intros [|i]; cbn; try discriminate.
  - now intros [= ->].
  - intros H. now rewrite IH.
Qed.

Lemma thread_inv_free own s w out own' s' w' out' j ps ws th :
  thread_inv name max own s w out j ps ws th ->
  free_of own j -> free_of own' j ->
  thread_inv name max own' s' w' out' j ps ws th.
Proof.
  intros H Hf Hf'.
  destruct H as [Hc _ E | Hc _ E | p t Hc He _ E
                 | p t d s1 w1 chunks cur Hc Ho].
  - now apply thread_idle.
  - now apply thread_returned.
  - now apply thread_entering with p t.
  - exfalso. exact (Hf d Ho).
Qed.

(** Thread [i] has moved; the others are where they were. *)
Lemma threads_inv_update written out c i th ps ws th' ws' own' s' w' out' :
  threads_inv name max pss written out c ->
  nth_error (threads c) i = Some th ->
  nth_error pss i = Some ps ->
  nth_error written i = Some ws ->
  BinaryLogger.length_bytesize s' = 4%nat ->
  thread_inv name max own' s' w' out' i ps ws' th' ->
  ((own' = owner c /\ s' = shared c /\ w' = world c /\ out' = out)
   \/ (forall j, j <> i -> free_of (owner c) j /\ free_of own' j)) ->
  (own' = None ->
   exists chunks cur,
     log_inv name max chunks cur s' w' /\ List.concat chunks ++ cur = out') ->
  (forall j d, own' = Some (j, d) -> (j < List.length (threads c))%nat) ->
  interleaved (set_nth i ws' written) out' ->
  threads_inv name max pss (set_nth i ws' written) out'
              (mkConfig (set_nth i th' (threads c)) own' s' w').
Proof.
  intros [Hwid Hlen Hwr Hall Hfree Hheld Hint] Hth Hps Hws Hwid' Hi Hothers
         Hfree' Hheld' Hint'.
  split; cbn [threads owner shared world].
  - exact Hwid'.
  - now rewrite set_nth_length.
  - now rewrite set_nth_length.
  - intros j thj Hj. destruct (Nat.eq_dec i j) as [<-|Hne].
    + rewrite (nth_error_set_nth_eq _ _ _ Hth) in Hj. injection Hj as <-.
      exists ps, ws'. split; [exact Hps|]. split; [|exact Hi].
      exact (nth_error_set_nth_eq _ _ _ Hws).
    + rewrite nth_error_set_nth_neq in Hj by exact Hne.
      destruct (Hall j thj Hj) as (psj & wsj & Hpsj & Hwsj & Hinvj).
      exists psj, wsj. split; [exact Hpsj|]. split.
      * now rewrite nth_error_set_nth_neq.
      * destruct Hothers as [(-> & -> & -> & ->) | Hfr]; [exact Hinvj|].
        destruct (Hfr j) as [F F']; [congruence|].
        exact (thread_inv_free _ _ _ Hinvj F F').
  - exact Hfree'.
  - intros j d Ho. rewrite set_nth_length. eauto.
  - exact Hint'.
Qed.

Lemma threads_inv_move written out c i th ps ws th' own' s' w' :
  threads_inv name max pss written out c ->
  nth_error (threads c) i = Some th ->
  nth_error pss i = Some ps ->
  nth_error written i = Some ws ->
  BinaryLogger.length_bytesize s' = 4%nat ->
  thread_inv name max own' s' w' out i ps ws th' ->
  ((own' = owner c /\ s' = shared c /\ w' = world c)
   \/ (forall j, j <> i -> free_of (owner c) j /\ free_of own' j)) ->
  (own' = None ->
   exists chunks cur,
     log_inv name max chunks cur s' w' /\ List.concat chunks ++ cur = out) ->
  (forall j d, own' = Some (j, d) -> (j < List.length (threads c))%nat) ->
  threads_inv name max pss written out
              (mkConfig (set_nth i th' (threads c)) own' s' w').
Proof.
  intros Hinv Hth Hps Hws Hwid' Hi Hothers Hfree' Hheld'.
  rewrite <- (set_nth_same _ _ Hws).
  eapply threads_inv_update; eauto.
  - destruct Hothers as [(-> & -> & ->) | Hfr]; auto.
  - rewrite (set_nth_same _ _ Hws). apply Hinv.
Qed.

Lemma free_of_other (i j d : nat) : j <> i -> free_of (Some (i, d)) j.
Proof. intros H d' E. congruence. Qed.

Lemma free_of_None (j : nat) : free_of None j.
Proof. intros d E. discriminate. Qed.

Lemma payload_writable i ps ws p rest :
  nth_error pss i = Some ps -> ps = ws ++ p :: rest -> writable p.
Proof.
  intros Hps E. apply nth_error_In in Hps.
  rewrite Forall_forall in pss_writable.
  specialize (pss_writable _ Hps). rewrite Forall_forall in pss_writable.
  apply pss_writable. subst ps. apply in_or_app. right. now left.
Qed.

(** One step of one thread. *)
Lemma step_inv written out c i :
  threads_inv name max pss written out c ->
  exists written' out', threads_inv name max pss written' out' (step i c).
Proof.
  intros Hinv. pose proof Hinv as [Hwid Hlen Hwr Hall Hfree Hheld Hint].
  unfold step. destruct (nth_error (threads c) i) as [th|] eqn:Hth; [|eauto].
  destruct (Hall i th Hth) as (ps & ws & Hps & Hws & Hi).
  assert (Hlt : (i < List.length (threads c))%nat).
  { apply nth_error_Some. congruence. }
  cbv zeta.
  destruct Hi as [Hc Hf E | Hc Hf E | p t Hc He Hf E
                  | p t d s1 w1 chunks cur Hc Ho Hl Hrun Hlog Hcat E].
  - (* between two calls *)
    rewrite Hc. destruct (pending th) as [|p rest] eqn:Hp; [eauto|].
    exists written, out. eapply threads_inv_move; eauto.
    apply thread_entering with p (write p); cbn; auto. now left.
  - (* the call has returned *)
    rewrite Hc. exists written, out. eapply threads_inv_move; eauto.
    apply thread_idle; cbn; auto.
  - (* before the lock *)
    rewrite Hc. destruct He as [-> | (k & -> & Hk & Hrun)].
    + unfold write. cbn [Task.bind Task.atom]. unfold get at 1.
      cbn [Task.bind].
      assert (Hp : writable p) by (eapply payload_writable; eauto).
      destruct (write_locked_locked (frame p)) as (k & Ek & Hk).
      assert (Ews : write_serialize (shared c) p = Task.Acquire k).
      { unfold write_serialize.
        rewrite serialize_frame by (auto; apply Hp).
        unfold Task.lift_result. cbn [Task.bind]. exact Ek. }
      rewrite Ews. exists written, out. eapply threads_inv_move; eauto.
      apply thread_entering with p (Task.Acquire k); cbn; auto.
      right. exists k. split; [reflexivity|]. split; [exact Hk|].
      intros s w Hs. rewrite <- Ews. apply run_write_serialize. congruence.
    + destruct (owner c) as [[j d]|] eqn:Ho.
      * replace (Nat.eqb j i) with false.
        2:{ symmetry. apply Nat.eqb_neq. intros ->. exact (Hf d eq_refl). }
        eauto.
      * destruct (Hfree eq_refl) as (chunks & cur & Hlog & Hcat).
        assert (Hp : writable p) by (eapply payload_writable; eauto).
        destruct (@write_inv name max name_suffix name_plain chunks cur
                             (shared c) (world c) p Hlog Hp)
          as (chunks' & cur' & s' & w' & Hw & Hlog' & Hcat').
        exists written, out. eapply threads_inv_move; eauto.
        -- eapply thread_inside with (p := p) (t := k) (d := 1%nat);
             cbn [current pending]; eauto.
           ++ rewrite <- Hw, <- (Hrun (shared c) (world c) Hwid).
              reflexivity.
           ++ now rewrite Hcat', Hcat.
        -- right. intros j Hj. rewrite Ho. split; [apply free_of_None|].
           now apply free_of_other.
        -- discriminate.
        -- intros j d [= <- <-]. exact Hlt.
  - (* under the lock *)
    rewrite Hc. destruct t as [r|X act k|k|k].
    + destruct Hl.
    + destruct Hl as [Hst Hk]. cbn [Task.run] in Hrun.
      pose proof (Hst (shared c) (world c)) as Hst'.
      destruct (act (shared c) (world c)) as [[r s2] w2] eqn:Hact.
      cbn [fst snd] in Hst'.
      exists written, out. eapply threads_inv_move; eauto.
      * congruence.
      * eapply thread_inside with (p := p) (t := k r) (d := d);
          cbn [current pending]; eauto.
      * right. intros j Hj. rewrite Ho. split; now apply free_of_other.
      * intros E'. congruence.
    + rewrite Ho, Nat.eqb_refl.
      exists written, out. eapply threads_inv_move; eauto.
      * eapply thread_inside with (p := p) (t := k) (d := S d);
          cbn [current pending]; eauto.
      * right. intros j Hj. rewrite Ho. split; now apply free_of_other.
      * discriminate.
      * intros j d' [= <- <-]. exact Hlt.
    + rewrite Ho. destruct d as [|d]; [destruct Hl|].
      rewrite Nat.eqb_refl. destruct d as [|d].
      * destruct Hl as (r & ->). cbn [Task.run] in Hrun.
        unfold log in Hrun. cbn [snd] in Hrun.
        injection Hrun as Er Es Ew. subst r s1 w1.
        exists (set_nth i (ws ++ [p]) written), (out ++ [p]).
        eapply threads_inv_update; eauto.
        -- apply thread_returned; cbn [current pending].
           ++ reflexivity.
           ++ apply free_of_None.
           ++ now rewrite <- app_assoc.
        -- right. intros j Hj. rewrite Ho. split; [now apply free_of_other|].
           apply free_of_None.
        -- discriminate.
        -- now apply interleaved_snoc.
      * exists written, out. eapply threads_inv_move; eauto.
        -- eapply thread_inside with (p := p) (t := k) (d := S d);
             cbn [current pending]; eauto.
        -- right. intros j Hj. rewrite Ho. split; now apply free_of_other.
        -- discriminate.
        -- intros j d' [= <- <-]. exact Hlt.
Qed.

Lemma exec_inv (schedule : list nat) :
  forall written out c,
    threads_inv name max pss written out c ->
    exists written' out',
      threads_inv name max pss written' out' (exec schedule c).
Proof.
  induction schedule as [|i schedule IH]; intros written out c Hinv;
    cbn; [eauto|].
  destruct (step_inv i Hinv) as (written1 & out1 & Hinv1).
  exact (IH _ _ _ Hinv1).
Qed.

Lemma start_inv (logger : BinaryLogger.t) (w1 : World) :
  log_inv name max [] [] logger w1 ->
  threads_inv name max pss (repeat [] (List.length pss)) []
              (start logger w1 pss).
Proof.
  intros Hlog. split; cbn [start threads owner shared world].
  - destruct Hlog as [-> _ _ _ _]. reflexivity.
  - apply length_map.
  - apply repeat_length.
  - intros i th Hth.
    rewrite nth_error_map in Hth.
    destruct (nth_error pss i) as [ps|] eqn:Hps; [|discriminate].
    injection Hth as <-. exists ps, []. split; [reflexivity|]. split.
    + apply nth_error_repeat. apply nth_error_Some. congruence.
    + apply thread_idle; cbn; auto. apply free_of_None.
  - intros _. exists [], []. split; [exact Hlog | reflexivity].
  - discriminate.
  - apply interleaved_nil.
Qed.

Lemma finished_thread (c : config) (i : nat) (th : thread) :
  finished c = true -> nth_error (threads c) i = Some th ->
  current th = None /\ pending th = [].
Proof.
  intros Hfin Hth. unfold finished in Hfin.
  rewrite forallb_forall in Hfin. apply nth_error_In in Hth.
  specialize (Hfin th Hth).
  destruct (current th); [discriminate|].
  destruct (pending th); [auto | discriminate].
Qed.

(** Once every call has returned the lock is free and every payload is
    in the log. *)
Lemma finished_inv written out c :
  threads_inv name max pss written out c ->
  finished c = true ->
  written = pss /\ owner c = None.
Proof.
  intros [Hwid Hlen Hwr Hall Hfree Hheld Hint] Hfin. split.
  - apply nth_error_ext. intros i.
    destruct (nth_error (threads c) i) as [th|] eqn:Hth.
    + destruct (Hall i th Hth) as (ps & ws & Hps & Hws & Hi).
      destruct (@finished_thread c i th Hfin Hth) as [Hc Hp].
      rewrite Hps, Hws. f_equal.
      destruct Hi as [_ _ E | Hc' _ _ | p t Hc' _ _ _
                      | p t d s1 w1 chunks cur Hc' _ _ _ _ _ _];
        try congruence.
      rewrite Hp, app_nil_r in E. congruence.
    + apply nth_error_None in Hth.
      assert (H1 : nth_error written i = None)
        by (apply nth_error_None; lia).
      assert (H2 : nth_error pss i = None) by (apply nth_error_None; lia).
      congruence.
  - destruct (owner c) as [[i d]|] eqn:Ho; [|reflexivity].
    pose proof (Hheld i d eq_refl) as Hlt.
    destruct (nth_error (threads c) i) as [th|] eqn:Hth.
    2:{ apply nth_error_None in Hth. lia. }
    destruct (Hall i th Hth) as (ps & ws & Hps & Hws & Hi).
    destruct (@finished_thread c i th Hfin Hth) as [Hc Hp].
    destruct Hi as [_ Hf _ | Hc' _ _ | p t Hc' _ _ _
                    | p t d' s1 w1 chunks cur Hc' _ _ _ _ _ _];
      try congruence.
Qed.

(** No call ends in an exception. *)
Lemma inv_none_raised written out c :
  threads_inv name max pss written out c -> none_raised c.
Proof.
  intros [Hwid Hlen Hwr Hall Hfree Hheld Hint].
  apply Forall_forall. intros th Hin e Hc.
  apply In_nth_error in Hin as (i & Hth).
  destruct (Hall i th Hth) as (ps & ws & Hps & Hws & Hi).
  destruct Hi as [Hc' _ _ | Hc' _ _ | p t Hc' He _ _
                  | p t d s1 w1 chunks cur Hc' _ Hl _ _ _ _];
    try congruence.
  - rewrite Hc in Hc'. injection Hc' as <-.
    destruct He as [E | (k & E & _)]; discriminate.
  - rewrite Hc in Hc'. injection Hc' as <-. destruct Hl.
Qed.

Lemma concat_set_nth_length {A} (i : nat) (ps : list A) (p : A)
      (written : list (list A)) :
  nth_error written i = Some ps ->
  List.length (List.concat (set_nth i (ps ++ [p]) written))
  = S (List.length (List.concat written)).
Proof.
  revert i. induction written as [|x written IH]; intros [|i] H;
    cbn in *; try discriminate.
  - injection H as ->. rewrite !length_app. cbn. lia.
  - rewrite !length_app, (IH i H). lia.
Qed.

Lemma interleaved_length {A} (written : list (list A)) (out : list A) :
  interleaved written out ->
  List.length out = List.length (List.concat written).
Proof.
  induction 1 as [n | written out i ps p H IH Hi].
  - induction n; cbn; auto.
  - rewrite length_app, (@concat_set_nth_length A i ps p written Hi), IH.
    cbn. lia.
Qed.

(** *** The threads do come to an end *)

Lemma exec_app (s1 s2 : list nat) (c : config) :
  exec (s1 ++ s2) c = exec s2 (exec s1 c).
Proof. unfold exec. apply fold_left_app. Qed.

Lemma exec_step (i n : nat) (c : config) :
  exec (repeat i (S n)) c = exec (repeat i n) (step i c).
Proof. reflexivity. Qed.

(** The thread that holds the lock gives it back, by steps of its own,
    and has then reached the end of its call. *)
Lemma drain (i : nat) (t : Task.t BinaryLogger.t unit) :
  forall d c th,
    nth_error (threads c) i = Some th ->
    current th = Some t ->
    owner c = Some (i, d) ->
    locked d t ->
    exists n r,
      owner (exec (repeat i n) c) = None
      /\ nth_error (threads (exec (repeat i n) c)) i
         = Some (mkThread (Some (Task.Done r)) (pending th))
      /\ forall j, j <> i ->
                   nth_error (threads (exec (repeat i n) c)) j
                   = nth_error (threads c) j.
Proof.
  induction t as [r|X act k IH|k IH|k IH]; intros d c th Hth Hc Ho Hl.
  - destruct Hl.
  - destruct Hl as [_ Hk].
    assert (Hstep : exists r s' w',
               step i c = mkConfig (set_nth i (mkThread (Some (k r)) (pending th))
                                            (threads c))
                                   (owner c) s' w').
    { unfold step. rewrite Hth, Hc.
      destruct (act (shared c) (world c)) as [[r s'] w']. eauto. }
    destruct Hstep as (r & s' & w' & Hstep).
    destruct (IH r d (step i c) (mkThread (Some (k r)) (pending th)))
      as (n & r' & Hown & Hi & Hothers).
    + rewrite Hstep. cbn [threads]. exact (nth_error_set_nth_eq _ _ _ Hth).
    + reflexivity.
    + rewrite Hstep. exact Ho.
    + apply Hk.
    + exists (S n), r'. rewrite exec_step. split; [exact Hown|].
      split; [exact Hi|]. intros j Hj. rewrite (Hothers j Hj), Hstep.
      cbn [threads]. apply nth_error_set_nth_neq. congruence.
  - assert (Hstep :
      step i c = mkConfig (set_nth i (mkThread (Some k) (pending th))
                                   (threads c))
                          (Some (i, S d)) (shared c)
                          (with_event EvAcquire (world c))).
    { unfold step. rewrite Hth, Hc, Ho, Nat.eqb_refl. reflexivity. }
    destruct (IH (S d) (step i c) (mkThread (Some k) (pending th)))
      as (n & r' & Hown & Hi & Hothers).
    + rewrite Hstep. cbn [threads]. exact (nth_error_set_nth_eq _ _ _ Hth).
    + reflexivity.
    + rewrite Hstep. reflexivity.
    + exact Hl.
    + exists (S n), r'. rewrite exec_step. split; [exact Hown|].
      split; [exact Hi|]. intros j Hj. rewrite (Hothers j Hj), Hstep.
      cbn [threads]. apply nth_error_set_nth_neq. congruence.
  - destruct d as [|d]; [destruct Hl|].
    assert (Hstep :
      step i c = mkConfig (set_nth i (mkThread (Some k) (pending th))
                                   (threads c))
                          (match d with
                           | O => None
                           | _ => Some (i, d)
                           end)
                          (shared c) (with_event EvRelease (world c))).
    { unfold step. rewrite Hth, Hc, Ho, Nat.eqb_refl. reflexivity. }
    destruct d as [|d].
    + destruct Hl as (r & ->). exists 1%nat, r. rewrite exec_step.
      cbn [repeat exec fold_left]. rewrite Hstep. cbn [owner threads].
      split; [reflexivity|].
      split; [exact (nth_error_set_nth_eq _ _ _ Hth)|].
      intros j Hj. apply nth_error_set_nth_neq. congruence.
    + destruct (IH (S d) (step i c) (mkThread (Some k) (pending th)))
        as (n & r' & Hown & Hi & Hothers).
      * rewrite Hstep. cbn [threads]. exact (nth_error_set_nth_eq _ _ _ Hth).
      * reflexivity.
      * rewrite Hstep. reflexivity.
      * exact Hl.
      * exists (S n), r'. rewrite exec_step. split; [exact Hown|].
        split; [exact Hi|]. intros j Hj. rewrite (Hothers j Hj), Hstep.
        cbn [threads]. apply nth_error_set_nth_neq. congruence.
Qed.

(** With the lock free, a thread left to run alone writes all its
    payloads, and leaves the others where they were. *)
Lemma finish_thread (i : nat) (m : nat) :
  forall c written out th,
    threads_inv name max pss written out c ->
    owner c = None ->
    nth_error (threads c) i = Some th ->
    (work th < m)%nat ->
    exists n,
      owner (exec (repeat i n) c) = None
      /\ nth_error (threads (exec (repeat i n) c)) i = Some (mkThread None [])
      /\ forall j, j <> i ->
                   nth_error (threads (exec (repeat i n) c)) j
                   = nth_error (threads c) j.
Proof.
  induction m as [|m IH]; intros c written out th Hinv Ho Hth Hm; [lia|].
  destruct (ti_thread Hinv i Hth) as (ps & ws & _ & _ & Hi).
  destruct (step_inv i Hinv) as (written1 & out1 & Hinv1).
  assert (Hnext :
    forall th1 own1 s1 w1,
      step i c = mkConfig (set_nth i th1 (threads c)) own1 s1 w1 ->
      own1 = None -> (work th1 < m)%nat ->
      exists n,
        owner (exec (repeat i n) c) = None
        /\ nth_error (threads (exec (repeat i n) c)) i
           = Some (mkThread None [])
        /\ forall j, j <> i ->
                     nth_error (threads (exec (repeat i n) c)) j
                     = nth_error (threads c) j).
  { intros th1 own1 s1 w1 Hstep Hown Hwork.
    destruct (IH (step i c) written1 out1 th1 Hinv1)
      as (n & Hown' & Hi' & Hothers).
    - rewrite Hstep. exact Hown.
    - rewrite Hstep. cbn [threads]. exact (nth_error_set_nth_eq _ _ _ Hth).
    - exact Hwork.
    - exists (S n). rewrite exec_step. split; [exact Hown'|].
      split; [exact Hi'|]. intros j Hj. rewrite (Hothers j Hj), Hstep.
      cbn [threads]. apply nth_error_set_nth_neq. congruence. }
  rewrite Ho in Hi.
  destruct Hi as [Hc _ _ | Hc _ _ | p t Hc He _ _
                  | p t d s1 w1 chunks cur _ Hown _ _ _ _ _];
    [| | |discriminate].
  - (* between two calls *)
    destruct th as [cur pend]. cbn [current pending] in *. subst cur.
    destruct pend as [|p rest].
    + exists 0%nat. cbn. auto.
    + eapply Hnext.
      * unfold step. rewrite Hth. cbn [current pending]. reflexivity.
      * exact Ho.
      * unfold work in *. cbn [current pending List.length] in *.
        unfold write. cbn [Task.bind Task.atom]. lia.
  - (* the call has returned *)
    eapply Hnext.
    + unfold step. rewrite Hth, Hc. reflexivity.
    + exact Ho.
    + unfold work in *. rewrite Hc in Hm. cbn [current pending]. lia.
  - destruct He as [-> | (k & -> & Hk & _)].
    + (* about to read [self] *)
      eapply Hnext.
      * unfold step. rewrite Hth, Hc. unfold write.
        cbn [Task.bind Task.atom]. unfold get at 1. cbn [Task.bind].
        reflexivity.
      * exact Ho.
      * unfold work in *. rewrite Hc in Hm. unfold write in Hm.
        cbn [Task.bind Task.atom] in Hm. cbn [current pending].
        unfold write_serialize, Task.lift_result.
        destruct (BinaryLogger.serialize (shared c) p) as [data|e];
          cbn [Task.bind]; [|lia].
        unfold write_locked, Task.with_lock. cbn [Task.zoom]. lia.
    + (* waiting for the lock, which is free *)
      assert (Hstep :
        step i c = mkConfig (set_nth i (mkThread (Some k) (pending th))
                                     (threads c))
                            (Some (i, 1%nat)) (shared c)
                            (with_event EvAcquire (world c))).
      { unfold step. rewrite Hth, Hc, Ho. reflexivity. }
      assert (Hth1 : nth_error (threads (step i c)) i
                     = Some (mkThread (Some k) (pending th))).
      { rewrite Hstep. cbn [threads]. exact (nth_error_set_nth_eq _ _ _ Hth). }
      destruct (@drain i k 1%nat (step i c) _ Hth1 eq_refl)
        as (n1 & r & Hown1 & Hi1 & Hothers1).
      { rewrite Hstep. reflexivity. }
      { exact Hk. }
      destruct (exec_inv (repeat i n1) Hinv1) as (written2 & out2 & Hinv2).
      destruct (IH _ written2 out2 _ Hinv2 Hown1 Hi1)
        as (n2 & Hown2 & Hi2 & Hothers2).
      { unfold work in *. rewrite Hc in Hm. cbn [current pending]. lia. }
      exists (S (n1 + n2)). rewrite exec_step, repeat_app, exec_app.
      split; [exact Hown2|]. split; [exact Hi2|].
      intros j Hj. rewrite (Hothers2 j Hj), (Hothers1 j Hj), Hstep.
      cbn [threads]. apply nth_error_set_nth_neq. congruence.
Qed.

(** The lock is given back. *)
Lemma release_lock written out c :
  threads_inv name max pss written out c ->
  exists schedule, owner (exec schedule c) = None.
Proof.
  intros Hinv. destruct (owner c) as [[i d]|] eqn:Ho.
  2:{ exists []. exact Ho. }
  pose proof (ti_held Hinv Ho) as Hlt.
  destruct (nth_error (threads c) i) as [th|] eqn:Hth.
  2:{ apply nth_error_None in Hth. lia. }
  destruct (ti_thread Hinv i Hth) as (ps & ws & _ & _ & Hi).
  rewrite Ho in Hi.
  destruct Hi as [_ Hf _ | _ Hf _ | p t _ _ Hf _
                  | p t d' s1 w1 chunks cur Hc Hown Hl _ _ _ _];
    try (exfalso; exact (Hf d eq_refl)).
  injection Hown as <-.
  destruct (@drain i t d c th Hth Hc Ho Hl) as (n & r & Hown & _).
  exists (repeat i n). exact Hown.
Qed.

(** One thread after the other. *)
Lemma finish_threads (k : nat) :
  forall written out c,
    threads_inv name max pss written out c ->
    owner c = None ->
    exists schedule,
      owner (exec schedule c) = None
      /\ forall j th,
           (j < k)%nat ->
           nth_error (threads (exec schedule c)) j = Some th ->
           th = mkThread None [].
Proof.
  induction k as [|k IH]; intros written out c Hinv Ho.
  - exists []. split; [exact Ho|]. intros j th Hj. lia.
  - destruct (IH written out c Hinv Ho) as (s1 & Ho1 & Hdone).
    destruct (exec_inv s1 Hinv) as (written1 & out1 & Hinv1).
    destruct (nth_error (threads (exec s1 c)) k) as [thk|] eqn:Hk.
    + destruct (@finish_thread k (S (work thk)) _ written1 out1 thk Hinv1 Ho1 Hk)
        as (n & Ho2 & Hk2 & Hothers); [lia|].
      exists (s1 ++ repeat k n). rewrite exec_app. split; [exact Ho2|].
      intros j th Hj Hth. destruct (Nat.eq_dec j k) as [->|Hne].
      * congruence.
      * rewrite (Hothers j Hne) in Hth. apply (Hdone j th); [lia | exact Hth].
    + exists s1. split; [exact Ho1|]. intros j th Hj Hth.
      destruct (Nat.eq_dec j k) as [->|Hne]; [congruence|].
      apply (Hdone j th); [lia | exact Hth].
Qed.

(** However far the threads have come, they can be let run until every
    call has returned. *)
Lemma threads_can_finish written out c :
  threads_inv name max pss written out c ->
  exists more, finished (exec more c) = true.
Proof.
  intros Hinv. destruct (release_lock Hinv) as (s1 & Ho1).
  destruct (exec_inv s1 Hinv) as (written1 & out1 & Hinv1).
  destruct (@finish_threads (List.length pss) written1 out1 _ Hinv1 Ho1)
    as (s2 & _ & Hdone).
  exists (s1 ++ s2). rewrite exec_app.
  destruct (exec_inv s2 Hinv1) as (written2 & out2 & Hinv2).
  unfold finished. apply forallb_forall. intros th Hin.
  apply In_nth_error in Hin as (j & Hj).
  assert (Hlt : (j < List.length pss)%nat).
  { rewrite <- (ti_threads Hinv2). apply nth_error_Some. congruence. }
  rewrite (Hdone j th Hlt Hj). reflexivity.
Qed.

(** C9, as the code has it.  On an active name that has a suffix and no
    character special to [glob], in a directory that holds neither the
    active file nor a name the backup pattern matches, with no I/O fault,
    and for payloads without surrogate code points, each encoded in
    fewer than 2^32 bytes: however the scheduler interleaves the steps
    of the threads, the constructor returns, no [write] raises, the
    threads can be let run on until every call has returned, and once
    every call has returned [read] ends normally and yields as many
    payloads as were written, each whole, such that the payloads of each
    thread appear in the order the thread wrote them. *)
Theorem concurrent_writes_interleave (schedule : list nat) (w0 : World) :
  0 < max ->
  faults w0 = [] ->
  lookup name (files w0) = None ->
  filter (PathLib.fnmatch (backup_pattern name)) (map fst (files w0)) = [] ->
  exists c,
    run_threads name max pss schedule w0 = Ok c
    /\ none_raised c
    /\ (exists more, finished (exec more c) = true)
    /\ (finished c = true ->
        exists out,
          read_back c = (Ok tt, out)
          /\ interleaved pss out
          /\ List.length out = List.length (List.concat pss)).
Proof.
  intros Hmax Hf Habs Hglob. unfold run_threads.
  destruct (@init_fresh name max w0 Hmax Hf Habs Hglob)
    as (logger & w1 & Hinit & Hlog).
  rewrite Hinit. eexists. split; [reflexivity|].
  destruct (exec_inv schedule (start_inv Hlog)) as (written & out & Hinv).
  split; [exact (inv_none_raised Hinv)|].
  split; [exact (threads_can_finish Hinv)|].
  intros Hfin. destruct (finished_inv Hinv Hfin) as [-> Ho].
  destruct (ti_free Hinv Ho) as (chunks & cur & Hlog' & Hcat).
  destruct (@read_inv name max name_suffix name_plain chunks cur _ _ Hlog')
    as (w' & Hr).
  exists out. unfold read_back. rewrite Hr, Hcat. cbn [fst].
  split; [reflexivity|]. split; [exact (ti_merged Hinv)|].
  exact (interleaved_length (ti_merged Hinv)).
Qed.

End ConcurrentWrites.

Section ThreadsInstances.
Import OS Sys Session Threaded Concurrency.

Lemma two_threads_writable : Forall (Forall writable) two_threads.
Proof.
  unfold two_threads. cbn [map].
  repeat constructor; try (apply of_string_scalar; reflexivity);
    reflexivity.
Qed.

Lemma in_set_nth {A} (i : nat) (x y : A) (l : list A) :
  In x l -> In x (set_nth i y l) \/ nth_error l i = Some x.
Proof.
  revert i. induction l as [|z l IH]; intros [|i] H; cbn in *; auto.
  - destruct H as [-> | H]; auto.
  - destruct H as [-> | H]; auto. destruct (IH i H); auto.
Qed.

(** What an interleaving holds was written by one of the threads. *)
Lemma interleaved_In {A} (written : list (list A)) (out : list A) (q : A) :
  interleaved written out -> In q out ->
  exists ps, In ps written /\ In q ps.
Proof.
  induction 1 as [n | written out i ps p H IH Hi]; intros Hq.
  - destruct Hq.
  - assert (Hnew : In (ps ++ [p]) (set_nth i (ps ++ [p]) written)).
    { eapply nth_error_In, nth_error_set_nth_eq, Hi. }
    apply in_app_or in Hq as [Hq | [<- | []]].
    + destruct (IH Hq) as (ps0 & Hin & Hq0).
      destruct (@in_set_nth _ i ps0 (ps ++ [p]) written Hin) as [Hin' | Hsame].
      * exists ps0. auto.
      * exists (ps ++ [p]). split; [exact Hnew|].
        apply in_or_app. left. congruence.
    + exists (ps ++ [p]). split; [exact Hnew|].
      apply in_or_app. right. now left.
Qed.

Lemma concurrent_writes_interleave_witness :
  exists c,
    run_threads "test.bin" 20 two_threads (uneven 60) empty_world = Ok c
    /\ finished c = true
    /\ exists out,
         read_back c = (Ok tt, out)
         /\ interleaved two_threads out
         /\ List.length out = 6%nat.
Proof.
  destruct (@concurrent_writes_interleave "test.bin" 20) with
    (pss := two_threads) (schedule := uneven 60) (w0 := empty_world)
    as (c & Hrun & _ & _ & Hread).
  - discriminate.
  - reflexivity.
  - exact two_threads_writable.
  - reflexivity.
  - reflexivity.
  - reflexivity.
  - reflexivity.
  - assert (Hfin : finished c = true).
    { assert (E : match run_threads "test.bin" 20 two_threads (uneven 60)
                                    empty_world with
                  | Ok c' => finished c'
                  | Raise _ => false
                  end = true) by (vm_compute; reflexivity).
      now rewrite Hrun in E. }
    exists c. split; [exact Hrun|]. split; [exact Hfin|].
    exact (Hread Hfin).
Defined.

(** C9 as stated fails for a payload that is one lone surrogate: one
    thread writes it, the call returns, and [read] yields ["?"]. *)
Lemma threads_lone_surrogate :
  exists c,
    run_threads "test.bin" 1000 [[[0xD800%N]]] (repeat 0%nat 9) empty_world
    = Ok c
    /\ finished c = true
    /\ read_back c = (Ok tt, [Py.of_string "?"])
    /\ ~ interleaved [[[0xD800%N]]] [Py.of_string "?"].
Proof.
  assert (E : match run_threads "test.bin" 1000 [[[0xD800%N]]]
                                (repeat 0%nat 9) empty_world with
              | Ok c => (finished c, read_back c)
              | Raise _ => (false, (Ok tt, []))
              end = (true, (Ok tt, [Py.of_string "?"])))
    by (vm_compute; reflexivity).
  destruct (run_threads "test.bin" 1000 [[[0xD800%N]]] (repeat 0%nat 9)
                        empty_world) as [c|e]; [|discriminate].
  injection E as Hfin Hread.
  exists c. split; [reflexivity|]. split; [exact Hfin|].
  split; [exact Hread|].
  intros Hint.
  destruct (@interleaved_In _ _ _ (Py.of_string "?") Hint) as (ps & Hps & Hq).
  - now left.
  - destruct Hps as [<- | []]. destruct Hq as [Hq | []]. discriminate.
Qed.

End ThreadsInstances.

(* ================================================================== *)
(** ** Frames, read back *)
(* ================================================================== *)

Section Framing.
Import OS Sys Session.

Lemma decode_encode_char_lossy (c : N) (rest : Py.bytes) :
  Py.is_code_point c ->
  Py.decode (Py.encode_char c ++ rest)
  = (if Py.is_surrogate c then 63%N else c) :: Py.decode rest.
Proof.
  intros Hcp. destruct (Py.is_surrogate c) eqn:Hs.
  - unfold Py.encode_char. rewrite Hs.
    unfold Py.is_surrogate in Hs. apply andb_true_iff in Hs as [H1 H2].
    apply N.leb_le in H1, H2.
    replace (c <? 0x80)%N with false by (symmetry; apply N.ltb_ge; lia).
    replace (c <? 0x800)%N with false by (symmetry; apply N.ltb_ge; lia).
    replace (c <? 0x10000)%N with true by (symmetry; apply N.ltb_lt; lia).
    reflexivity.
  - apply decode_encode_char. now split.
Qed.

Lemma decode_encode_lossy (s : Py.str) :
  Forall Py.is_code_point s -> Py.decode (Py.encode s) = lossy s.
Proof.
  induction 1 as [|c s Hc Hs IH]; [reflexivity|].
  unfold Py.encode in *. cbn [flat_map lossy map].
  now rewrite decode_encode_char_lossy, IH.
Qed.

Lemma fh_read_all (n : Z) (h : Py.bytes) :
  Py.len h <= n -> BinaryLogger.fh_read n h = (h, []).
Proof.
  revert n. induction h as [|x h IH]; intros n Hn; [reflexivity|].
  rewrite len_cons in Hn. pose proof (len_nonneg h).
  cbn [BinaryLogger.fh_read].
  replace (n <=? 0) with false by (symmetry; apply Z.leb_gt; lia).
  rewrite IH by lia. reflexivity.
Qed.

(** What [__serialize] returns, when it returns. *)
Lemma serialize_shape (self : BinaryLogger.t) (p : Py.str) (f : Py.bytes) :
  BinaryLogger.length_bytesize self = 4%nat ->
  BinaryLogger.serialize self p = Ok f ->
  f = Py.be_digits 4 (Py.len (Py.encode p)) ++ Py.encode p
  /\ 0 <= Py.len (Py.encode p) < 2 ^ 32.
Proof.
  intros Hw H. destruct (serialize_Ok_frame _ _ Hw H) as [Hfit ->].
  split; [reflexivity|]. split; [apply len_nonneg | exact Hfit].
Qed.

(** The loop reads the frames at the head of a file one by one, and
    goes on with what follows them. *)
Lemma deserialize_loop_head (self : BinaryLogger.t) (ps : list Py.str)
      (fs : list Py.bytes) :
  BinaryLogger.length_bytesize self = 4%nat ->
  Forall2 (fun p f => BinaryLogger.serialize self p = Ok f) ps fs ->
  forall (budget : nat) (tail : Py.bytes) (ys : list Py.str) (w : World),
    BinaryLogger.deserialize_loop (List.length ps + budget) self
                                  (List.concat fs ++ tail) ys w
    = BinaryLogger.deserialize_loop budget self tail
                                    (ys ++ map (fun p => Py.decode (Py.encode p)) ps) w.
Proof.
  intros Hw Hall. induction Hall as [|p f ps fs Hp Hall IH];
    intros budget tail ys w.
  - cbn. now rewrite app_nil_r.
  - destruct (@serialize_shape self p f Hw Hp) as [-> Hn].
    cbn [List.length Nat.add List.concat BinaryLogger.deserialize_loop map].
    rewrite Hw, <- !app_assoc.
    rewrite (@fh_read_exact (Z.of_nat 4)
               (Py.be_digits 4 (Py.len (Py.encode p)))
               (Py.encode p ++ List.concat fs ++ tail) (len_be_digits 4 _)).
    rewrite len_be_digits.
    change (Z.of_nat 4 =? 0) with false.
    change (Z.of_nat 4 <? Z.of_nat 4) with false. cbv iota.
    destruct (@to_bytes_Some (Py.len (Py.encode p)) 4) as (_ & _ & F).
    { now rewrite pow_256_4. }
    rewrite F, fh_read_app, Z.eqb_refl. cbn [negb].
    unfold bind at 1, BinaryLogger.yield_, modify.
    rewrite IH. now rewrite <- app_assoc.
Qed.

(** A file cut within a frame makes the loop raise. *)
Lemma deserialize_loop_cut (self : BinaryLogger.t) (q : Py.str)
      (f : Py.bytes) (k budget : nat) (ys : list Py.str) (w : World) :
  BinaryLogger.length_bytesize self = 4%nat ->
  BinaryLogger.serialize self q = Ok f ->
  (0 < k < List.length f)%nat ->
  BinaryLogger.deserialize_loop (S budget) self (firstn k f) ys w
  = (Raise OSError, ys, w).
Proof.
  intros Hw Hq Hk. destruct (@serialize_shape self q f Hw Hq) as [-> Hn].
  cbn [BinaryLogger.deserialize_loop]. rewrite Hw.
  rewrite length_app, be_digits_length in Hk.
  destruct (Nat.lt_ge_cases k 4) as [Hlt|Hge].
  - (* within the prefix *)
    rewrite fh_read_all.
    2:{ unfold Py.len. rewrite length_firstn, length_app, be_digits_length.
        lia. }
    assert (L : Py.len (firstn k (Py.be_digits 4 (Py.len (Py.encode q))
                                  ++ Py.encode q)) = Z.of_nat k).
    { unfold Py.len. rewrite length_firstn, length_app, be_digits_length.
      lia. }
    rewrite L.
    replace (Z.of_nat k =? 0) with false by (symmetry; apply Z.eqb_neq; lia).
    replace (Z.of_nat k <? Z.of_nat 4) with true
      by (symmetry; apply Z.ltb_lt; lia).
    reflexivity.
  - (* within the payload *)
    rewrite firstn_app, be_digits_length.
    rewrite firstn_all2 by (rewrite be_digits_length; lia).
    rewrite (@fh_read_exact (Z.of_nat 4) _ _ (len_be_digits 4 _)).
    rewrite len_be_digits.
    change (Z.of_nat 4 =? 0) with false.
    change (Z.of_nat 4 <? Z.of_nat 4) with false. cbv iota.
    destruct (@to_bytes_Some (Py.len (Py.encode q)) 4) as (_ & _ & F).
    { now rewrite pow_256_4. }
    rewrite F.
    assert (L : Py.len (firstn (k - 4) (Py.encode q)) = Z.of_nat (k - 4)).
    { unfold Py.len. rewrite length_firstn. lia. }
    rewrite fh_read_all by (rewrite L; unfold Py.len; lia).
    rewrite L.
    replace (Z.of_nat (k - 4) =? Py.len (Py.encode q)) with false
      by (symmetry; apply Z.eqb_neq; unfold Py.len; lia).
    reflexivity.
Qed.

Lemma serialized_length (self : BinaryLogger.t) (ps : list Py.str)
      (fs : list Py.bytes) :
  BinaryLogger.length_bytesize self = 4%nat ->
  Forall2 (fun p f => BinaryLogger.serialize self p = Ok f) ps fs ->
  (List.length ps <= List.length (List.concat fs))%nat.
Proof.
  intros Hw Hall. induction Hall as [|p f ps fs Hp Hall IH]; [cbn; lia|].
  destruct (@serialize_shape self p f Hw Hp) as [-> _].
  cbn [List.concat List.length]. rewrite !length_app, be_digits_length. lia.
Qed.

Lemma map_decode_encode (ps : list Py.str) :
  Forall (Forall Py.is_code_point) ps ->
  map (fun p => Py.decode (Py.encode p)) ps = map lossy ps.
Proof.
  induction 1 as [|p ps Hp Hps IH]; [reflexivity|].
  cbn [map]. now rewrite decode_encode_lossy, IH.
Qed.

Lemma app_same_length {A} (a b x y : list A) :
  List.length a = List.length b -> a ++ x = b ++ y -> a = b /\ x = y.
Proof.
  revert b. induction a as [|c a IH]; intros [|d b] L E;
    cbn in *; try discriminate; [auto|].
  injection E as -> E. destruct (IH b) as [-> ->]; auto.
Qed.

(** X1.  What [__serialize] made of a sequence of payloads, laid end to
    end, [__deserialize] reads back to the last byte and ends at the end
    of the file: it yields one payload per frame, in order, each as it
    was written but for the surrogates, which come back as ["?"]. *)
Theorem deserialize_serialize (self : BinaryLogger.t)
        (payloads : list Py.str) (fs : list Py.bytes)
        (ys : list Py.str) (w : World) :
  BinaryLogger.length_bytesize self = 4%nat ->
  Forall (Forall Py.is_code_point) payloads ->
  Forall2 (fun p f => BinaryLogger.serialize self p = Ok f) payloads fs ->
  BinaryLogger.deserialize self (List.concat fs) ys w
  = (Ok tt, ys ++ map lossy payloads, w).
Proof.
  intros Hw Hcp Hall. unfold BinaryLogger.deserialize.
  pose proof (@serialized_length self payloads fs Hw Hall) as Hlen.
  replace (S (List.length (List.concat fs)))
    with (List.length payloads
          + S (List.length (List.concat fs) - List.length payloads))%nat
    by lia.
  rewrite <- (app_nil_r (List.concat fs)) at 2.
  rewrite (@deserialize_loop_head self payloads fs Hw Hall),
    map_decode_encode by exact Hcp.
  reflexivity.
Qed.

Lemma deserialize_serialize_witness :
  BinaryLogger.deserialize sample_logger (frames mixed_payloads) []
                           empty_world
  = (Ok tt, [[104; 233]; [63; 120]; []]%N, empty_world).
Proof.
  apply (@deserialize_serialize sample_logger mixed_payloads
           (map frame mixed_payloads) [] empty_world).
  - reflexivity.
  - repeat constructor; unfold Py.is_code_point; lia.
  - repeat constructor.
Defined.

(** X2.  A file that ends within a frame, after any number of whole
    frames: [__deserialize] yields the payloads of the whole frames and
    then raises the error for an incomplete prefix or payload. *)
Theorem deserialize_truncated (self : BinaryLogger.t)
        (payloads : list Py.str) (fs : list Py.bytes) (q : Py.str)
        (f : Py.bytes) (k : nat) (ys : list Py.str) (w : World) :
  BinaryLogger.length_bytesize self = 4%nat ->
  Forall (Forall Py.is_code_point) payloads ->
  Forall2 (fun p f => BinaryLogger.serialize self p = Ok f) payloads fs ->
  BinaryLogger.serialize self q = Ok f ->
  (0 < k < List.length f)%nat ->
  BinaryLogger.deserialize self (List.concat fs ++ firstn k f) ys w
  = (Raise OSError, ys ++ map lossy payloads, w).
Proof.
  intros Hw Hcp Hall Hq Hk. unfold BinaryLogger.deserialize.
  pose proof (@serialized_length self payloads fs Hw Hall) as Hlen.
  replace (S (List.length (List.concat fs ++ firstn k f)))
    with (List.length payloads
          + S (List.length (List.concat fs ++ firstn k f)
               - List.length payloads))%nat
    by (rewrite length_app; lia).
  rewrite (@deserialize_loop_head self payloads fs Hw Hall),
    map_decode_encode by exact Hcp.
  now apply deserialize_loop_cut with (q := q).
Qed.

Lemma deserialize_truncated_witness :
  BinaryLogger.deserialize sample_logger
    (frames mixed_payloads ++ [Byte.x00; Byte.x00; Byte.x00; Byte.x02; Byte.x6f])
    [] empty_world
  = (Raise OSError, [[104; 233]; [63; 120]; []]%N, empty_world).
Proof.
  apply (@deserialize_truncated sample_logger mixed_payloads
           (map frame mixed_payloads) (Py.of_string "ok") frame_ok 5
           [] empty_world).
  - reflexivity.
  - repeat constructor; unfold Py.is_code_point; lia.
  - repeat constructor.
  - reflexivity.
  - cbn. lia.
Defined.

(** X3.  The frames can be told apart again: two sequences of payloads
    whose frames, laid end to end, give the same bytes have the same
    frames, one by one. *)
Theorem frames_parse_uniquely (self : BinaryLogger.t)
        (ps qs : list Py.str) (fs gs : list Py.bytes) :
  BinaryLogger.length_bytesize self = 4%nat ->
  Forall2 (fun p f => BinaryLogger.serialize self p = Ok f) ps fs ->
  Forall2 (fun p f => BinaryLogger.serialize self p = Ok f) qs gs ->
  List.concat fs = List.concat gs ->
  fs = gs.
Proof.
  intros Hw Hps. revert qs gs.
  induction Hps as [|p f ps fs Hp Hps IH]; intros qs gs Hqs E.
  - destruct Hqs as [|q g qs gs Hq Hqs]; [reflexivity|].
    destruct (@serialize_shape self q g Hw Hq) as [-> _].
    cbn in E. apply (f_equal (@List.length _)) in E. cbn in E. lia.
  - destruct Hqs as [|q g qs gs Hq Hqs].
    + destruct (@serialize_shape self p f Hw Hp) as [-> _].
      cbn in E. apply (f_equal (@List.length _)) in E. cbn in E. lia.
    + destruct (@serialize_shape self p f Hw Hp) as [-> Hn].
      destruct (@serialize_shape self q g Hw Hq) as [-> Hm].
      cbn [List.concat] in E. rewrite <- !app_assoc in E.
      apply app_same_length in E as [Ed E];
        [|now rewrite !be_digits_length].
      assert (En : Py.len (Py.encode p) = Py.len (Py.encode q)).
      { destruct (@to_bytes_Some (Py.len (Py.encode p)) 4) as (_ & _ & F1).
        { now rewrite pow_256_4. }
        destruct (@to_bytes_Some (Py.len (Py.encode q)) 4) as (_ & _ & F2).
        { now rewrite pow_256_4. }
        rewrite <- F1, <- F2, Ed. reflexivity. }
      apply app_same_length in E as [Ee E];
        [|unfold Py.len in En; lia].
      rewrite Ed, Ee. f_equal. now apply (IH qs gs).
Qed.

Lemma frames_parse_uniquely_witness :
  [frame [0xD800%N]] = [frame [63%N]].
Proof.
  apply (@frames_parse_uniquely sample_logger [[0xD800%N]] [[63%N]]).
  - reflexivity.
  - repeat constructor.
  - repeat constructor.
  - reflexivity.
Defined.

End Framing.

(* ================================================================== *)
(** ** The listing of backups, whatever the directory holds *)
(* ================================================================== *)

Section BackupListing.
Import OS Sys Session.

Lemma uint_of_char_digit (c : ascii) (d : Decimal.uint) :
  (exists d', DecimalString.uint_of_char c (Some d) = Some d')
  <-> is_ascii_digit c = true.
Proof.
  destruct c as [[] [] [] [] [] [] [] []]; cbn; split;
    solve [eauto | discriminate | intros [d' H]; discriminate].
Qed.

Lemma uint_of_string_digits (s : string) :
  (exists d, NilEmpty.uint_of_string s = Some d)
  <-> Py.all_chars is_ascii_digit s = true.
Proof.
  induction s as [|c s IH]; cbn [NilEmpty.uint_of_string Py.all_chars].
  - split; eauto.
  - rewrite andb_true_iff, <- IH.
    destruct (NilEmpty.uint_of_string s) as [d|].
    + rewrite uint_of_char_digit. split; [eauto | tauto].
    + cbn. split.
      * intros [d H]. discriminate.
      * intros [_ [d H]]. discriminate.
Qed.

(** [int] rejects a token exactly when it holds a character that is not
    a decimal digit, or is empty. *)
Lemma int_None (s : string) :
  Py.int s = None
  <-> s = ""%string \/ Py.all_chars is_ascii_digit s = false.
Proof.
  destruct s as [|c s]; [cbn; tauto|].
  unfold Py.int.
  pose proof (uint_of_string_digits (String c s)) as H.
  destruct (NilEmpty.uint_of_string (String c s)) as [d|]; cbn [option_map].
  - split; [discriminate|]. intros [E|E]; [discriminate|].
    assert (T : Py.all_chars is_ascii_digit (String c s) = true)
      by (apply H; eauto).
    congruence.
  - split; [|reflexivity]. intros _. right.
    destruct (Py.all_chars is_ascii_digit (String c s)); [|reflexivity].
    destruct H as [_ H]. destruct (H eq_refl) as [d E]. discriminate.
Qed.

Lemma int_nonneg (s : string) (k : Z) : Py.int s = Some k -> 0 <= k.
Proof.
  unfold Py.int. destruct s as [|c s]; [discriminate|].
  destruct (NilEmpty.uint_of_string (String c s)); [|discriminate].
  cbn. intros [= <-]. lia.
Qed.

Lemma with_keys_None (l : list string) :
  Utilities.with_keys l = None
  <-> exists p, In p l /\ Py.int (Utilities.seq_token p) = None.
Proof.
  induction l as [|p l IH]; cbn [Utilities.with_keys].
  - split; [discriminate | intros (p & [] & _)].
  - destruct (Py.int (Utilities.seq_token p)) as [k|] eqn:K.
    + destruct (Utilities.with_keys l) as [keyed|]; cbn [option_map].
      * split; [discriminate|]. intros (q & [<- | Hq] & Hn); [congruence|].
        destruct IH as [_ IH]. discriminate IH. eauto.
      * split; [|reflexivity]. intros _.
        destruct IH as [IH _]. destruct (IH eq_refl) as (q & Hq & Hn).
        exists q. split; [now right | exact Hn].
    + split; [|reflexivity]. intros _. exists p. split; [now left | exact K].
Qed.

(** X6.  [get_existing_backups(path, sort=True)] on a name that has a
    suffix and no character special to [glob].  When it returns, it
    returns the backups that [sort=False] lists, in ascending order of
    their numbers, and [int] reads the number of every one of them.  When
    it raises [ValueError], one of those backups has a number token that
    [int] rejects, which on a listed name means a character that
    [isdigit] accepts and that is not a decimal digit. *)
Theorem get_existing_backups_sorted_or_raises {S} (file_path : string)
        (s : S) (w : World) :
  PathLib.suffix file_path <> ""%string ->
  glob_plain file_path = true ->
  let listed := listing file_path (files w) in
  let run := fst (fst (Utilities.get_existing_backups file_path true s w)) in
  (forall p, In p listed ->
     (Py.int (Utilities.seq_token p) = None
      <-> Py.all_chars is_ascii_digit (Utilities.seq_token p) = false))
  /\ (forall l, run = Ok l ->
        Permutation l listed
        /\ Sorted (key_le backup_key) l
        /\ forall p, In p listed -> Py.int (Utilities.seq_token p) <> None)
  /\ (run = Raise ValueError ->
      exists p, In p listed /\ Py.int (Utilities.seq_token p) = None).
Proof.
  intros _ _ listed run. split; [|split].
  - intros p Hp. rewrite int_None.
    apply listing_In in Hp as (_ & _ & Hd).
    split; [|auto]. intros [E|E]; [|exact E].
    rewrite E in Hd. discriminate.
  - intros l Hl. subst run.
    destruct (Utilities.get_existing_backups file_path true s w)
      as [[r s'] w'] eqn:Hrun.
    cbn [fst] in Hl. subst r.
    destruct (get_existing_backups_sorted _ _ _ Hrun) as [Hperm Hsorted].
    split; [exact Hperm|]. split; [exact Hsorted|].
    intros p Hp Hn.
    assert (K : Utilities.with_keys listed = None)
      by (apply with_keys_None; eauto).
    revert Hrun.
    unfold Utilities.get_existing_backups, path_glob, bind, log, get_files,
      ret, raise. cbn [negb files].
    fold (backup_pattern file_path). fold (listing file_path (files w)).
    fold listed. rewrite K. discriminate.
  - subst run.
    unfold Utilities.get_existing_backups, path_glob, bind, log, get_files,
      ret, raise. cbn [negb files fst].
    fold (backup_pattern file_path). fold (listing file_path (files w)).
    fold listed.
    destruct (Utilities.with_keys listed) as [keyed|] eqn:K;
      cbn [fst]; [discriminate|].
    intros _. now apply with_keys_None.
Qed.

Lemma get_existing_backups_sorted_or_raises_witness :
  Permutation ["test.1.bin"; "test.2.bin"; "test.10.bin"]%string
              (listing "test.bin" (files unordered_world))
  /\ Sorted (key_le backup_key)
            ["test.1.bin"; "test.2.bin"; "test.10.bin"]%string.
Proof.
  destruct (@get_existing_backups_sorted_or_raises unit "test.bin" tt
              unordered_world) as (_ & H & _).
  - discriminate.
  - reflexivity.
  - destruct (H ["test.1.bin"; "test.2.bin"; "test.10.bin"]%string eq_refl)
      as (H1 & H2 & _).
    exact (conj H1 H2).
Defined.

Lemma backup_key_nonneg (p : string) : 0 <= backup_key p.
Proof.
  unfold backup_key. destruct (Py.int (Utilities.seq_token p)) as [k|] eqn:K;
    [exact (int_nonneg _ K) | lia].
Qed.

(** X7.  [get_last_rollover_seq] on a name that has a suffix and no
    character special to [glob], when it returns, returns -1 exactly
    when no backup is listed and otherwise the largest number among the
    listed backups; it is never below -1, so that the [max(..., 0)] of
    the constructor never changes the sum [last + 1]. *)
Theorem get_last_rollover_seq_bounds {S} (file_path : string) (s s' : S)
        (w w' : World) (n : Z) :
  PathLib.suffix file_path <> ""%string ->
  glob_plain file_path = true ->
  Utilities.get_last_rollover_seq file_path s w = (Ok n, s', w') ->
  -1 <= n
  /\ Z.max (n + 1) 0 = n + 1
  /\ (n = -1 <-> listing file_path (files w) = [])
  /\ (forall q, In q (listing file_path (files w)) -> backup_key q <= n)
  /\ (listing file_path (files w) <> [] ->
      exists p, In p (listing file_path (files w)) /\ backup_key p = n).
Proof.
  intros _ _ H. apply get_last_rollover_seq_max in H.
  destruct H as [[Hnil ->] | (p & Hp & -> & Hmax)].
  - split; [lia|]. split; [reflexivity|]. split; [tauto|].
    rewrite Hnil. split; [contradiction | congruence].
  - pose proof (backup_key_nonneg p) as Hk.
    split; [lia|]. split; [lia|]. split; [|split; [exact Hmax | eauto]].
    split; [lia|]. intros E. rewrite E in Hp. contradiction.
Qed.

Lemma get_last_rollover_seq_bounds_witness :
  fst (fst (Utilities.get_last_rollover_seq "test.bin" tt unordered_world))
  = Ok 10
  /\ forall q, In q (listing "test.bin" (files unordered_world)) ->
               backup_key q <= 10.
Proof.
  split; [reflexivity|].
  destruct (Utilities.get_last_rollover_seq "test.bin" tt unordered_world)
    as [[r s'] w'] eqn:E.
  assert (Er : r = Ok 10) by (now injection E as <- _ _).
  rewrite Er in E.
  assert (Hs : PathLib.suffix "test.bin" <> ""%string) by discriminate.
  exact (proj1 (proj2 (proj2 (proj2
           (@get_last_rollover_seq_bounds unit "test.bin" tt s'
              unordered_world w' 10 Hs eq_refl E))))).
Defined.

(** X8.  The name [rollover] gives a backup and the listing agree: for
    an active name that has a suffix and no character special to [glob],
    the backup of a sequence number that is not negative is listed
    whenever it is in the directory, its number reads back as written,
    two numbers give two names, and the active file is never taken for
    one of its backups. *)
Theorem backup_is_listed (name : string) (seq : Z) (d : dir) :
  PathLib.suffix name <> ""%string ->
  glob_plain name = true ->
  0 <= seq ->
  (In (LogState.backup_path name seq) (listing name d)
   <-> In (LogState.backup_path name seq) (map fst d))
  /\ backup_key (LogState.backup_path name seq) = seq
  /\ ~ In name (listing name d)
  /\ (forall seq', 0 <= seq' ->
        LogState.backup_path name seq' = LogState.backup_path name seq ->
        seq' = seq).
Proof.
  intros Hsuf Hplain Hseq. split; [|split; [|split]].
  - rewrite listing_In, fnmatch_backup_path by exact Hplain.
    rewrite seq_token_backup_path, isdigit_format_int by auto. tauto.
  - unfold backup_key. now rewrite seq_token_backup_path, int_format_int.
  - rewrite listing_In, fnmatch_active by auto.
    intros (_ & H & _). discriminate.
  - intros seq' Hseq' E. now apply (@backup_path_inj name seq' seq).
Qed.

Lemma backup_is_listed_witness :
  (In "test.10.bin"%string (listing "test.bin" (files unordered_world))
   <-> In "test.10.bin"%string (map fst (files unordered_world)))
  /\ backup_key "test.10.bin" = 10
  /\ ~ In "test.bin"%string (listing "test.bin" (files unordered_world)).
Proof.
  destruct (@backup_is_listed "test.bin" 10 (files unordered_world))
    as (H1 & H2 & H3 & _).
  - discriminate.
  - reflexivity.
  - lia.
  - exact (conj H1 (conj H2 H3)).
Defined.

End BackupListing.

(* ================================================================== *)
(** ** [read], whatever the directory holds and whatever fails *)
(* ================================================================== *)

Section Reading.
Import OS Sys Quiet Session.






Lemma get_existing_backups_run {S} (file_path : string) (s : S) (w : World) :
  Utilities.get_existing_backups file_path true s w
  = let w' := mkWorld (files w) (faults w)
                      (EvGlob (backup_pattern file_path) :: trace w) in
    match Utilities.with_keys (listing file_path (files w)) with
    | Some keyed => (Ok (map fst (Py.sorted_by snd keyed)), s, w')
    | None => (Raise ValueError, s, w')
    end.
Proof.
  unfold Utilities.get_existing_backups, path_glob, bind, log, get_files,
    ret, raise. cbn [negb files].
  fold (backup_pattern file_path). fold (listing file_path (files w)).
  destruct (Utilities.with_keys (listing file_path (files w))); reflexivity.
Qed.


End Reading.

(* ================================================================== *)
(** ** Every outcome of a call, faults included *)
(* ================================================================== *)

Section Outcomes.
Import OS Sys Session.

Lemma bind_run {S A B} (m : M S A) (k : A -> M S B) s w r s' w' :
  bind m k s w = (r, s', w') ->
  (exists a s1 w1, m s w = (Ok a, s1, w1) /\ k a s1 w1 = (r, s', w'))
  \/ (exists e, m s w = (Raise e, s', w') /\ r = Raise e).
Proof.
  unfold bind. destruct (m s w) as [[[a|e] s1] w1].
  - intros H. left. now exists a, s1, w1.
  - intros [= <- <- <-]. right. now exists e.
Qed.

Lemma try_run {S A} (m h : M S A) s w r s' w' :
  try_except_OSError m h s w = (r, s', w') ->
  (m s w = (r, s', w') /\ r <> Raise OSError)
  \/ (exists s1 w1, m s w = (Raise OSError, s1, w1)
                    /\ h s1 w1 = (r, s', w')).
Proof.
  unfold try_except_OSError. destruct (m s w) as [[[a|e] s1] w1].
  - intros [= <- <- <-]. left. split; [reflexivity | discriminate].
  - destruct e; try (intros [= <- <- <-]; left;
                     split; [reflexivity | discriminate]).
    intros H. right. now exists s1, w1.
Qed.

Lemma syscall_any {S} (e : event) (s : S) w r s' w' :
  syscall e s w = (r, s', w') ->
  s' = s /\ files w' = files w /\ faults w' = tl (faults w)
  /\ (r = Ok tt \/ (r = Raise OSError /\ In true (faults w))).
Proof.
  unfold syscall, bind, log, fate. cbn [faults files trace].
  destruct (faults w) as [|[|] fs]; intros [= <- <- <-]; cbn [files faults tl];
    repeat split; auto.
  right. split; [reflexivity | now left].
Qed.

Lemma fh_write_any {S} (name : string) (data : Py.bytes) (s : S) w r s' w' :
  fh_write name data s w = (r, s', w') ->
  s' = s /\ faults w' = tl (faults w)
  /\ ((r = Ok tt /\ exists_ name (files w) = true
       /\ files w' = append name data (files w))
      \/ (r = Raise OSError /\ files w' = files w
          /\ (In true (faults w) \/ exists_ name (files w) = false))).
Proof.
  unfold fh_write. intros H.
  apply bind_run in H as [(u & s1 & w1 & Hs & H) | (e & Hs & ->)];
    apply syscall_any in Hs as (-> & F & O & Hr).
  - unfold bind, get_files, set_files, raise in H. rewrite F in H.
    destruct (exists_ name (files w)) eqn:Hex; injection H as <- <- <-;
      cbn [files faults]; intuition auto.
  - destruct Hr as [Hr|[Hr Hf]]; [discriminate|]. intuition auto.
Qed.

Lemma fh_tell_any {S} (name : string) (s : S) w r s' w' :
  fh_tell name s w = (r, s', w') ->
  s' = s /\ files w' = files w /\ faults w' = tl (faults w)
  /\ ((exists c, lookup name (files w) = Some c /\ r = Ok (Py.len c))
      \/ (r = Raise OSError
          /\ (In true (faults w) \/ lookup name (files w) = None))).
Proof.
  unfold fh_tell. intros H.
  apply bind_run in H as [(u & s1 & w1 & Hs & H) | (e & Hs & ->)];
    apply syscall_any in Hs as (-> & F & O & Hr).
  - unfold bind, get_files, ret, raise in H. rewrite F in H.
    destruct (lookup name (files w)) as [c|] eqn:Hc; injection H as <- <- <-;
      (split; [reflexivity|]); (split; [exact F|]); (split; [exact O|]).
    + left. now exists c.
    + right. auto.
  - destruct Hr as [Hr|[Hr Hf]]; [discriminate|]. injection Hr as ->.
    split; [reflexivity|]. split; [exact F|]. split; [exact O|].
    right. auto.
Qed.

Lemma path_exists_any {S} (name : string) (s : S) w r s' w' :
  path_exists name s w = (r, s', w') ->
  s' = s /\ files w' = files w /\ faults w' = tl (faults w)
  /\ (r = Ok (exists_ name (files w))
      \/ (r = Raise OSError /\ In true (faults w))).
Proof.
  unfold path_exists. intros H.
  apply bind_run in H as [(u & s1 & w1 & Hs & H) | (e & Hs & ->)];
    apply syscall_any in Hs as (-> & F & O & Hr).
  - unfold bind, get_files, ret in H. rewrite F in H.
    injection H as <- <- <-. intuition auto.
  - destruct Hr as [Hr|[Hr Hf]]; [discriminate|]. injection Hr as ->.
    intuition auto.
Qed.

Lemma path_rename_any {S} (src dst : string) (s : S) w r s' w' :
  path_rename src dst s w = (r, s', w') ->
  s' = s /\ faults w' = tl (faults w)
  /\ ((r = Ok tt /\ exists_ src (files w) = true
       /\ files w' = rename src dst (files w))
      \/ (r = Raise OSError /\ files w' = files w
          /\ (In true (faults w) \/ exists_ src (files w) = false))).
Proof.
  unfold path_rename. intros H.
  apply bind_run in H as [(u & s1 & w1 & Hs & H) | (e & Hs & ->)];
    apply syscall_any in Hs as (-> & F & O & Hr).
  - unfold bind, get_files, set_files, raise in H. rewrite F in H.
    destruct (exists_ src (files w)) eqn:Hex; injection H as <- <- <-;
      cbn [files faults]; intuition auto.
  - destruct Hr as [Hr|[Hr Hf]]; [discriminate|]. intuition auto.
Qed.

Lemma open_append_any {S} (name : string) (s : S) w r s' w' :
  open_append name s w = (r, s', w') ->
  s' = s /\ faults w' = tl (faults w)
  /\ ((r = Ok tt /\ files w' = create name (files w))
      \/ (r = Raise OSError /\ files w' = files w /\ In true (faults w))).
Proof.
  unfold open_append. intros H.
  apply bind_run in H as [(u & s1 & w1 & Hs & H) | (e & Hs & ->)];
    apply syscall_any in Hs as (-> & F & O & Hr).
  - unfold bind, get_files, set_files in H. rewrite F in H.
    injection H as <- <- <-. cbn [files faults]. intuition auto.
  - destruct Hr as [Hr|[Hr Hf]]; [discriminate|]. intuition auto.
Qed.

Lemma tl_nil_or {A} (l : list A) : l = [] -> tl l = [].
Proof. now intros ->. Qed.

Lemma In_tl {A} (x : A) (l : list A) : In x (tl l) -> In x l.
Proof. destruct l; [auto | now right]. Qed.

(** [LogState.close]: the flag is set once the handle is closed; when
    closing the handle fails the log is left open. *)
Lemma close_any (s : LogState.t) w r s' w' :
  LogState.close s w = (r, s', w') ->
  files w' = files w
  /\ (faults w = [] -> faults w' = [])
  /\ ((r = Ok tt /\ s' = LogState.set_is_closed true s)
      \/ (r = Raise OSError /\ s' = s /\ LogState.is_closed s = false
          /\ In true (faults w))).
Proof.
  unfold LogState.close. intros H.
  apply with_lock_inv in H as (w0 & w1 & F0 & O0 & H & F1 & O1).
  unfold bind at 1, get at 1 in H.
  destruct (LogState.is_closed s) eqn:Hc; cbn [negb] in H.
  - injection H as <- <- <-. split; [congruence|]. split; [congruence|].
    left. split; [reflexivity|]. destruct s; cbn in *; now subst.
  - apply bind_run in H as [(u & s1 & w2 & Hs & H) | (e & Hs & ->)];
      apply syscall_any in Hs as (-> & F2 & O2 & Hr).
    + injection H as <- <- <-. split; [congruence|].
      split; [intros Hf; rewrite O1, O2, O0, Hf; reflexivity|]. auto.
    + destruct Hr as [Hr|[Hr Hf]]; [discriminate|].
      split; [congruence|].
      split; [intros Hf'; rewrite O1, O2, O0, Hf'; reflexivity|].
      right. rewrite O0 in Hf. auto.
Qed.

Lemma close_faults (s : LogState.t) w r s' w' :
  LogState.close s w = (r, s', w') ->
  In true (faults w') -> In true (faults w).
Proof.
  unfold LogState.close. intros H.
  apply with_lock_inv in H as (w0 & w1 & F0 & O0 & H & F1 & O1).
  unfold bind at 1, get at 1 in H. rewrite O1, <- O0.
  destruct (negb (LogState.is_closed s)).
  - apply bind_run in H as [(u & s1 & w2 & Hs & H) | (e & Hs & ->)];
      apply syscall_any in Hs as (-> & _ & O2 & _).
    + injection H as _ _ <-. rewrite O2. apply In_tl.
    + rewrite O2. apply In_tl.
  - injection H as _ _ <-. auto.
Qed.

Lemma lookup_create_other (name f : string) (d : dir) :
  f <> name -> lookup f (create name d) = lookup f d.
Proof.
  intros Hne. rewrite lookup_create. destruct (lookup f d); [reflexivity|].
  replace (String.eqb name f) with false; [reflexivity|].
  symmetry. apply String.eqb_neq. congruence.
Qed.

(** The [try] block of [rollover], however it ends. *)
Lemma rollover_try_any (s : LogState.t) w r s' w' :
  (self <- get ;;
   there <- path_exists (LogState.file_path self) ;;
   (if there then
      path_rename (LogState.file_path self)
                  (LogState.backup_path (LogState.file_path self)
                                        (LogState.next_rollover_seq self)) ;;;
      modify (fun self =>
                LogState.set_next_rollover_seq
                  (LogState.next_rollover_seq self + 1) self)
    else ret tt) ;;;
   open_append (LogState.file_path self) ;;;
   modify (LogState.set_is_closed false)) s w = (r, s', w') ->
  let name := LogState.file_path s in
  let seq := LogState.next_rollover_seq s in
  LogState.file_path s' = name
  /\ LogState.max_file_size s' = LogState.max_file_size s
  /\ (LogState.next_rollover_seq s' = seq
      \/ LogState.next_rollover_seq s' = seq + 1)
  /\ (forall f, f <> name -> f <> LogState.backup_path name seq ->
                lookup f (files w') = lookup f (files w))
  /\ (faults w = [] -> faults w' = [])
  /\ ((r = Ok tt /\ LogState.is_closed s' = false)
      \/ (r = Raise OSError /\ In true (faults w)
          /\ LogState.is_closed s' = LogState.is_closed s)).
Proof.
  intros H name seq.
  pose proof (@backup_path_neq name seq) as Hne.
  unfold bind at 1, get at 1 in H.
  apply bind_run in H as [(there & s1 & w1 & Hex & H) | (e & Hex & ->)];
    apply path_exists_any in Hex as (-> & F1 & O1 & Hr1).
  2:{ destruct Hr1 as [Hr1|[Hr1 Hf1]]; [discriminate|]. injection Hr1 as ->.
      repeat split; auto.
      - intros f _ _. now rewrite F1.
      - intros Hf. now rewrite O1, Hf. }
  destruct Hr1 as [Hr1|[Hr1 _]]; [|discriminate]. injection Hr1 as ->.
  fold name seq in H.
  apply bind_run in H as [(u2 & s2 & w2 & Hmove & H) | (e & Hmove & ->)].
  - (* the file is renamed, or was not there *)
    assert (Hmoved :
      LogState.file_path s2 = name
      /\ LogState.max_file_size s2 = LogState.max_file_size s
      /\ LogState.is_closed s2 = LogState.is_closed s
      /\ (LogState.next_rollover_seq s2 = seq
          \/ LogState.next_rollover_seq s2 = seq + 1)
      /\ (forall f, f <> name -> f <> LogState.backup_path name seq ->
                    lookup f (files w2) = lookup f (files w))
      /\ (faults w = [] -> faults w2 = [])
      /\ (In true (faults w2) -> In true (faults w))).
    { destruct (exists_ name (files w)).
      - apply bind_run in Hmove
          as [(u3 & s3 & w3 & Hren & Hmod) | (e & Hren & E)];
          [|discriminate].
        apply path_rename_any in Hren as (-> & O3 & Hr3).
        destruct Hr3 as [(_ & _ & F3) | (Hr3 & _)]; [|discriminate].
        unfold modify in Hmod. injection Hmod as _ <- <-.
        cbn. repeat split; auto.
        + intros f Hf1 Hf2. rewrite F3, lookup_rename_other, F1; auto.
        + intros Hf. now rewrite O3, O1, Hf.
        + rewrite O3, O1. intros Hin. now apply In_tl, In_tl.
      - unfold ret in Hmove. injection Hmove as _ <- <-.
        repeat split; auto.
        + intros f _ _. now rewrite F1.
        + intros Hf. now rewrite O1, Hf.
        + rewrite O1. apply In_tl. }
    destruct Hmoved as (Hp2 & Hm2 & Hc2 & Hs2 & Ht2 & Hf2 & Hin2).
    apply bind_run in H as [(u4 & s4 & w4 & Hopen & H) | (e & Hopen & ->)];
      apply open_append_any in Hopen as (-> & O4 & Hr4).
    + destruct Hr4 as [(_ & F4) | (Hr4 & _)]; [|discriminate].
      injection H as <- <- <-. cbn. repeat split; auto.
      * intros f Hf1 Hf2'. rewrite F4, lookup_create_other by exact Hf1.
        now apply Ht2.
      * intros Hf. now rewrite O4, (Hf2 Hf).
    + destruct Hr4 as [(Hr4 & _) | (Hr4 & F4 & Hf4)]; [discriminate|].
      injection Hr4 as ->. repeat split; auto.
      * intros f Hf1 Hf2'. rewrite F4. now apply Ht2.
      * intros Hf. now rewrite O4, (Hf2 Hf).
  - (* the rename failed *)
    destruct (exists_ name (files w)) eqn:Hthere; [|discriminate].
    apply bind_run in Hmove
      as [(u3 & s3 & w3 & Hren & Hmod) | (e' & Hren & E)];
      [discriminate|].
    injection E as <-.
    apply path_rename_any in Hren as (-> & O3 & Hr3).
    destruct Hr3 as [(Hr3 & _) | (Hr3 & F3 & Hf3)]; [discriminate|].
    injection Hr3 as ->. repeat split; auto.
    + intros f _ _. now rewrite F3, F1.
    + intros Hf. now rewrite O3, O1, Hf.
    + right. repeat split; auto.
      destruct Hf3 as [Hf3|Hf3].
      * rewrite O1 in Hf3. now apply In_tl.
      * rewrite F1 in Hf3. congruence.
Qed.

(** [LogState.rollover], however it ends: it returns with the log open,
    or raises [OSError] after a fault; in between it has touched the
    active file and the backup of the current number, and nothing else. *)
Lemma rollover_any (s : LogState.t) w r s' w' :
  LogState.rollover s w = (r, s', w') ->
  let name := LogState.file_path s in
  let seq := LogState.next_rollover_seq s in
  LogState.file_path s' = name
  /\ LogState.max_file_size s' = LogState.max_file_size s
  /\ (LogState.next_rollover_seq s' = seq
      \/ LogState.next_rollover_seq s' = seq + 1)
  /\ (forall f, f <> name -> f <> LogState.backup_path name seq ->
                lookup f (files w') = lookup f (files w))
  /\ (faults w = [] -> faults w' = [])
  /\ ((r = Ok tt /\ LogState.is_closed s' = false)
      \/ (r = Raise OSError /\ In true (faults w)
          /\ (LogState.is_closed s' = true \/ s' = s))).
Proof.
  intros H name seq. unfold LogState.rollover in H.
  apply with_lock_inv in H as (w0 & w1 & F0 & O0 & H & F1 & O1).
  apply bind_run in H as [(u & s1 & w2 & Hclose & H) | (e & Hclose & ->)];
    pose proof (@close_faults _ _ _ _ _ Hclose) as Hin2;
    apply close_any in Hclose as (F2 & Of2 & Hr2).
  - destruct Hr2 as [(_ & ->) | (Hr2 & _)]; [|discriminate].
    apply try_run in H as [[H Hr] | (s3 & w3 & H & Hh)];
      apply rollover_try_any in H;
      cbn [LogState.set_is_closed LogState.file_path LogState.max_file_size
           LogState.next_rollover_seq LogState.is_closed] in H;
      fold name seq in H;
      destruct H as (Hp & Hm & Hs & Ht & Hf & Hcase).
    + destruct Hcase as [(-> & Hc) | (-> & _)]; [|congruence].
      repeat split; auto.
      * intros f Hf1 Hf2. rewrite F1, (Ht f Hf1 Hf2), F2, F0. reflexivity.
      * intros Hf0. rewrite O1. apply Hf, Of2. now rewrite O0.
    + unfold bind, modify, raise in Hh. injection Hh as <- <- <-.
      cbn [LogState.set_is_closed LogState.file_path LogState.max_file_size
           LogState.next_rollover_seq LogState.is_closed].
      destruct Hcase as [(Hr & _) | (_ & Hfault & _)]; [discriminate|].
      repeat split; auto.
      * intros f Hf1 Hf2. rewrite F1, (Ht f Hf1 Hf2), F2, F0. reflexivity.
      * intros Hf0. rewrite O1. apply Hf, Of2. now rewrite O0.
      * right. repeat split; auto.
        rewrite <- O0. auto.
  - destruct Hr2 as [(Hr2 & _) | (Hr2 & -> & Hc & Hfault)]; [discriminate|].
    injection Hr2 as ->. repeat split; auto.
    + intros f _ _. now rewrite F1, F2, F0.
    + intros Hf0. rewrite O1. apply Of2. now rewrite O0.
    + right. repeat split; auto. now rewrite <- O0.
Qed.

(** The [try] block of [write], however it ends. *)
Lemma write_try_any (data : Py.bytes) (s : LogState.t) w r s' w' :
  (fh_write (LogState.file_path s) data ;;;
   fh_flush (LogState.file_path s) ;;;
   current_size <- fh_tell (LogState.file_path s) ;;
   if current_size >=? LogState.max_file_size s
   then LogState.rollover
   else ret tt) s w = (r, s', w') ->
  let name := LogState.file_path s in
  let seq := LogState.next_rollover_seq s in
  LogState.file_path s' = name
  /\ LogState.max_file_size s' = LogState.max_file_size s
  /\ (LogState.next_rollover_seq s' = seq
      \/ LogState.next_rollover_seq s' = seq + 1)
  /\ (forall f, f <> name -> f <> LogState.backup_path name seq ->
                lookup f (files w') = lookup f (files w))
  /\ (faults w = [] -> faults w' = [])
  /\ ((r = Ok tt
       /\ (LogState.is_closed s' = false \/ s' = s))
      \/ (r = Raise OSError
          /\ (In true (faults w) \/ lookup name (files w) = None))).
Proof.
  intros H name seq. fold name in H.
  apply bind_run in H as [(u1 & s1 & w1 & Hwrite & H) | (e & Hwrite & ->)];
    apply fh_write_any in Hwrite as (-> & O1 & Hr1).
  2:{ destruct Hr1 as [(Hr1 & _) | (Hr1 & F1 & Hf1)]; [discriminate|].
      injection Hr1 as ->. repeat split; auto.
      - intros f _ _. now rewrite F1.
      - intros Hf. now rewrite O1, Hf.
      - right. split; [reflexivity|]. destruct Hf1 as [Hf1|Hf1]; [auto|].
        right. unfold exists_ in Hf1.
        destruct (lookup name (files w)); [discriminate | reflexivity]. }
  destruct Hr1 as [(_ & Hex & F1) | (Hr1 & _)]; [|discriminate].
  assert (T1 : forall f, f <> name -> lookup f (files w1) = lookup f (files w)).
  { intros f Hf. rewrite F1. now apply lookup_append_other. }
  apply bind_run in H as [(u2 & s2 & w2 & Hflush & H) | (e & Hflush & ->)];
    apply syscall_any in Hflush as (-> & F2 & O2 & Hr2).
  2:{ destruct Hr2 as [Hr2|[Hr2 Hf2]]; [discriminate|].
      injection Hr2 as ->. repeat split; auto.
      - intros f Hf _. rewrite F2. now apply T1.
      - intros Hf. now rewrite O2, O1, Hf.
      - right. split; [reflexivity|]. left. rewrite O1 in Hf2.
        now apply In_tl. }
  apply bind_run in H as [(size & s3 & w3 & Htell & H) | (e & Htell & ->)];
    apply fh_tell_any in Htell as (-> & F3 & O3 & Hr3).
  2:{ destruct Hr3 as [(c & _ & Hr3)|[Hr3 Hf3]]; [discriminate|].
      injection Hr3 as ->. repeat split; auto.
      - intros f Hf _. rewrite F3, F2. now apply T1.
      - intros Hf. now rewrite O3, O2, O1, Hf.
      - right. split; [reflexivity|]. destruct Hf3 as [Hf3|Hf3].
        + left. rewrite O2, O1 in Hf3. now apply In_tl, In_tl.
        + rewrite F2, F1 in Hf3. apply exists_lookup in Hex as (old & Hold).
          rewrite (@lookup_append_same name data old (files w) Hold) in Hf3.
          discriminate. }
  destruct (size >=? LogState.max_file_size s).
  - apply rollover_any in H. fold name seq in H.
    destruct H as (Hp & Hm & Hs & Ht & Hf & Hcase).
    repeat split; auto.
    + intros f Hf1 Hf2. rewrite (Ht f Hf1 Hf2), F3, F2. now apply T1.
    + intros Hf0. apply Hf. now rewrite O3, O2, O1, Hf0.
    + destruct Hcase as [(-> & Hc) | (-> & Hfault & _)]; [auto|].
      right. split; [reflexivity|]. left. rewrite O3, O2, O1 in Hfault.
      now apply In_tl, In_tl, In_tl.
  - unfold ret in H. injection H as <- <- <-. repeat split; auto.
    + intros f Hf _. rewrite F3, F2. now apply T1.
    + intros Hf. now rewrite O3, O2, O1, Hf.
Qed.

(** [BinaryLogger.write], however it ends. *)
Lemma write_any (payload : Py.str) (self : BinaryLogger.t) w r self' w' :
  BinaryLogger.write payload self w = (r, self', w') ->
  let st := BinaryLogger.file_state self in
  let st' := BinaryLogger.file_state self' in
  let name := LogState.file_path st in
  let seq := LogState.next_rollover_seq st in
  BinaryLogger.file_path self' = BinaryLogger.file_path self
  /\ BinaryLogger.length_bytesize self' = BinaryLogger.length_bytesize self
  /\ LogState.file_path st' = name
  /\ LogState.max_file_size st' = LogState.max_file_size st
  /\ (LogState.next_rollover_seq st' = seq
      \/ LogState.next_rollover_seq st' = seq + 1)
  /\ (forall f, f <> name -> f <> LogState.backup_path name seq ->
                lookup f (files w') = lookup f (files w))
  /\ (faults w = [] -> faults w' = [])
  /\ ((r = Ok tt /\ LogState.is_closed st = false
       /\ LogState.is_closed st' = false)
      \/ (r = Raise OverflowError
          /\ BinaryLogger.serialize self payload = Raise OverflowError
          /\ self' = self /\ w' = w)
      \/ (r = Raise RuntimeError /\ LogState.is_closed st = true
          /\ self' = self /\ files w' = files w)
      \/ (r = Raise OSError /\ LogState.is_closed st = false
          /\ LogState.is_closed st' = true
          /\ (In true (faults w) \/ lookup name (files w) = None))).
Proof.
  intros H st st' name seq. unfold BinaryLogger.write in H.
  unfold bind at 1, get at 1 in H. unfold bind at 1 in H.
  unfold BinaryLogger.lift_result in H.
  destruct (BinaryLogger.serialize self payload) as [data|e] eqn:Eser.
  2:{ apply serialize_raises_only_overflow in Eser as ->.
      unfold raise in H. injection H as <- <- <-. subst st'.
      repeat split; auto. right. left. auto. }
  unfold ret at 1 in H.
  apply zoom_inv in H as (t' & H & ->).
  subst st'. cbn [BinaryLogger.set_file_state BinaryLogger.file_path
                  BinaryLogger.length_bytesize BinaryLogger.file_state].
  fold st in H.
  apply with_lock_inv in H as (w0 & w1 & F0 & O0 & H & F1 & O1).
  unfold bind at 1, get at 1 in H.
  destruct (LogState.is_closed st) eqn:Hc.
  - unfold raise in H. injection H as <- <- <-.
    assert (E : BinaryLogger.set_file_state st self = self)
      by (subst st; destruct self; reflexivity).
    repeat split; auto.
    + intros f _ _. now rewrite F1, F0.
    + intros Hf. now rewrite O1, O0.
    + right. right. left. repeat split; auto. now rewrite F1, F0.
  - apply try_run in H as [[H Hr] | (s3 & w3 & H & Hh)];
      apply write_try_any in H; fold name seq in H;
      destruct H as (Hp & Hm & Hs & Ht & Hf & Hcase).
    + destruct Hcase as [(-> & Hc') | (-> & _)]; [|congruence].
      repeat split; auto.
      * intros f Hf1 Hf2. rewrite F1, (Ht f Hf1 Hf2), F0. reflexivity.
      * intros Hf0. rewrite O1. apply Hf. now rewrite O0.
      * left. repeat split; auto. destruct Hc' as [Hc'| ->]; auto.
    + unfold bind, modify, raise in Hh. injection Hh as <- <- <-.
      cbn [LogState.set_is_closed LogState.file_path LogState.max_file_size
           LogState.next_rollover_seq LogState.is_closed].
      destruct Hcase as [(Hr & _) | (_ & Hfault)]; [discriminate|].
      repeat split; auto.
      * intros f Hf1 Hf2. rewrite F1, (Ht f Hf1 Hf2), F0. reflexivity.
      * intros Hf0. rewrite O1. apply Hf. now rewrite O0.
      * right. right. right. repeat split; auto.
        rewrite <- O0, <- F0. exact Hfault.
Qed.

End Outcomes.

(* ================================================================== *)
(** ** The files a log writes are made of frames *)
(* ================================================================== *)

Section OwnFiles.
Import OS Sys Quiet Session.

Variables (name : string) (d0 : dir).

Lemma own_frames_same (d d' : dir) :
  (forall f, lookup f d' = lookup f d) ->
  own_frames name d0 d -> own_frames name d0 d'.
Proof. intros E H f c Hf. rewrite E in Hf. now apply H. Qed.

Lemma own_frames_active (d : dir) (c : Py.bytes) :
  own_frames name d0 d -> lookup name d = Some c -> is_log_file c.
Proof. intros H Hc. destruct (H name c Hc) as [L|[N _]]; [exact L|]. now elim N. Qed.

Lemma own_frames_append (p : Py.str) (d : dir) :
  fits p -> exists_ name d = true ->
  own_frames name d0 d -> own_frames name d0 (append name (frame p) d).
Proof.
  intros Hp Hex H f c Hf.
  destruct (string_dec f name) as [->|Hne].
  - apply exists_lookup in Hex as (old & Hold).
    rewrite (@lookup_append_same name (frame p) old d Hold) in Hf.
    injection Hf as <-. left.
    apply is_log_file_app; [|exact Hp]. eapply own_frames_active; eauto.
  - rewrite lookup_append_other in Hf by exact Hne. now apply H.
Qed.

Lemma own_frames_rename (dst : string) (d : dir) :
  dst <> name ->
  own_frames name d0 d -> own_frames name d0 (rename name dst d).
Proof.
  intros Hd H f c Hf.
  assert (Hd' : name <> dst) by congruence.
  destruct (string_dec f dst) as [->|Hn1].
  - rewrite lookup_rename_dst in Hf by exact Hd'.
    left. eapply own_frames_active; eauto.
  - destruct (string_dec f name) as [->|Hn2].
    + rewrite lookup_rename_src in Hf by exact Hd'. discriminate.
    + rewrite lookup_rename_other in Hf by auto. now apply H.
Qed.

Lemma own_frames_create (d : dir) :
  own_frames name d0 d -> own_frames name d0 (create name d).
Proof.
  intros H f c Hf. rewrite lookup_create in Hf.
  destruct (lookup f d) as [c'|] eqn:E.
  - injection Hf as <-. now apply H.
  - destruct (String.eqb name f); [|discriminate].
    injection Hf as <-. left. apply is_log_file_nil.
Qed.

Lemma KeepsOwn_ret {A} (a : A) : KeepsOwn name d0 (ret a).
Proof. intros s w r s' w' Hn Ho [= <- <- <-]. auto. Qed.

Lemma KeepsOwn_raise {A} (e : exn) : KeepsOwn name d0 (@raise _ A e).
Proof. intros s w r s' w' Hn Ho [= <- <- <-]. auto. Qed.

Lemma KeepsOwn_bind {A B} (m : M LogState.t A) (k : A -> M LogState.t B) :
  KeepsOwn name d0 m -> (forall a, KeepsOwn name d0 (k a)) ->
  KeepsOwn name d0 (bind m k).
Proof.
  intros Hm Hk s w r s' w' Hn Ho H.
  apply bind_run in H as [(a & s1 & w1 & H1 & H2) | (e & H1 & _)].
  - destruct (Hm _ _ _ _ _ Hn Ho H1) as [Hn1 Ho1].
    exact (Hk a _ _ _ _ _ Hn1 Ho1 H2).
  - exact (Hm _ _ _ _ _ Hn Ho H1).
Qed.

Lemma KeepsOwn_get {B} (k : LogState.t -> M LogState.t B) :
  (forall self, LogState.file_path self = name -> KeepsOwn name d0 (k self)) ->
  KeepsOwn name d0 (bind get k).
Proof.
  intros Hk s w r s' w' Hn Ho H. unfold bind, get in H.
  exact (Hk s Hn _ _ _ _ _ Hn Ho H).
Qed.

Lemma KeepsOwn_modify (f : LogState.t -> LogState.t) :
  (forall s, LogState.file_path (f s) = LogState.file_path s) ->
  KeepsOwn name d0 (modify f).
Proof.
  intros Hf s w r s' w' Hn Ho [= <- <- <-]. split; [|exact Ho].
  now rewrite Hf.
Qed.

Lemma KeepsOwn_try {A} (m h : M LogState.t A) :
  KeepsOwn name d0 m -> KeepsOwn name d0 h ->
  KeepsOwn name d0 (try_except_OSError m h).
Proof.
  intros Hm Hh s w r s' w' Hn Ho H.
  apply try_run in H as [[H _] | (s1 & w1 & H1 & H2)].
  - exact (Hm _ _ _ _ _ Hn Ho H).
  - destruct (Hm _ _ _ _ _ Hn Ho H1) as [Hn1 Ho1].
    exact (Hh _ _ _ _ _ Hn1 Ho1 H2).
Qed.

Lemma KeepsOwn_with_lock {A} (m : M LogState.t A) :
  KeepsOwn name d0 m -> KeepsOwn name d0 (with_lock m).
Proof.
  intros Hm s w r s' w' Hn Ho H.
  apply with_lock_inv in H as (w0 & w1 & F0 & _ & H & F1 & _).
  rewrite <- F0 in Ho. destruct (Hm _ _ _ _ _ Hn Ho H) as [Hn1 Ho1].
  split; [exact Hn1 | now rewrite F1].
Qed.

Lemma KeepsOwn_syscall (e : event) : KeepsOwn name d0 (syscall e).
Proof.
  intros s w r s' w' Hn Ho H.
  apply syscall_any in H as (-> & F & _). split; [exact Hn | now rewrite F].
Qed.

Lemma KeepsOwn_fh_write (p : Py.str) :
  fits p -> KeepsOwn name d0 (fh_write name (frame p)).
Proof.
  intros Hp s w r s' w' Hn Ho H.
  apply fh_write_any in H as (-> & _ & [(_ & Hex & F) | (_ & F & _)]);
    (split; [exact Hn|]); rewrite F; [|exact Ho].
  now apply own_frames_append.
Qed.

Lemma KeepsOwn_fh_tell : KeepsOwn name d0 (fh_tell name).
Proof.
  intros s w r s' w' Hn Ho H.
  apply fh_tell_any in H as (-> & F & _). split; [exact Hn | now rewrite F].
Qed.

Lemma KeepsOwn_path_exists : KeepsOwn name d0 (path_exists name).
Proof.
  intros s w r s' w' Hn Ho H.
  apply path_exists_any in H as (-> & F & _).
  split; [exact Hn | now rewrite F].
Qed.

Lemma KeepsOwn_path_rename (dst : string) :
  dst <> name -> KeepsOwn name d0 (path_rename name dst).
Proof.
  intros Hd s w r s' w' Hn Ho H.
  apply path_rename_any in H as (-> & _ & [(_ & _ & F) | (_ & F & _)]);
    (split; [exact Hn|]); rewrite F; [|exact Ho].
  now apply own_frames_rename.
Qed.

Lemma KeepsOwn_open_append : KeepsOwn name d0 (open_append name).
Proof.
  intros s w r s' w' Hn Ho H.
  apply open_append_any in H as (-> & _ & [(_ & F) | (_ & F & _)]);
    (split; [exact Hn|]); rewrite F; [|exact Ho].
  now apply own_frames_create.
Qed.

Lemma KeepsOwn_close : KeepsOwn name d0 LogState.close.
Proof.
  unfold LogState.close. apply KeepsOwn_with_lock.
  apply KeepsOwn_get. intros self _.
  destruct (negb _); [|apply KeepsOwn_ret].
  apply KeepsOwn_bind; [apply KeepsOwn_syscall | intros _].
  now apply KeepsOwn_modify.
Qed.

Lemma KeepsOwn_rollover : KeepsOwn name d0 LogState.rollover.
Proof.
  unfold LogState.rollover. apply KeepsOwn_with_lock.
  apply KeepsOwn_bind; [apply KeepsOwn_close | intros _].
  apply KeepsOwn_try.
  - apply KeepsOwn_get. intros self Hself. rewrite Hself.
    apply KeepsOwn_bind; [apply KeepsOwn_path_exists | intros there].
    apply KeepsOwn_bind.
    + destruct there; [|apply KeepsOwn_ret].
      apply KeepsOwn_bind;
        [apply KeepsOwn_path_rename, backup_path_neq | intros _].
      now apply KeepsOwn_modify.
    + intros _.
      apply KeepsOwn_bind; [apply KeepsOwn_open_append | intros _].
      now apply KeepsOwn_modify.
  - apply KeepsOwn_bind; [now apply KeepsOwn_modify | intros _].
    apply KeepsOwn_raise.
Qed.

(** The state a client holds: an instance of the constructor on [name],
    in a directory whose files are as [own_frames] says. *)
Lemma own_write (p : Py.str) (self self' : BinaryLogger.t) (w w' : World)
      (r : result unit) :
  BinaryLogger.length_bytesize self = 4%nat ->
  LogState.file_path (BinaryLogger.file_state self) = name ->
  own_frames name d0 (files w) ->
  BinaryLogger.write p self w = (r, self', w') ->
  BinaryLogger.length_bytesize self' = 4%nat
  /\ LogState.file_path (BinaryLogger.file_state self') = name
  /\ own_frames name d0 (files w').
Proof.
  intros Hw Hn Ho. unfold BinaryLogger.write, bind at 1, get at 1.
  unfold bind at 1, BinaryLogger.lift_result.
  destruct (BinaryLogger.serialize self p) as [data|e] eqn:E.
  - destruct (serialize_Ok_frame _ _ Hw E) as [Hp ->]. unfold ret at 1.
    intros H. apply zoom_inv in H as (st' & H & ->).
    split; [exact Hw|]. cbn [BinaryLogger.file_state BinaryLogger.set_file_state].
    revert H.
    match goal with
    | |- ?m _ _ = _ -> _ => assert (Hs : KeepsOwn name d0 m)
    end.
    { apply KeepsOwn_with_lock.
      apply KeepsOwn_get. intros st Hst. rewrite Hst.
      destruct (LogState.is_closed st); [apply KeepsOwn_raise|].
      apply KeepsOwn_try.
      - apply KeepsOwn_bind; [now apply KeepsOwn_fh_write | intros _].
        apply KeepsOwn_bind; [apply KeepsOwn_syscall | intros _].
        apply KeepsOwn_bind; [apply KeepsOwn_fh_tell | intros size].
        destruct (size >=? _); [apply KeepsOwn_rollover | apply KeepsOwn_ret].
      - apply KeepsOwn_bind; [now apply KeepsOwn_modify | intros _].
        apply KeepsOwn_raise. }
    intros H. exact (Hs _ _ _ _ _ Hn Ho H).
  - unfold raise. intros [= <- <- <-]. auto.
Qed.

Lemma own_close (self self' : BinaryLogger.t) (w w' : World)
      (r : result unit) :
  BinaryLogger.length_bytesize self = 4%nat ->
  LogState.file_path (BinaryLogger.file_state self) = name ->
  own_frames name d0 (files w) ->
  BinaryLogger.close self w = (r, self', w') ->
  BinaryLogger.length_bytesize self' = 4%nat
  /\ LogState.file_path (BinaryLogger.file_state self') = name
  /\ own_frames name d0 (files w').
Proof.
  intros Hw Hn Ho H. apply zoom_inv in H as (st' & H & ->).
  split; [exact Hw|]. exact (KeepsOwn_close _ _ Hn Ho H).
Qed.

Lemma own_perform (c : call) (self self' : BinaryLogger.t) (w w' : World)
      (r : result unit) :
  BinaryLogger.length_bytesize self = 4%nat ->
  LogState.file_path (BinaryLogger.file_state self) = name ->
  own_frames name d0 (files w) ->
  perform c self w = (r, self', w') ->
  BinaryLogger.length_bytesize self' = 4%nat
  /\ LogState.file_path (BinaryLogger.file_state self') = name
  /\ own_frames name d0 (files w').
Proof.
  intros Hw Hn Ho. destruct c as [p|fp| | | |]; cbn [perform].
  - now apply own_write.
  - destruct (BinaryLogger.read self fp [] w) as [[r1 ys] w1] eqn:R.
    intros [= <- <- <-].
    apply (@Steps_read quiet quiet_StepRel) in R as [F _].
    split; [exact Hw|]. split; [exact Hn | now rewrite F].
  - now apply own_close.
  - intros [= <- <- <-]. auto.
  - now apply own_close.
  - now apply own_close.
Qed.

Lemma own_perform_all (cs : list call) :
  forall (self : BinaryLogger.t) (w : World),
    BinaryLogger.length_bytesize self = 4%nat ->
    LogState.file_path (BinaryLogger.file_state self) = name ->
    own_frames name d0 (files w) ->
    own_frames name d0 (files (snd (perform_all cs self w))).
Proof.
  induction cs as [|c cs IH]; intros self w Hw Hn Ho; [exact Ho|].
  cbn [perform_all].
  destruct (perform c self w) as [[r self1] w1] eqn:P.
  destruct (own_perform _ _ _ Hw Hn Ho P) as (Hw1 & Hn1 & Ho1).
  now apply IH.
Qed.

End OwnFiles.


(* ================================================================== *)
(** ** The constructor, [rollover] and [write], case by case *)
(* ================================================================== *)

Section CallOutcomes.
Import OS Sys Quiet Session.

(** The constructor that returned. *)
Lemma init_Ok {S} (name : string) (max : Z) (s s' : S) (w w' : World)
      (logger : BinaryLogger.t) :
  BinaryLogger.init name max s w = (Ok logger, s', w') ->
  let next := LogState.next_rollover_seq (BinaryLogger.file_state logger) in
  0 < max
  /\ logger = BinaryLogger.mk name (LogState.mk name max false next) 4
  /\ files w' = create name (files w)
  /\ (faults w = [] -> faults w' = []).
Proof.
  intros H next. unfold BinaryLogger.init in H.
  destruct (Z.leb_spec max 0) as [Hle|Hlt]; [discriminate|].
  apply bind_Ok in H as (st & s1 & w1 & Hst & H).
  injection H as <- <- <-. unfold LogState.init in Hst.
  apply bind_Ok in Hst as (last_seq & s2 & w2 & Hlast & Hst).
  assert (O2 : faults w2 = faults w).
  { revert Hlast. unfold Utilities.get_last_rollover_seq, bind at 1.
    rewrite get_existing_backups_run. cbv zeta.
    destruct (Utilities.with_keys _); [|discriminate].
    destruct (rev _); [now intros [= _ _ <-]|].
    destruct (Py.int _); [now intros [= _ _ <-] | discriminate]. }
  apply (@Steps_get_last_rollover_seq quiet quiet_StepRel) in Hlast
    as [F2 _].
  apply bind_Ok in Hst as (u1 & s3 & w3 & Hmk & Hst).
  apply syscall_Ok in Hmk as (-> & F3 & O3).
  apply bind_Ok in Hst as (u2 & s4 & w4 & Hopen & Hst).
  apply open_append_Ok in Hopen as (-> & F4 & O4).
  injection Hst as <- <- <-. subst next.
  cbn [BinaryLogger.file_state LogState.next_rollover_seq].
  repeat split; auto.
  - congruence.
  - intros Hf. now rewrite O4, O3, O2, Hf.
Qed.

(** X9.  The constructor rejects a maximum that is not positive before
    it looks at the directory.  On a name that has a suffix and no
    character special to [glob], when it returns, the log is open on the
    given name with a prefix of 4 bytes, its next sequence number is past
    the number of every listed backup (0 when none is listed), so that no
    file has the name of a backup the instance is still to make, and the
    directory is as it was but for the active file, which is created
    empty if it was not there and is never truncated. *)
Theorem init_opens_without_truncating {S} (name : string) (max : Z) (s : S)
        (w : World) :
  (max <= 0 -> BinaryLogger.init name max s w = (Raise ValueError, s, w))
  /\ forall logger s' w',
       PathLib.suffix name <> ""%string ->
       glob_plain name = true ->
       BinaryLogger.init name max s w = (Ok logger, s', w') ->
       let next := LogState.next_rollover_seq (BinaryLogger.file_state logger) in
       0 < max
       /\ logger = BinaryLogger.mk name (LogState.mk name max false next) 4
       /\ 0 <= next
       /\ (listing name (files w) = [] -> next = 0)
       /\ (forall q, In q (listing name (files w)) -> backup_key q < next)
       /\ (forall k, next <= k ->
                     lookup (LogState.backup_path name k) (files w') = None)
       /\ files w' = create name (files w)
       /\ (forall f c, lookup f (files w) = Some c ->
                       lookup f (files w') = Some c)
       /\ (lookup name (files w) = None -> lookup name (files w') = Some []).
Proof.
  split.
  - intros Hmax. unfold BinaryLogger.init.
    replace (max <=? 0) with true by (symmetry; apply Z.leb_le; lia).
    reflexivity.
  - intros logger s' w' Hsuf Hplain H next.
    destruct (init_next_rollover_seq _ _ _ _ H) as (Hn0 & Hnil & Hkeys).
    destruct (init_Ok _ _ _ _ H) as (Hmax & Hlog & Hfiles & _).
    fold next in Hn0, Hnil, Hkeys, Hlog.
    repeat split; auto.
    + intros k Hk.
      rewrite Hfiles, lookup_create_other by apply backup_path_neq.
      destruct (lookup (LogState.backup_path name k) (files w)) as [c|] eqn:L;
        [exfalso | reflexivity].
      apply lookup_In in L. apply (in_map fst) in L. cbn [fst] in L.
      assert (Hin : In (LogState.backup_path name k) (listing name (files w))).
      { rewrite listing_In, fnmatch_backup_path by exact Hplain.
        rewrite seq_token_backup_path, isdigit_format_int by (auto; lia).
        auto. }
      apply Hkeys in Hin. unfold backup_key in Hin.
      rewrite seq_token_backup_path, int_format_int in Hin by (auto; lia).
      lia.
    + intros f c Hc. now rewrite Hfiles, lookup_create, Hc.
    + intros Hc. now rewrite Hfiles, lookup_create, Hc, String.eqb_refl.
Qed.

Lemma init_opens_without_truncating_witness :
  BinaryLogger.init "test.bin" 0 tt earlier_world
  = (Raise ValueError, tt, earlier_world)
  /\ fst (fst (BinaryLogger.init "test.bin" 1000 tt earlier_world))
     = Ok (BinaryLogger.mk "test.bin" (LogState.mk "test.bin" 1000 false 4) 4)
  /\ lookup "test.bin"
            (files (snd (BinaryLogger.init "test.bin" 1000 tt earlier_world)))
     = Some frame_next
  /\ lookup "test.4.bin"
            (files (snd (BinaryLogger.init "test.bin" 1000 tt earlier_world)))
     = None.
Proof.
  split.
  { apply (@init_opens_without_truncating unit "test.bin" 0 tt earlier_world).
    lia. }
  destruct (BinaryLogger.init "test.bin" 1000 tt earlier_world)
    as [[r s'] w'] eqn:E.
  assert (Er : r = Ok (BinaryLogger.mk "test.bin"
                         (LogState.mk "test.bin" 1000 false 4) 4))
    by (now injection E as <- _ _).
  rewrite Er in E.
  assert (Hs : PathLib.suffix "test.bin" <> ""%string) by discriminate.
  destruct (proj2 (@init_opens_without_truncating unit "test.bin" 1000 tt
                     earlier_world) _ _ _ Hs eq_refl E)
    as (_ & _ & _ & _ & _ & Hfree & _ & Hkeep & _).
  split; [exact Er|]. cbn [snd]. split; [apply Hkeep; reflexivity|].
  apply (Hfree 4). cbn. lia.
Defined.

(** X10.  [LogState.rollover] called on any state, closed ones included,
    with no fault to come: it returns and the log is open on an empty
    active file.  If the active file was there it is now the backup of
    the current number and the number has moved up by one; if it was
    not, no backup is made and the number stays.  No other file is
    touched. *)
Theorem rollover_reopens (s : LogState.t) (w : World) :
  faults w = [] ->
  let name := LogState.file_path s in
  let seq := LogState.next_rollover_seq s in
  let bk := LogState.backup_path name seq in
  exists s' w',
    LogState.rollover s w = (Ok tt, s', w')
    /\ LogState.is_closed s' = false
    /\ LogState.file_path s' = name
    /\ LogState.max_file_size s' = LogState.max_file_size s
    /\ lookup name (files w') = Some []
    /\ (forall f, f <> name -> f <> bk ->
                  lookup f (files w') = lookup f (files w))
    /\ match lookup name (files w) with
       | Some old =>
         LogState.next_rollover_seq s' = seq + 1
         /\ lookup bk (files w') = Some old
       | None =>
         LogState.next_rollover_seq s' = seq
         /\ lookup bk (files w') = lookup bk (files w)
       end.
Proof.
  intros Hf name seq bk.
  destruct (LogState.rollover s w) as [[r s'] w'] eqn:E.
  pose proof (rollover_any _ _ E) as Hany. fold name seq in Hany.
  destruct Hany as (Hp & Hm & _ & Ht & _ & Hcase).
  destruct Hcase as [(-> & Hc) | (_ & Hfault & _)];
    [|rewrite Hf in Hfault; destruct Hfault].
  exists s', w'. split; [reflexivity|].
  pose proof (rollover_Ok _ _ E) as Hok. fold name seq in Hok.
  pose proof (@backup_path_neq name seq) as Hne. fold bk in Hne, Ht.
  assert (Hne' : name <> bk) by congruence.
  split; [exact Hc|]. split; [exact Hp|]. split; [exact Hm|].
  destruct Hok as [(Hex & Hfiles & Hs') | (Hex & Hfiles & Hs')].
  - apply exists_lookup in Hex as (old & Hold). rewrite Hold.
    split; [|split; [exact Ht|split]].
    + rewrite Hfiles, lookup_create, lookup_rename_src by exact Hne'.
      now rewrite String.eqb_refl.
    + now rewrite Hs'.
    + rewrite Hfiles, lookup_create_other, lookup_rename_dst by auto.
      exact Hold.
  - unfold exists_ in Hex.
    destruct (lookup name (files w)) eqn:Hl; [discriminate|].
    split; [|split; [exact Ht|split]].
    + now rewrite Hfiles, lookup_create, Hl, String.eqb_refl.
    + now rewrite Hs'.
    + now rewrite Hfiles, lookup_create_other.
Qed.

Lemma rollover_reopens_witness :
  let r := LogState.rollover (LogState.mk "test.bin" 1000 true 4)
                             earlier_world in
  fst (fst r) = Ok tt
  /\ LogState.is_closed (snd (fst r)) = false
  /\ LogState.next_rollover_seq (snd (fst r)) = 5
  /\ lookup "test.4.bin" (files (snd r)) = Some frame_next
  /\ lookup "test.bin" (files (snd r)) = Some [].
Proof.
  intros r.
  destruct (@rollover_reopens (LogState.mk "test.bin" 1000 true 4)
              earlier_world eq_refl)
    as (s' & w' & E & Hc & _ & _ & Hactive & _ & Hseq & Hbk).
  subst r. rewrite E. cbn [fst snd]. auto.
Defined.

(** X11.  A [write] that returns and leaves the active file below the
    maximum: the frame is at the end of the active file, no other file
    is touched, and the instance is as it was (no rollover, same
    sequence number). *)
Theorem write_below_threshold (payload : Py.str) (self self' : BinaryLogger.t)
        (w w' : World) (old frame : Py.bytes) :
  let st := BinaryLogger.file_state self in
  let name := LogState.file_path st in
  BinaryLogger.write payload self w = (Ok tt, self', w') ->
  lookup name (files w) = Some old ->
  BinaryLogger.serialize self payload = Ok frame ->
  Py.len (old ++ frame) < LogState.max_file_size st ->
  self' = self
  /\ lookup name (files w') = Some (old ++ frame)
  /\ (forall other, other <> name ->
                    lookup other (files w') = lookup other (files w))
  /\ map fst (files w') = map fst (files w).
Proof.
  intros st name Hw Hold Hser Hsize.
  apply write_Ok in Hw. fold st name in Hw.
  destruct Hw as (frame' & old' & Hser' & Hopen & Hold' & Hcases).
  assert (frame' = frame) by congruence. subst frame'.
  assert (old' = old) by congruence. subst old'.
  destruct Hcases as [(_ & Hfiles & ->) | (Hge & _)]; [|lia].
  rewrite Hfiles. repeat split.
  - now apply lookup_append_same.
  - intros other Hne. now apply lookup_append_other.
  - apply append_names.
Qed.

Lemma write_below_threshold_witness :
  let r := BinaryLogger.write (Py.of_string "ok") sample_logger
                              sample_world in
  snd (fst r) = sample_logger
  /\ lookup "test.bin" (files (snd r)) = Some frame_ok.
Proof.
  intros r. destruct r as [[res self'] w'] eqn:E. subst r.
  assert (Er : res = Ok tt) by (now injection E as <- _ _).
  rewrite Er in E.
  destruct (@write_below_threshold (Py.of_string "ok") sample_logger self'
              sample_world w' [] frame_ok E)
    as (H1 & H2 & _).
  - reflexivity.
  - reflexivity.
  - cbn. lia.
  - cbn [fst snd]. auto.
Defined.

Lemma perform_has_room (c : call) (self self' : BinaryLogger.t)
      (w w' : World) (r : result unit) :
  0 < LogState.max_file_size (BinaryLogger.file_state self) ->
  has_room self w ->
  perform c self w = (r, self', w') ->
  has_room self' w'
  /\ LogState.max_file_size (BinaryLogger.file_state self')
     = LogState.max_file_size (BinaryLogger.file_state self).
Proof.
  intros Hmax Hroom. destruct c as [p|fp| | | |]; cbn [perform].
  - intros H. pose proof (write_any _ _ _ H) as Hany. cbv zeta in Hany.
    destruct Hany as (_ & _ & Hp & Hm & _ & _ & _ & Hcase).
    split; [|exact Hm].
    destruct Hcase as [(-> & Hc & Hc') | [(_ & _ & -> & ->)
                       | [(_ & _ & -> & F) | (_ & _ & Hc' & _)]]].
    + apply write_Ok in H. cbv zeta in H.
      destruct H as (frame & old & _ & _ & Hold & Hcases).
      destruct Hcases as [(Hlt & Hfiles & ->) | (Hge & Hfiles & ->)].
      * intros _. exists (old ++ frame). split; [|exact Hlt].
        rewrite Hfiles. now apply lookup_append_same.
      * intros _. exists []. cbn [BinaryLogger.set_file_state
                                    BinaryLogger.file_state
                                    LogState.file_path
                                    LogState.max_file_size].
        split; [|cbn; lia].
        rewrite Hfiles, lookup_create, lookup_rename_src.
        -- now rewrite String.eqb_refl.
        -- intros E. symmetry in E. now apply backup_path_neq in E.
    + exact Hroom.
    + unfold has_room in *. now rewrite F.
    + intros Hopen. congruence.
  - destruct (BinaryLogger.read self fp [] w) as [[r1 ys] w1] eqn:R.
    intros [= <- <- <-]. split; [|reflexivity].
    apply (@Steps_read quiet quiet_StepRel) in R as [F _].
    unfold has_room in *. now rewrite F.
  - intros H. apply zoom_inv in H as (st' & H & ->).
    apply close_any in H as (F & _ & [(_ & ->) | (_ & -> & _)]).
    + split; [|reflexivity]. intros Hopen. discriminate.
    + split; [|reflexivity]. unfold has_room in *.
      cbn [BinaryLogger.set_file_state BinaryLogger.file_state]. now rewrite F.
  - intros [= <- <- <-]. auto.
  - intros H. apply zoom_inv in H as (st' & H & ->).
    apply close_any in H as (F & _ & [(_ & ->) | (_ & -> & _)]).
    + split; [|reflexivity]. intros Hopen. discriminate.
    + split; [|reflexivity]. unfold has_room in *.
      cbn [BinaryLogger.set_file_state BinaryLogger.file_state]. now rewrite F.
  - intros H. apply zoom_inv in H as (st' & H & ->).
    apply close_any in H as (F & _ & [(_ & ->) | (_ & -> & _)]).
    + split; [|reflexivity]. intros Hopen. discriminate.
    + split; [|reflexivity]. unfold has_room in *.
      cbn [BinaryLogger.set_file_state BinaryLogger.file_state]. now rewrite F.
Qed.

Lemma perform_all_has_room (cs : list call) :
  forall (self : BinaryLogger.t) (w : World),
    0 < LogState.max_file_size (BinaryLogger.file_state self) ->
    has_room self w ->
    has_room (fst (perform_all cs self w)) (snd (perform_all cs self w)).
Proof.
  induction cs as [|c cs IH]; intros self w Hmax Hroom; [exact Hroom|].
  cbn [perform_all].
  destruct (perform c self w) as [[r self1] w1] eqn:P.
  destruct (perform_has_room _ Hmax Hroom P) as [Hroom1 Hm].
  apply IH; [lia | exact Hroom1].
Qed.

(** X12.  A log opened where the active file is missing or shorter than
    the maximum keeps it so: after any sequence of calls, whatever
    raises and whichever system calls fail, as long as the log is open
    its active file is there and is shorter than [max_file_size]. *)
Theorem active_file_stays_below_max (name : string) (max : Z)
        (w0 w1 : World) (logger : BinaryLogger.t) (cs : list call) :
  BinaryLogger.init name max tt w0 = (Ok logger, tt, w1) ->
  (forall c, lookup name (files w0) = Some c -> Py.len c < max) ->
  has_room (fst (perform_all cs logger w1)) (snd (perform_all cs logger w1)).
Proof.
  intros Hinit Hsmall.
  destruct (init_Ok _ _ _ _ Hinit) as (Hmax & Hlog & Hfiles & _).
  apply perform_all_has_room.
  - rewrite Hlog. exact Hmax.
  - rewrite Hlog. intros _.
    cbn [BinaryLogger.file_state LogState.file_path LogState.max_file_size].
    rewrite Hfiles, lookup_create.
    destruct (lookup name (files w0)) as [c|] eqn:Hc.
    + exists c. auto.
    + exists []. rewrite String.eqb_refl. split; [reflexivity | cbn; lia].
Qed.

Lemma active_file_stays_below_max_witness :
  has_room
    (fst (perform_all [CallWrite (Py.of_string "ok");
                       CallWrite (Py.of_string "next"); CallRead None]
                      sample_logger sample_world))
    (snd (perform_all [CallWrite (Py.of_string "ok");
                       CallWrite (Py.of_string "next"); CallRead None]
                      sample_logger sample_world)).
Proof.
  apply (@active_file_stays_below_max "test.bin" 1000 empty_world
           sample_world sample_logger).
  - reflexivity.
  - cbn. discriminate.
Defined.



Lemma perform_touches (c : call) (self self' : BinaryLogger.t)
      (w w' : World) (r : result unit) :
  perform c self w = (r, self', w') ->
  let st := BinaryLogger.file_state self in
  let st' := BinaryLogger.file_state self' in
  let name := LogState.file_path st in
  let seq := LogState.next_rollover_seq st in
  LogState.file_path st' = name
  /\ seq <= LogState.next_rollover_seq st' <= seq + 1
  /\ (forall f, f <> name -> f <> LogState.backup_path name seq ->
                lookup f (files w') = lookup f (files w)).
Proof.
  intros H st st' name seq. subst st'.
  destruct c as [p|fp| | | |]; cbn [perform] in H.
  - pose proof (write_any _ _ _ H) as Hany. cbv zeta in Hany.
    fold st name seq in Hany.
    destruct Hany as (_ & _ & Hp & _ & Hs & Ht & _).
    split; [exact Hp|]. split; [unfold seq, st in *; lia | exact Ht].
  - destruct (BinaryLogger.read self fp [] w) as [[r1 ys] w1] eqn:R.
    injection H as <- <- <-.
    apply (@Steps_read quiet quiet_StepRel) in R as [F _].
    split; [reflexivity|]. split; [unfold seq, st; lia|].
    intros f _ _. now rewrite F.
  - apply zoom_inv in H as (t' & H & ->).
    apply close_any in H as (F & _ & [(_ & ->) | (_ & -> & _)]);
      (split; [reflexivity|]); (split; [unfold seq, st; cbn; lia|]);
      intros f _ _; now rewrite F.
  - injection H as <- <- <-.
    split; [reflexivity|]. split; [unfold seq, st; lia|]. reflexivity.
  - apply zoom_inv in H as (t' & H & ->).
    apply close_any in H as (F & _ & [(_ & ->) | (_ & -> & _)]);
      (split; [reflexivity|]); (split; [unfold seq, st; cbn; lia|]);
      intros f _ _; now rewrite F.
  - apply zoom_inv in H as (t' & H & ->).
    apply close_any in H as (F & _ & [(_ & ->) | (_ & -> & _)]);
      (split; [reflexivity|]); (split; [unfold seq, st; cbn; lia|]);
      intros f _ _; now rewrite F.
Qed.

Lemma perform_all_touches (cs : list call) (self : BinaryLogger.t)
      (w : World) :
  let st := BinaryLogger.file_state self in
  let st' := BinaryLogger.file_state (fst (perform_all cs self w)) in
  let name := LogState.file_path st in
  let seq := LogState.next_rollover_seq st in
  LogState.file_path st' = name
  /\ seq <= LogState.next_rollover_seq st' <= seq + Z.of_nat (List.length cs)
  /\ forall f,
       f <> name ->
       (forall k, seq <= k -> f <> LogState.backup_path name k) ->
       lookup f (files (snd (perform_all cs self w))) = lookup f (files w).
Proof.
  cbv zeta. revert self w. induction cs as [|c cs IH]; intros self w.
  - cbn. repeat split; auto; lia.
  - cbn [perform_all List.length].
    destruct (perform c self w) as [[r self1] w1] eqn:P.
    pose proof (perform_touches _ _ _ P) as H1. cbv zeta in H1.
    destruct H1 as (Hp1 & Hs1 & Ht1).
    specialize (IH self1 w1). rewrite Hp1 in IH.
    destruct IH as (Hp & Hs & Ht).
    split; [exact Hp|]. split; [lia|].
    intros f Hf Hbk. rewrite Ht.
    + apply Ht1; [exact Hf|]. apply Hbk. lia.
    + exact Hf.
    + intros k Hk. apply Hbk. lia.
Qed.

(** X14.  Old backups are never modified.  A log opened by the
    constructor on a name that has a suffix and no character special to
    [glob]: whatever the calls that follow ([read] in its default mode),
    whatever they raise and whichever system calls fail, every backup
    that was listed when the log was opened keeps its content, and so
    does every file other than the active file and the backups numbered
    from the constructor's sequence number on; the name of the log never
    changes and its sequence number never goes down, nor up by more than
    one per call. *)
Theorem calls_touch_only_own_files (name : string) (max : Z)
        (w0 w1 : World) (logger : BinaryLogger.t) (cs : list call) :
  PathLib.suffix name <> ""%string ->
  glob_plain name = true ->
  BinaryLogger.init name max tt w0 = (Ok logger, tt, w1) ->
  let next := LogState.next_rollover_seq (BinaryLogger.file_state logger) in
  let final := perform_all cs logger w1 in
  let st' := BinaryLogger.file_state (fst final) in
  LogState.file_path st' = name
  /\ next <= LogState.next_rollover_seq st' <= next + Z.of_nat (List.length cs)
  /\ (forall q, In q (listing name (files w0)) ->
                lookup q (files (snd final)) = lookup q (files w0))
  /\ (forall f,
         f <> name ->
         (forall k, next <= k -> f <> LogState.backup_path name k) ->
         lookup f (files (snd final)) = lookup f (files w0)).
Proof.
  intros Hsuf Hplain Hinit next final st'.
  destruct (init_next_rollover_seq _ _ _ _ Hinit) as (Hn0 & _ & Hkeys).
  destruct (init_Ok _ _ _ _ Hinit) as (_ & Hlog & Hfiles & _).
  fold next in Hn0, Hkeys, Hlog.
  pose proof (perform_all_touches cs logger w1) as H. cbv zeta in H.
  fold final st' in H.
  assert (En : LogState.file_path (BinaryLogger.file_state logger) = name)
    by (rewrite Hlog; reflexivity).
  rewrite En in H. fold next in H.
  destruct H as (Hp & Hs & Ht).
  assert (Hother : forall f,
             f <> name ->
             (forall k, next <= k -> f <> LogState.backup_path name k) ->
             lookup f (files (snd final)) = lookup f (files w0)).
  { intros f Hf Hbk. rewrite (Ht f Hf Hbk), Hfiles.
    now apply lookup_create_other. }
  split; [exact Hp|]. split; [exact Hs|]. split; [|exact Hother].
  intros q Hq. apply Hother.
  - intros ->. apply listing_In in Hq as (_ & Hm & _).
    rewrite fnmatch_active in Hm by auto. discriminate.
  - intros k Hk ->. apply Hkeys in Hq. unfold backup_key in Hq.
    rewrite seq_token_backup_path, int_format_int in Hq by (auto; lia).
    lia.
Qed.

Lemma calls_touch_only_own_files_witness :
  lookup "test.3.bin"
         (files (snd (perform_all
                        [CallWrite (Py.of_string "ok"); CallRead None;
                         CallWrite (Py.of_string "abcdef"); CallClose;
                         CallWrite (Py.of_string "next")]
                        (BinaryLogger.mk "test.bin"
                           (LogState.mk "test.bin" 5 false 4) 4)
                        (snd (BinaryLogger.init "test.bin" 5 tt
                                                earlier_world)))))
  = Some frame_ok.
Proof.
  assert (Hs : PathLib.suffix "test.bin" <> ""%string) by discriminate.
  destruct (@calls_touch_only_own_files "test.bin" 5 earlier_world
              (snd (BinaryLogger.init "test.bin" 5 tt earlier_world))
              (BinaryLogger.mk "test.bin" (LogState.mk "test.bin" 5 false 4) 4)
              [CallWrite (Py.of_string "ok"); CallRead None;
               CallWrite (Py.of_string "abcdef"); CallClose;
               CallWrite (Py.of_string "next")]
              Hs eq_refl eq_refl)
    as (_ & _ & Hold & _).
  rewrite (Hold "test.3.bin"%string); [reflexivity|].
  cbn. auto.
Defined.

End CallOutcomes.

(* ================================================================== *)
(** ** The frame format *)
(* ================================================================== *)

Section FrameFormat.
Import OS Sys Session.

(** C6, as the code has it.  For every payload whose encoding has fewer
    than 2^32 bytes, [__serialize] at the width of the constructor returns
    the four base-256 digits of the length of the encoding, most
    significant first, followed by the encoding and nothing else; the
    encoding never raises and writes [b'?'] for a surrogate.  And for a
    log opened on a name whose file is not there or is a sequence of
    frames, whatever the other files of the directory and whatever the
    calls made on the instance and their fate: the active file is a
    sequence of frames, and every other file is one or is as it was when
    the log was opened. *)
Theorem frame_format :
  (forall self payload,
      BinaryLogger.length_bytesize self = 4%nat ->
      Py.len (Py.encode payload) < 2 ^ 32 ->
      let n := Py.len (Py.encode payload) in
      BinaryLogger.serialize self payload
      = Ok ([Py.byte_of_N (Z.to_N ((n / 16777216) mod 256));
             Py.byte_of_N (Z.to_N ((n / 65536) mod 256));
             Py.byte_of_N (Z.to_N ((n / 256) mod 256));
             Py.byte_of_N (Z.to_N (n mod 256))] ++ Py.encode payload)
      /\ Py.from_bytes (Py.be_digits 4 n) = n)
  /\ (forall c, Py.is_surrogate c = true -> Py.encode_char c = [Byte.x3f])
  /\ (forall name max w0 logger w1 cs,
         (forall c, lookup name (files w0) = Some c -> is_log_file c) ->
         BinaryLogger.init name max tt w0 = (Ok logger, tt, w1) ->
         let w := snd (perform_all cs logger w1) in
         (forall c, lookup name (files w) = Some c -> is_log_file c)
         /\ (forall f c,
                f <> name -> lookup f (files w) = Some c ->
                is_log_file c \/ lookup f (files w0) = Some c)).
Proof.
  split; [|split].
  - intros self payload Hw Hn n. split.
    + rewrite serialize_frame by assumption. unfold frame.
      now rewrite be_digits_4.
    + apply to_bytes_Some. rewrite pow_256_4.
      split; [apply len_nonneg | exact Hn].
  - intros c Hc. unfold Py.encode_char. rewrite Hc.
    unfold Py.is_surrogate in Hc. apply andb_true_iff in Hc as [H1 H2].
    apply N.leb_le in H1, H2.
    replace (c <? 0x80)%N with false by (symmetry; apply N.ltb_ge; lia).
    replace (c <? 0x800)%N with false by (symmetry; apply N.ltb_ge; lia).
    replace (c <? 0x10000)%N with true by (symmetry; apply N.ltb_lt; lia).
    reflexivity.
  - intros name max w0 logger w1 cs H0 Hinit w.
    destruct (init_Ok _ _ _ _ Hinit) as (_ & Hlogger & Hfiles & _).
    assert (Ho : own_frames name (files w0) (files w)).
    { apply own_perform_all.
      - rewrite Hlogger. reflexivity.
      - rewrite Hlogger. reflexivity.
      - rewrite Hfiles. intros f c Hf. rewrite lookup_create in Hf.
        destruct (lookup f (files w0)) as [c'|] eqn:E.
        + injection Hf as <-.
          destruct (string_dec f name) as [->|Hne]; [left; auto | right; auto].
        + destruct (String.eqb name f); [|discriminate].
          injection Hf as <-. left. apply is_log_file_nil. }
    split.
    + intros c Hc. eapply own_frames_active; eauto.
    + intros f c _ Hf. destruct (Ho f c Hf) as [L|[_ U]]; auto.
Qed.

Lemma frame_format_witness :
  BinaryLogger.serialize sample_logger (Py.of_string "hi")
  = Ok [Byte.x00; Byte.x00; Byte.x00; Byte.x02; Byte.x68; Byte.x69]
  /\ Py.encode_char 0xD800 = [Byte.x3f]
  /\ forall c,
       lookup "test.bin"
              (files (snd (perform_all
                             [CallWrite (Py.of_string "ok");
                              CallWrite (Py.of_string "next"); CallClose]
                             sample_logger
                             (snd (BinaryLogger.init "test.bin" 1000 tt
                                                     busy_world)))))
       = Some c ->
       is_log_file c.
Proof.
  destruct frame_format as (H1 & H2 & H3).
  split; [|split].
  - exact (proj1 (H1 sample_logger (Py.of_string "hi") eq_refl eq_refl)).
  - exact (H2 0xD800%N eq_refl).
  - refine (proj1 (H3 "test.bin"%string 1000 busy_world sample_logger _ _ _ _)).
    + intros c Hc. discriminate.
    + reflexivity.
Defined.

(** C6 as stated fails: for the payload of 2^32 letters [__serialize]
    produces no frame, it raises [OverflowError]. *)
Lemma serialize_huge_payload :
  BinaryLogger.serialize sample_logger huge_payload = Raise OverflowError.
Proof.
  apply serialize_overflow. rewrite huge_payload_len. apply Z.le_refl.
Qed.

End FrameFormat.

(* ================================================================== *)
(** ** A log that is closed and opened again *)
(* ================================================================== *)

Section Reopening.
Import OS Sys Session.

Variable name : string.
Hypothesis name_suffix : PathLib.suffix name <> ""%string.
Hypothesis name_plain : glob_plain name = true.

(** [close] on an open log, with no fault to come. *)
Lemma close_run (logger : BinaryLogger.t) (w : World) :
  faults w = [] ->
  exists logger' w',
    BinaryLogger.close logger w = (Ok tt, logger', w')
    /\ files w' = files w /\ faults w' = [].
Proof.
  intros Hf. destruct (BinaryLogger.close logger w) as [[r logger'] w'] eqn:E.
  pose proof E as E'. unfold BinaryLogger.close in E'.
  apply zoom_inv in E' as (t' & H & ->).
  apply close_any in H as (F & O & [(-> & _) | (_ & _ & _ & Hfault)]);
    [|rewrite Hf in Hfault; destruct Hfault].
  eexists _, _. split; [reflexivity|]. auto.
Qed.

(** The constructor on the directory a log has left: the new instance
    goes on where the old one stopped. *)
Lemma init_reopen (max max2 : Z) (chunks : list (list Py.str))
      (cur : list Py.str) (logger : BinaryLogger.t) (w w2 : World) :
  log_inv name max chunks cur logger w ->
  files w2 = files w -> faults w2 = [] -> 0 < max2 ->
  exists logger2 w3,
    BinaryLogger.init name max2 tt w2 = (Ok logger2, tt, w3)
    /\ log_inv name max2 chunks cur logger2 w3.
Proof.
  intros Hinv Hfiles Hfaults Hmax2.
  assert (Hinv2 : log_inv name max chunks cur logger w2).
  { destruct Hinv as [Hlg Hf Hd Hch Hcur]. split; auto.
    now rewrite Hfiles. }
  destruct (get_existing_backups_inv name_suffix name_plain tt Hinv2)
    as (w' & Hgeb & Hfiles' & Hfaults').
  destruct Hinv2 as [Hlg _ (pre & Hd & Hname & Hglob & Hent) Hch Hcur].
  assert (Hlast :
    Utilities.get_last_rollover_seq name tt w2
    = (Ok (Z.of_nat (List.length chunks) - 1), tt, w')).
  { unfold Utilities.get_last_rollover_seq, bind at 1. rewrite Hgeb.
    destruct (List.length chunks) as [|k].
    - reflexivity.
    - rewrite backup_names_S, rev_app_distr. cbn [rev app].
      rewrite seq_token_backup_path, int_format_int by (auto; lia).
      unfold ret. do 2 f_equal. f_equal. lia. }
  unfold BinaryLogger.init.
  replace (max2 <=? 0) with false by (symmetry; apply Z.leb_gt; lia).
  unfold bind at 1, LogState.init, bind at 1. rewrite Hlast.
  destruct w' as [d fs tr]. cbn in Hfiles', Hfaults'. subst fs.
  unfold bind at 1, mkdir_parents. rewrite syscall_run.
  unfold bind at 1, open_append, bind at 1. rewrite syscall_run.
  unfold bind at 1, get_files at 1, set_files at 1. cbn [files faults trace].
  unfold ret.
  assert (Hex : create name d = d).
  { unfold create.
    replace (exists_ name d) with true; [reflexivity|].
    symmetry. apply exists_lookup. exists (frames cur).
    rewrite Hfiles', Hd, lookup_app, Hname. cbn. now rewrite String.eqb_refl. }
  rewrite Hex. eexists _, _. split; [reflexivity|].
  split; cbn [files faults]; auto.
  - do 2 f_equal. f_equal. lia.
  - exists pre. rewrite Hfiles', Hd. auto.
Qed.

(** X15.  The backups of a new log are numbered from 0 without a gap.
    On a name that has a suffix and no character special to [glob], in a
    directory that holds neither the active file nor a file matching the
    backup pattern, with no I/O fault, and for payloads without surrogate
    whose encoding fits the prefix: after any number of writes, the
    sorted listing holds exactly the backups 0, 1, ..., k-1 in that
    order, where k is the sequence number the instance has reached. *)
Theorem backups_numbered_from_zero (max : Z) (payloads : list Py.str)
        (w0 : World) :
  0 < max ->
  faults w0 = [] ->
  lookup name (files w0) = None ->
  filter (PathLib.fnmatch (backup_pattern name)) (map fst (files w0)) = [] ->
  Forall writable payloads ->
  exists k,
    backups_after name max payloads w0
    = Some (map (fun i => LogState.backup_path name (Z.of_nat i)) (seq 0 k),
            Z.of_nat k).
Proof.
  intros Hmax Hf Habs Hglob Hps. unfold backups_after.
  destruct (init_fresh name w0 Hmax Hf Habs Hglob)
    as (logger & w1 & Hinit & Hinv).
  rewrite Hinit.
  destruct (write_all_inv name_suffix name_plain Hps Hinv)
    as (chunks & cur & logger' & w2 & Hw & Hinv' & _).
  rewrite Hw.
  destruct (get_existing_backups_inv name_suffix name_plain tt Hinv')
    as (w3 & Hgeb & _).
  rewrite Hgeb. cbn [fst].
  exists (List.length chunks). destruct Hinv' as [-> _ _ _ _]. reflexivity.
Qed.

(** X16.  A log that is closed and opened again by a new instance, with
    whatever maximum, goes on where it stopped.  On a name that has a
    suffix and no character special to [glob], in a directory that held
    neither the active file nor a file matching the backup pattern, with
    no I/O fault, and for payloads without surrogate whose encoding fits
    the prefix: what the first instance wrote and what the second wrote
    come back from [read] in one sequence, in the order written, across
    all the backups. *)
Theorem reopened_log_reads_both_lives (max1 max2 : Z)
        (first second : list Py.str) (w0 : World) :
  0 < max1 -> 0 < max2 ->
  faults w0 = [] ->
  lookup name (files w0) = None ->
  filter (PathLib.fnmatch (backup_pattern name)) (map fst (files w0)) = [] ->
  Forall writable first -> Forall writable second ->
  two_lives name max1 max2 first second w0 = (Ok tt, first ++ second).
Proof.
  intros Hmax1 Hmax2 Hf Habs Hglob H1 H2. unfold two_lives.
  destruct (init_fresh name w0 Hmax1 Hf Habs Hglob)
    as (logger & w1 & Hinit & Hinv).
  rewrite Hinit.
  destruct (write_all_inv name_suffix name_plain H1 Hinv)
    as (chunks & cur & logger' & w2 & Hw & Hinv' & E1).
  unfold bind at 1. rewrite Hw.
  destruct (@close_run logger' w2 (inv_faults Hinv'))
    as (closed & w3 & Hclose & Hfiles3 & Hfaults3).
  rewrite Hclose.
  destruct (@init_reopen max1 max2 chunks cur logger' w2 w3 Hinv'
              Hfiles3 Hfaults3 Hmax2)
    as (reader & w4 & Hinit2 & Hinv2).
  rewrite Hinit2.
  destruct (write_all_inv name_suffix name_plain H2 Hinv2)
    as (chunks' & cur' & reader' & w5 & Hw2 & Hinv3 & E2).
  rewrite Hw2.
  destruct (read_inv name_suffix name_plain Hinv3) as (w6 & Hr).
  rewrite Hr. cbn [fst]. rewrite E2, E1. reflexivity.
Qed.

End Reopening.

Section ReopeningInstances.
Import OS Sys Session.

Lemma backups_numbered_from_zero_witness :
  exists k,
    backups_after "test.bin" 20 five_payloads busy_world
    = Some (map (fun i => LogState.backup_path "test.bin" (Z.of_nat i))
                (seq 0 k),
            Z.of_nat k).
Proof.
  apply (@backups_numbered_from_zero "test.bin").
  - discriminate.
  - reflexivity.
  - lia.
  - reflexivity.
  - reflexivity.
  - reflexivity.
  - exact five_payloads_writable.
Defined.

Lemma reopened_log_reads_both_lives_witness :
  two_lives "test.bin" 20 7 five_payloads five_payloads busy_world
  = (Ok tt, five_payloads ++ five_payloads).
Proof.
  apply (@reopened_log_reads_both_lives "test.bin").
  - discriminate.
  - reflexivity.
  - lia.
  - lia.
  - reflexivity.
  - reflexivity.
  - reflexivity.
  - exact five_payloads_writable.
  - exact five_payloads_writable.
Defined.

End ReopeningInstances.

(* ================================================================== *)
(** ** [demo] *)
(* ================================================================== *)

Section Demo.
Import OS Sys Quiet Session.

Lemma demo_events_writable : Forall writable demo_events.
Proof.
  unfold demo_events. cbn [repeat List.concat map app].
  repeat constructor; try (apply of_string_scalar; reflexivity);
    reflexivity.
Qed.

(** X17.  [demo] in a directory that holds no [events.bin] and no backup
    of it, with no I/O fault: it raises nothing, [close] included, and
    prints the forty events in the order logged, numbered from 0,
    whatever else the directory holds. *)
Theorem demo_prints_the_events (w0 : World) :
  faults w0 = [] ->
  lookup "events.bin" (files w0) = None ->
  filter (PathLib.fnmatch "events.*.bin") (map fst (files w0)) = [] ->
  fst (demo w0) = Ok (combine (seq 0 40) demo_events).
Proof.
  intros Hf Habs Hglob. unfold demo.
  assert (Hsuf : PathLib.suffix "events.bin" <> ""%string) by discriminate.
  assert (Hplain : glob_plain "events.bin" = true) by reflexivity.
  destruct (@init_fresh "events.bin" 1000 w0) as (logger & w1 & Hinit & Hinv);
    auto; [lia|].
  rewrite Hinit.
  destruct (write_all_inv Hsuf Hplain demo_events_writable Hinv)
    as (chunks & cur & logger' & w2 & Hw & Hinv' & E).
  rewrite Hw.
  destruct (read_inv Hsuf Hplain Hinv') as (w3 & Hr).
  assert (Hr' : BinaryLogger.read logger' (Some "events.bin"%string) [] w2
                = (Ok tt, List.concat chunks ++ cur, w3)).
  { rewrite <- Hr. destruct Hinv' as [-> _ _ _ _]. reflexivity. }
  rewrite Hr'.
  assert (Hf3 : faults w3 = []).
  { revert Hr. unfold BinaryLogger.read, bind at 1.
    destruct (get_existing_backups_inv Hsuf Hplain (@nil Py.str) Hinv')
      as (w' & Hgeb & Hfiles' & Hfaults').
    replace (BinaryLogger.file_path logger') with "events.bin"%string
      by (destruct Hinv' as [-> _ _ _ _]; reflexivity).
    rewrite Hgeb.
    destruct Hinv' as [Hlg _ (pre & Hd & Hname & Hgl & Hent) Hch Hcur].
    intros Hloop.
    destruct (@read_loop_run logger'
                (backup_entries "events.bin" chunks ++ [("events.bin"%string, cur)]))
      with (ys := @nil Py.str) (w := w') as (w'' & Hrun & _ & Hfaults'').
    - now subst logger'.
    - exact Hfaults'.
    - rewrite Hfiles', Hd. apply Forall_app. split.
      + rewrite Forall_forall in *. intros e He. split.
        * rewrite lookup_app, (Hent e He). reflexivity.
        * assert (In (snd e) chunks).
          { rewrite <- (backup_entries_chunks "events.bin" chunks).
            now apply in_map. }
          auto.
      + constructor; [|constructor]. cbn [fst snd]. split; [|exact Hcur].
        rewrite lookup_app, Hname. cbn. reflexivity.
    - rewrite map_app, backup_entries_names in Hrun. cbn [map fst] in Hrun.
      rewrite Hrun in Hloop. now injection Hloop as _ <-. }
  destruct (@close_run logger' w3 Hf3) as (closed & w4 & Hclose & _).
  rewrite Hclose. cbn [fst snd]. rewrite E. reflexivity.
Qed.

Lemma demo_prints_the_events_witness :
  fst (demo empty_world) = Ok (combine (seq 0 40) demo_events).
Proof.
  apply demo_prints_the_events; reflexivity.
Defined.

End Demo.

(* ================================================================== *)
(** ** The lock, whatever fails *)
(* ================================================================== *)

Section LockSafety.
Import OS Sys Session Threaded Concurrency.

Lemma start_lock_inv (logger : BinaryLogger.t) (w : World)
      (pss : list (list Py.str)) :
  lock_inv (start logger w pss).
Proof.
  split; cbn [start threads owner]; [|discriminate].
  intros i th Hth. rewrite nth_error_map in Hth.
  destruct (nth_error pss i); [|discriminate]. injection Hth as <-.
  cbn. apply free_of_None.
Qed.

Lemma write_serialize_waiting (self : BinaryLogger.t) (p : Py.str) :
  waiting (write_serialize self p).
Proof.
  unfold write_serialize, Task.lift_result.
  destruct (BinaryLogger.serialize self p) as [data|e]; cbn [Task.bind].
  - right. right. destruct (write_locked_locked data) as (k & -> & Hk). eauto.
  - left. eauto.
Qed.

(** The thread that moved is where [H] says; the others are free of the
    lock before and after, or nothing they can see has changed. *)
Lemma lock_inv_update (c : config) (i : nat) (th th' : thread)
      (own' : option (nat * nat)) (s' : BinaryLogger.t) (w' : World) :
  lock_inv c ->
  nth_error (threads c) i = Some th ->
  match current th' with
  | None => free_of own' i
  | Some t =>
    (free_of own' i /\ waiting t)
    \/ (exists d, own' = Some (i, d) /\ locked d t)
  end ->
  (own' = owner c
   \/ forall j, j <> i -> free_of (owner c) j /\ free_of own' j) ->
  (forall j d, own' = Some (j, d) -> (j < List.length (threads c))%nat) ->
  lock_inv (mkConfig (set_nth i th' (threads c)) own' s' w').
Proof.
  intros [Hall Hheld] Hth Hi Hothers Hheld'.
  split; cbn [threads owner].
  - intros j thj Hj. destruct (Nat.eq_dec i j) as [<-|Hne].
    + rewrite (nth_error_set_nth_eq _ _ _ Hth) in Hj. injection Hj as <-.
      exact Hi.
    + rewrite nth_error_set_nth_neq in Hj by exact Hne.
      specialize (Hall j thj Hj).
      destruct Hothers as [-> | Hfr]; [exact Hall|].
      destruct (Hfr j) as [F F']; [congruence|].
      destruct (current thj) as [t|]; [|exact F'].
      destruct Hall as [[_ Hw] | (d & Ho & _)]; [auto|].
      exfalso. exact (F d Ho).
  - intros j d Ho. rewrite set_nth_length. eauto.
Qed.

Lemma step_lock_inv (i : nat) (c : config) : lock_inv c -> lock_inv (step i c).
Proof.
  intros Hinv. pose proof Hinv as [Hall Hheld].
  unfold step. destruct (nth_error (threads c) i) as [th|] eqn:Hth; [|exact Hinv].
  pose proof (Hall i th Hth) as Hi.
  assert (Hlt : (i < List.length (threads c))%nat).
  { apply nth_error_Some. congruence. }
  cbv zeta.
  destruct (current th) as [t|] eqn:Hc.
  - destruct Hi as [[Hf Hw] | (d & Ho & Hl)].
    + destruct Hw as [(r & ->) | [(p & ->) | (k & -> & Hk)]].
      * (* the call has ended *)
        destruct r as [u|e]; [|exact Hinv].
        eapply lock_inv_update; eauto.
      * (* about to read [self] *)
        unfold write. cbn [Task.bind Task.atom]. unfold get at 1.
        cbn [Task.bind].
        eapply lock_inv_update; eauto.
        cbn [current]. left. split; [exact Hf|].
        apply write_serialize_waiting.
      * (* waiting for the lock *)
        destruct (owner c) as [[j d]|] eqn:Ho.
        -- replace (Nat.eqb j i) with false; [exact Hinv|].
           symmetry. apply Nat.eqb_neq. intros ->. exact (Hf d eq_refl).
        -- eapply lock_inv_update; eauto.
           ++ cbn [current]. right. eauto.
           ++ right. intros j Hj. rewrite Ho.
              split; [apply free_of_None | now apply free_of_other].
           ++ intros j d [= <- <-]. exact Hlt.
    + destruct t as [r|X act k|k|k].
      * destruct Hl.
      * (* a step under the lock *)
        destruct Hl as [_ Hk].
        destruct (act (shared c) (world c)) as [[r s2] w2].
        eapply lock_inv_update; eauto.
        cbn [current]. right. eauto.
      * (* the lock is taken once more *)
        rewrite Ho, Nat.eqb_refl.
        eapply lock_inv_update; eauto.
        -- cbn [current]. right. eauto.
        -- right. intros j Hj. rewrite Ho. split; now apply free_of_other.
        -- intros j d' [= <- <-]. exact Hlt.
      * (* the lock is given back *)
        rewrite Ho. destruct d as [|d]; [destruct Hl|].
        rewrite Nat.eqb_refl. destruct d as [|d].
        -- destruct Hl as (r & ->).
           eapply lock_inv_update; eauto.
           ++ cbn [current]. left. split; [apply free_of_None|].
              left. eauto.
           ++ right. intros j Hj. rewrite Ho.
              split; [now apply free_of_other | apply free_of_None].
           ++ discriminate.
        -- eapply lock_inv_update; eauto.
           ++ cbn [current]. right. eauto.
           ++ right. intros j Hj. rewrite Ho. split; now apply free_of_other.
           ++ intros j d' [= <- <-]. exact Hlt.
  - (* between two calls *)
    destruct (pending th) as [|p rest]; [exact Hinv|].
    eapply lock_inv_update; eauto.
    cbn [current]. left. split; [exact Hi|]. right. left. eauto.
Qed.

Lemma exec_lock_inv (schedule : list nat) :
  forall c, lock_inv c -> lock_inv (exec schedule c).
Proof.
  induction schedule as [|i schedule IH]; intros c Hinv; [exact Hinv|].
  cbn. apply IH. now apply step_lock_inv.
Qed.

(** X18.  The lock is never left held.  Whatever the instance, the
    directory, the payloads and the faults to come, and however the
    threads are scheduled: the thread that holds the lock is in the
    middle of a call (a call that has returned or raised holds no lock),
    and by steps of its own, none of which waits for another thread, it
    gives the lock back. *)
Theorem lock_is_always_given_back (logger : BinaryLogger.t) (w : World)
        (pss : list (list Py.str)) (schedule : list nat) (i d : nat) :
  let c := exec schedule (start logger w pss) in
  owner c = Some (i, d) ->
  (exists th t,
      nth_error (threads c) i = Some th
      /\ current th = Some t
      /\ forall r, t <> Task.Done r)
  /\ exists n, owner (exec (repeat i n) c) = None.
Proof.
  intros c Ho.
  destruct (@exec_lock_inv schedule _ (start_lock_inv logger w pss))
    as [Hall Hheld].
  fold c in Hall, Hheld.
  pose proof (Hheld i d Ho) as Hlt.
  destruct (nth_error (threads c) i) as [th|] eqn:Hth.
  2:{ apply nth_error_None in Hth. lia. }
  pose proof (Hall i th Hth) as Hi.
  destruct (current th) as [t|] eqn:Hc.
  2:{ exfalso. exact (Hi d Ho). }
  destruct Hi as [[Hf _] | (d' & Ho' & Hl)].
  { exfalso. exact (Hf d Ho). }
  assert (d' = d) by congruence. subst d'.
  split.
  - exists th, t. split; [reflexivity|]. split; [exact Hc|].
    intros r ->. destruct Hl.
  - destruct (@drain i t d c th Hth Hc Ho Hl) as (n & r & Hown & _).
    exists n. exact Hown.
Qed.

Lemma lock_is_always_given_back_witness :
  let c := exec (repeat 0%nat 5)
                (start sample_logger second_call_fails
                       [[Py.of_string "ok"]; [Py.of_string "no"]]) in
  owner c = Some (0%nat, 1%nat)
  /\ exists n, owner (exec (repeat 0%nat n) c) = None.
Proof.
  intros c.
  assert (Ho : owner c = Some (0%nat, 1%nat)) by (vm_compute; reflexivity).
  split; [exact Ho|].
  exact (proj2 (@lock_is_always_given_back sample_logger second_call_fails
                  [[Py.of_string "ok"]; [Py.of_string "no"]]
                  (repeat 0%nat 5) 0%nat 1%nat Ho)).
Defined.

End LockSafety.
